(** * RequestManager: identity tracking and cancellation coordination

    A shallow embedding of the [RequestManager] class (the JavaScript
    source of the library) and the properties of its request table:
    identity derivation, supersession, cancellation, stale completions,
    the abort-controller slot.

    Conventions of the embedding.
    - JavaScript objects that are compared by reference or mutated in
      place (the [requestInfo] records, the [AbortController]s) live in
      stores indexed by allocation order; a reference is the index.
    - The [Map] [activeRequests] is an association list in insertion
      order, because [cancelAll] walks the keys in that order.
    - Code that may throw runs in a state-and-exception monad; the state
      survives a throw, as in JavaScript.
    - Caller-supplied functions (key producers, call suppliers, cancel
      tokens, abort methods) are opaque: the model records that they were
      invoked and whether they returned or threw. They do not call back
      into the manager.
    - Option objects are known by their own properties; the values they
      hold are plain data.
    - The entry points [axios] and [ajax] build their call and then go
      through [#_request]; [xhr], whose call is an [XMLHttpRequest] of the
      platform, is not modelled. *)

From Stdlib Require Import String Ascii List Bool Arith NArith ZArith Lia.
From Stdlib Require Import DecimalString DecimalN DecimalZ.
Import ListNotations.
Open Scope string_scope.

(** ** JavaScript string primitives used by the identity resolver *)

Module JSString.

(** [s.startsWith(p)]. *)
Fixpoint startsWith (p s : string) : bool :=
  match p, s with
  | EmptyString, _ => true
  | String _ _, EmptyString => false
  | String a p', String b s' => Ascii.eqb a b && startsWith p' s'
  end.

(** [s.includes(sep)]. *)
Fixpoint includes (sep s : string) : bool :=
  startsWith sep s ||
  match s with
  | EmptyString => false
  | String _ s' => includes sep s'
  end.

(** [s.split(sep)] for a non-empty separator, scanning left to right.
    [skip] counts the characters of a matched separator still to be
    dropped, [piece] is the piece being accumulated. *)
Fixpoint split_from (sep : string) (skip : nat) (piece s : string)
  : list string :=
  match s with
  | EmptyString => [piece]
  | String c s' =>
      match skip with
      | S k => split_from sep k piece s'
      | O =>
          if startsWith sep s
          then piece :: split_from sep (String.length sep - 1) "" s'
          else split_from sep 0 (piece ++ String c "") s'
      end
  end.

Definition split (sep s : string) : list string := split_from sep 0 "" s.

(** [arr[i]] on an array of strings; the callers index only below the
    length (see [split_includes_length]). *)
Definition at_index (i : nat) (arr : list string) : string := nth i arr "".

End JSString.

(** ** Identity resolver *)

(** A key literal: a string, or a number that is a safe integer (of
    magnitude below 2^53). Every safe integer is a double and
    [String(requestKey)] prints all its digits; from 2^53 up the digits
    printed are those of the nearest double, shortened. Numbers that are
    not safe integers, and keys of other types, are not covered. *)
Inductive key_literal : Type :=
| KString (s : string)
| KNumber (n : Z) (safe : (Z.abs n <? 2 ^ 53)%Z = true).

Definition js_String (k : key_literal) : string :=
  match k with
  | KString s => s
  | KNumber n _ => NilZero.string_of_int (Z.to_int n)
  end.

(** What [options.requestKey] can be: absent ([null] or [undefined]), a
    literal, or a zero-argument producer, given by what calling it does:
    it throws, or it returns a literal or nothing. *)
Inductive request_key : Type :=
| KeyAbsent
| KeyLiteral (k : key_literal)
| KeyProducer (result : option (option key_literal)).

(** The two ambient reads of the suppressed branch: [Date.now()] (a time
    value: an integer of at most 8.64 * 10^15, below 2^53, so the template
    literal prints all its digits) and the text
    [Math.random().toString(36).slice(2, 11)]. *)
Record ambient : Type := {
  now : N;
  random_suffix : string
}.

Definition decimal_N (n : N) : string := NilZero.string_of_uint (N.to_uint n).

(** The key after the producer has been called inside its [try]. *)
Definition resolve_key (requestKey : request_key) : option key_literal :=
  match requestKey with
  | KeyAbsent => None
  | KeyLiteral k => Some k
  | KeyProducer None => None
  | KeyProducer (Some r) => r
  end.

Definition clean_url (url : string) : string :=
  let cleanedUrl := url in
  let cleanedUrl :=
    if JSString.includes "://" cleanedUrl
    then JSString.at_index 1 (JSString.split "://" cleanedUrl)
    else cleanedUrl in
  let cleanedUrl :=
    if JSString.includes "?" cleanedUrl
    then JSString.at_index 0 (JSString.split "?" cleanedUrl)
    else cleanedUrl in
  let cleanedUrl :=
    if JSString.includes "#" cleanedUrl
    then JSString.at_index 0 (JSString.split "#" cleanedUrl)
    else cleanedUrl in
  cleanedUrl.

Definition _generateRequestId (env : ambient) (url : string)
  (requestKey : request_key) (noCancel : bool) : string :=
  if noCancel
  then "request_" ++ decimal_N (now env) ++ "_" ++ random_suffix env
  else
    match resolve_key requestKey with
    | Some k => "request_" ++ js_String k
    | None => "request_" ++ clean_url url
    end.

(** ** Values, promises and cancellation handles *)

(** Opaque JavaScript values: results, errors, request objects. *)
Inductive js_value : Type :=
| VString (s : string)
| VNumber (n : Z)
| VObject (tag : nat).

(** What a wrapper promise is rejected with: the error of the underlying
    call, or [new Error(message)] made by the manager. *)
Inductive rejection : Type :=
| Raised (error : js_value)
| CancelError (message : string).

Inductive promise_state : Type :=
| Pending
| Fulfilled (v : js_value)
| Rejected (r : rejection).

(** What calling an opaque function does. *)
Inductive call_behaviour : Type :=
| Returns
| Throws (error : js_value).

(** The [abortMethod] argument of [addAbortListener]. *)
Inductive abort_method : Type :=
| NotCallable
| AbortFn (tag : nat) (b : call_behaviour).

Inductive listener : Type :=
| LinkedAbort (abortMethod : abort_method)
| ForeignListener (tag : nat) (b : call_behaviour).

(** [abort] of a platform [AbortController], or of a stand-in whose
    [abort] throws (after setting the flag or not). *)
Inductive abort_impl : Type :=
| NativeAbort
| ThrowingAbort (sets_flag : bool) (error : js_value).

Record controller : Type := {
  aborted : bool;
  impl : abort_impl;
  listeners : list listener
}.

(** [options.cancelToken]: a function, or an object whose [cancel]
    member is missing, callable, or present but not callable. *)
Inductive cancel_member : Type :=
| NoMember
| MemberFn (tag : nat) (b : call_behaviour)
| MemberNotCallable.

Inductive cancel_token : Type :=
| TokenFunction (tag : nat) (b : call_behaviour)
| TokenObject (cancel : cancel_member).

(** The awaited call. A thenable is given by what [then] does (throws, or
    returns a chained object) and what [catch] on the chained object does
    (registers, is missing, or throws: also the case of a nullish chain). *)
Inductive catch_kind : Type :=
| CatchRegisters
| NoCatch
| CatchThrows (error : js_value).

Inductive then_kind : Type :=
| ThenReturns (c : catch_kind)
| ThenThrows (error : js_value).

Inductive awaited : Type :=
| Thenable (t : then_kind)
| Plain (v : js_value).

(** Property values of option objects: plain values, or a signal (named
    by its controller). *)
Inductive prop : Type :=
| PValue (v : js_value)
| PSignal (c : nat).

Definition js_object : Type := list (string * prop).

(** The [requestPromise] argument: a function (given by what calling it
    does), a URL string (given with what the global [fetch] does on it),
    or anything else. A string argument is [RPString]:
    [RPAwaited (Plain (VString _))] stands for no argument. *)
Inductive request_promise : Type :=
| RPFunction (tag : nat) (result : awaited + js_value)
| RPString (url : string) (fetched : awaited + js_value)
| RPAwaited (p : awaited).

Module Options.
(** The four private keys as typed fields, every other key in [rest]. *)
Record t : Type := {
  abortController : option nat;
  cancelToken : option cancel_token;
  requestKey : request_key;
  noCancel : bool;
  rest : js_object
}.
Definition empty : t :=
  {| abortController := None; cancelToken := None; requestKey := KeyAbsent;
     noCancel := false; rest := [] |}.
End Options.

Module RequestInfo.
(** [wrapperPromise], [resolveWrapper] and [rejectWrapper] are one
    promise: its state is kept here. [abortController] is never empty:
    it is [options.abortController || this.getAbortController()]. *)
Record t : Type := {
  promise : awaited;
  abortController : nat;
  cancelToken : option cancel_token;
  wrapperPromise : promise_state;
  isCancelled : bool;
  verbose : bool
}.
End RequestInfo.

(** The closure of the continuations made by one [#_request] call. *)
Record continuation : Type := {
  k_requestId : string;
  k_requestInfo : nat
}.

(** Calls that leave the manager, in the order they happen. *)
Inductive effect : Type :=
| AbortCalled (c : nat)
| AbortMethodCalled (tag : nat)
| ListenerCalled (tag : nat)
| CancelTokenCalled (tag : nat)
| SupplierCalled (tag : nat) (fetchOptions : js_object)
| FetchCalled (url : string) (fetchOptions : js_object)
| ThenAttached (k : continuation)
| CatchAttached (k : continuation)
| TimeoutSet (k : continuation) (requestPromise : js_value)
| ResolveCalled (info : nat) (v : js_value)
| RejectCalled (info : nat) (r : rejection).

Record manager_options : Type := {
  mo_verbose : option bool
}.

(** The manager ([activeRequests], [verbose], [managerOptions], [options],
    [abortController]) with the object stores and the effect trace. *)
Record state : Type := {
  activeRequests : list (string * nat);
  verbose : bool;
  managerOptions : manager_options;
  options : option Options.t;
  abortController : option nat;
  infos : list RequestInfo.t;
  controllers : list controller;
  effects : list effect
}.

(** ** The [Map] operations used on [activeRequests] *)

Module JSMap.

Fixpoint get (k : string) (m : list (string * nat)) : option nat :=
  match m with
  | [] => None
  | (k', v) :: m' => if String.eqb k k' then Some v else get k m'
  end.

Definition has (k : string) (m : list (string * nat)) : bool :=
  match get k m with Some _ => true | None => false end.

(** [set] keeps the position of an existing key and appends a new one. *)
Fixpoint set (k : string) (v : nat) (m : list (string * nat))
  : list (string * nat) :=
  match m with
  | [] => [(k, v)]
  | (k', v') :: m' =>
      if String.eqb k k' then (k', v) :: m' else (k', v') :: set k v m'
  end.

Definition delete (k : string) (m : list (string * nat))
  : list (string * nat) :=
  filter (fun kv => negb (String.eqb k (fst kv))) m.

Definition keys (m : list (string * nat)) : list string := map fst m.

Definition size (m : list (string * nat)) : nat := length m.

End JSMap.

(** An own property of [obj] is created or overwritten. *)
Fixpoint object_set (key : string) (value : prop) (obj : js_object)
  : js_object :=
  match obj with
  | [] => [(key, value)]
  | (k, v) :: obj' =>
      if String.eqb key k then (k, value) :: obj'
      else (k, v) :: object_set key value obj'
  end.

(** The own property [key] of [obj]. *)
Fixpoint object_get (key : string) (obj : js_object) : option prop :=
  match obj with
  | [] => None
  | (k, v) :: obj' => if String.eqb key k then Some v else object_get key obj'
  end.

(** [obj[key] = value] on an object made by [Object.assign({}, ...)]. The
    key "__proto__" is the accessor inherited from [Object.prototype]:
    the write goes to its setter and creates no own property. *)
Definition object_assign (key : string) (value : prop) (obj : js_object)
  : js_object :=
  if String.eqb key "__proto__" then obj else object_set key value obj.

(** ** The state-and-exception monad *)

Inductive completion (A : Type) : Type :=
| Normal (a : A)
| Throw (error : js_value).
Arguments Normal {A} a.
Arguments Throw {A} error.

Definition M (A : Type) : Type := state -> completion A * state.

Definition ret {A} (a : A) : M A := fun st => (Normal a, st).

Definition throw {A} (error : js_value) : M A := fun st => (Throw error, st).

Definition bind {A B} (m : M A) (f : A -> M B) : M B :=
  fun st =>
    match m st with
    | (Normal a, st') => f a st'
    | (Throw e, st') => (Throw e, st')
    end.

(** [try { body } catch (error) { handler(error) }]. *)
Definition try_catch {A} (body : M A) (handler : js_value -> M A) : M A :=
  fun st =>
    match body st with
    | (Normal a, st') => (Normal a, st')
    | (Throw e, st') => handler e st'
    end.

Definition gets {A} (f : state -> A) : M A := fun st => (Normal (f st), st).

Definition modify (f : state -> state) : M unit := fun st => (Normal tt, f st).

Notation "x <- m ;; k" := (bind m (fun x => k))
  (at level 61, m at next level, right associativity).
Notation "m ;; k" := (bind m (fun _ => k))
  (at level 61, right associativity).

Definition when (b : bool) (m : M unit) : M unit := if b then m else ret tt.

(** [try { body } catch (error) {}]. *)
Definition swallow (body : M unit) : M unit := try_catch body (fun _ => ret tt).

(** [arr.forEach(f)]. *)
Fixpoint forEach {A} (f : A -> M unit) (arr : list A) : M unit :=
  match arr with
  | [] => ret tt
  | x :: arr' => f x ;; forEach f arr'
  end.

(** ** Field updates and object stores *)

Definition with_activeRequests (m : list (string * nat)) (st : state) : state :=
  {| activeRequests := m; verbose := verbose st;
     managerOptions := managerOptions st; options := options st;
     abortController := abortController st; infos := infos st;
     controllers := controllers st; effects := effects st |}.

Definition with_verbose (b : bool) (st : state) : state :=
  {| activeRequests := activeRequests st; verbose := b;
     managerOptions := managerOptions st; options := options st;
     abortController := abortController st; infos := infos st;
     controllers := controllers st; effects := effects st |}.

Definition with_managerOptions (o : manager_options) (st : state) : state :=
  {| activeRequests := activeRequests st; verbose := verbose st;
     managerOptions := o; options := options st;
     abortController := abortController st; infos := infos st;
     controllers := controllers st; effects := effects st |}.

Definition with_options (o : option Options.t) (st : state) : state :=
  {| activeRequests := activeRequests st; verbose := verbose st;
     managerOptions := managerOptions st; options := o;
     abortController := abortController st; infos := infos st;
     controllers := controllers st; effects := effects st |}.

Definition with_abortController (c : option nat) (st : state) : state :=
  {| activeRequests := activeRequests st; verbose := verbose st;
     managerOptions := managerOptions st; options := options st;
     abortController := c; infos := infos st;
     controllers := controllers st; effects := effects st |}.

Definition with_infos (l : list RequestInfo.t) (st : state) : state :=
  {| activeRequests := activeRequests st; verbose := verbose st;
     managerOptions := managerOptions st; options := options st;
     abortController := abortController st; infos := l;
     controllers := controllers st; effects := effects st |}.

(** The part of the state outside the manager and its [requestInfo]s:
    the controllers and the trace. *)
Definition with_world (cs : list controller) (ef : list effect) (st : state)
  : state :=
  {| activeRequests := activeRequests st; verbose := verbose st;
     managerOptions := managerOptions st; options := options st;
     abortController := abortController st; infos := infos st;
     controllers := cs; effects := ef |}.

(** Update of the object at reference [r]; nothing at a dangling one. *)
Fixpoint update {A} (r : nat) (f : A -> A) (l : list A) : list A :=
  match l, r with
  | [], _ => []
  | x :: l', O => f x :: l'
  | x :: l', S r' => x :: update r' f l'
  end.

Definition emit (e : effect) : M unit :=
  modify (fun st => with_world (controllers st) (effects st ++ [e]) st).

Definition call (b : call_behaviour) : M unit :=
  match b with
  | Returns => ret tt
  | Throws error => throw error
  end.

(** The [TypeError] of calling something that is not a function. *)
Definition TypeError : js_value := VString "TypeError".

(** *** [requestInfo] objects *)

Definition read_info (r : nat) (st : state) : option RequestInfo.t :=
  nth_error (infos st) r.

Definition info_isCancelled (r : nat) (st : state) : bool :=
  match read_info r st with
  | Some i => RequestInfo.isCancelled i
  | None => false
  end.

Definition info_verbose (r : nat) (st : state) : bool :=
  match read_info r st with
  | Some i => RequestInfo.verbose i
  | None => false
  end.

Definition wrapper_state (r : nat) (st : state) : option promise_state :=
  option_map RequestInfo.wrapperPromise (read_info r st).

Definition mark_cancelled (i : RequestInfo.t) : RequestInfo.t :=
  {| RequestInfo.promise := RequestInfo.promise i;
     RequestInfo.abortController := RequestInfo.abortController i;
     RequestInfo.cancelToken := RequestInfo.cancelToken i;
     RequestInfo.wrapperPromise := RequestInfo.wrapperPromise i;
     RequestInfo.isCancelled := true;
     RequestInfo.verbose := RequestInfo.verbose i |}.

(** A promise settles once: later calls of its resolvers do nothing. *)
Definition settle (p : promise_state) (i : RequestInfo.t) : RequestInfo.t :=
  {| RequestInfo.promise := RequestInfo.promise i;
     RequestInfo.abortController := RequestInfo.abortController i;
     RequestInfo.cancelToken := RequestInfo.cancelToken i;
     RequestInfo.wrapperPromise :=
       match RequestInfo.wrapperPromise i with
       | Pending => p
       | settled => settled
       end;
     RequestInfo.isCancelled := RequestInfo.isCancelled i;
     RequestInfo.verbose := RequestInfo.verbose i |}.

Definition resolveWrapper (r : nat) (v : js_value) : M unit :=
  emit (ResolveCalled r v) ;;
  modify (fun st => with_infos (update r (settle (Fulfilled v)) (infos st)) st).

Definition rejectWrapper (r : nat) (e : rejection) : M unit :=
  emit (RejectCalled r e) ;;
  modify (fun st => with_infos (update r (settle (Rejected e)) (infos st)) st).

(** *** [AbortController] objects *)

Definition read_controller (c : nat) (st : state) : option controller :=
  nth_error (controllers st) c.

(** [controller.signal.aborted]. *)
Definition signal_aborted (c : nat) (st : state) : bool :=
  match read_controller c st with
  | Some k => aborted k
  | None => false
  end.

Definition new_AbortController (i : abort_impl) : M nat :=
  fun st =>
    (Normal (length (controllers st)),
     with_world
       (controllers st ++ [{| aborted := false; impl := i; listeners := [] |}])
       (effects st) st).

Definition set_aborted (k : controller) : controller :=
  {| aborted := true; impl := impl k; listeners := listeners k |}.

Definition add_listener (l : listener) (k : controller) : controller :=
  {| aborted := aborted k; impl := impl k; listeners := listeners k ++ [l] |}.

Definition update_controller (c : nat) (f : controller -> controller) : M unit :=
  modify (fun st => with_world (update c f (controllers st)) (effects st) st).

Definition is_function (m : abort_method) : bool :=
  match m with
  | AbortFn _ _ => true
  | NotCallable => false
  end.

Definition call_abortMethod (m : abort_method) : M unit :=
  match m with
  | AbortFn tag b => emit (AbortMethodCalled tag) ;; call b
  | NotCallable => throw TypeError
  end.

(** The listener installed by [addAbortListener]:
    [() => { if (typeof abortMethod === 'function') { try { abortMethod(); } catch (error) {} } }]. *)
Definition linked_handler (abortMethod : abort_method) : M unit :=
  when (is_function abortMethod) (swallow (call_abortMethod abortMethod)).

Definition run_listener (l : listener) : M unit :=
  match l with
  | LinkedAbort m => linked_handler m
  | ForeignListener tag b => emit (ListenerCalled tag) ;; call b
  end.

(** Event dispatch: every listener runs; what a listener throws is
    reported by the platform, not rethrown to the caller of [abort]. *)
Definition dispatch_abort (ls : list listener) : M unit :=
  forEach (fun l => swallow (run_listener l)) ls.

(** [controller.abort(reason)]. *)
Definition abort (c : nat) : M unit :=
  k <- gets (read_controller c) ;;
  match k with
  | None => ret tt
  | Some k =>
      emit (AbortCalled c) ;;
      match impl k with
      | NativeAbort =>
          if aborted k then ret tt
          else update_controller c set_aborted ;; dispatch_abort (listeners k)
      | ThrowingAbort sets_flag error =>
          when sets_flag (update_controller c set_aborted) ;; throw error
      end
  end.

(** [cancelToken()] or [cancelToken.cancel()], as [cancel] tries them. *)
Definition invoke_cancelToken (t : cancel_token) : M unit :=
  match t with
  | TokenFunction tag b => emit (CancelTokenCalled tag) ;; call b
  | TokenObject NoMember => ret tt
  | TokenObject (MemberFn tag b) => emit (CancelTokenCalled tag) ;; call b
  | TokenObject MemberNotCallable => throw TypeError
  end.

(** ** The manager *)

(** [new RequestManager(managerOptions)]. *)
Definition new_RequestManager (managerOptions : manager_options) : state :=
  {| activeRequests := [];
     verbose := match mo_verbose managerOptions with
                | Some b => b
                | None => false
                end;
     managerOptions := managerOptions;
     options := None;
     abortController := None;
     infos := [];
     controllers := [];
     effects := [] |}.

Definition _flushRequestOptions : M unit := modify (with_options None).

Definition getOptions : M manager_options := gets managerOptions.

Definition setOptions (o : manager_options) : M unit :=
  modify (with_managerOptions o) ;;
  match mo_verbose o with
  | Some b => modify (with_verbose b)
  | None => ret tt
  end.

Definition _setRequestOptions (o : Options.t) : M unit :=
  modify (with_options (Some o)).

Definition getAbortController : M nat :=
  let fresh :=
    c <- new_AbortController NativeAbort ;;
    modify (with_abortController (Some c)) ;;
    ret c in
  current <- gets abortController ;;
  match current with
  | None => fresh
  | Some c =>
      stale <- gets (signal_aborted c) ;;
      if stale then fresh else ret c
  end.

(** A signal is named by its controller. *)
Definition getSignal : M nat := getAbortController.

Definition _clearAbortController : M unit := modify (with_abortController None).

Definition customOptions : list string :=
  ["abortController"; "cancelToken"; "requestKey"; "noCancel"].

(** [Object.assign({}, source)]: every own property of [source] is
    written to the new object. *)
Definition Object_assign (source : js_object) : js_object :=
  fold_left (fun target kv => object_assign (fst kv) (snd kv) target) source [].

(** [Object.keys(options)] lists the private keys that are present and
    the keys of [rest]; the loop skips the former. *)
Definition _prepareFetchOptions (options : Options.t) (signal : nat)
  (additionalOptions : js_object) : js_object :=
  let fetchOptions :=
    fold_left
      (fun fetchOptions kv =>
         if existsb (String.eqb (fst kv)) customOptions then fetchOptions
         else object_assign (fst kv) (snd kv) fetchOptions)
      (Options.rest options) (Object_assign additionalOptions) in
  object_assign "signal" (PSignal signal) fetchOptions.

Definition activeRequests_set (requestId : string) (r : nat) : M unit :=
  modify (fun st =>
            with_activeRequests (JSMap.set requestId r (activeRequests st)) st).

Definition activeRequests_delete (requestId : string) : M unit :=
  modify (fun st =>
            with_activeRequests (JSMap.delete requestId (activeRequests st)) st).

(** "Try to abort using AbortController". *)
Definition try_abort (r : nat) : M unit :=
  c <- gets (fun st => option_map RequestInfo.abortController (read_info r st)) ;;
  match c with
  | Some c =>
      already <- gets (signal_aborted c) ;;
      when (negb already) (swallow (abort c))
  | None => ret tt
  end.

(** "Try to cancel using cancel token/function". *)
Definition try_cancelToken (r : nat) : M unit :=
  t <- gets (fun st => match read_info r st with
                       | Some i => RequestInfo.cancelToken i
                       | None => None
                       end) ;;
  match t with
  | Some t => swallow (invoke_cancelToken t)
  | None => ret tt
  end.

Definition cancel_message (requestId : string) : rejection :=
  CancelError ("Request " ++ requestId ++ " was cancelled").

(** [cancel(requestId)]. *)
Definition cancel (requestId : string) : M bool :=
  requestInfo <- gets (fun st => JSMap.get requestId (activeRequests st)) ;;
  match requestInfo with
  | None => ret false
  | Some r =>
      modify (fun st => with_infos (update r mark_cancelled (infos st)) st) ;;
      try_abort r ;;
      try_cancelToken r ;;
      v <- gets verbose ;;
      when v (rejectWrapper r (cancel_message requestId)) ;;
      activeRequests_delete requestId ;;
      ret true
  end.

(** [addAbortListener(abortMethod, signal)]. *)
Definition addAbortListener (abortMethod : abort_method) (signal : option nat)
  : M unit :=
  match signal with
  | None => ret tt
  | Some c => update_controller c (add_listener (LinkedAbort abortMethod))
  end.

(** The [forEach] of [cancelAll], with its counter. *)
Fixpoint cancel_each (requestIds : list string) (cancelledCount : nat) : M nat :=
  match requestIds with
  | [] => ret cancelledCount
  | requestId :: requestIds' =>
      b <- cancel requestId ;;
      cancel_each requestIds' (if b then S cancelledCount else cancelledCount)
  end.

Definition cancelAll : M nat :=
  requestIds <- gets (fun st => JSMap.keys (activeRequests st)) ;;
  cancel_each requestIds 0.

Definition isActive (requestId : string) (st : state) : bool :=
  JSMap.has requestId (activeRequests st).

Definition getActiveCount (st : state) : nat := JSMap.size (activeRequests st).

Definition clear : M unit := modify (with_activeRequests []).

(** *** Continuations of [#_request] *)

(** [this.activeRequests.get(requestId) === requestInfo]. *)
Definition is_current (k : continuation) (st : state) : bool :=
  match JSMap.get (k_requestId k) (activeRequests st) with
  | Some r => Nat.eqb r (k_requestInfo k)
  | None => false
  end.

(** The callback given to [requestPromise.then]. *)
Definition on_fulfilled (k : continuation) (result : js_value) : M unit :=
  current <- gets (is_current k) ;;
  cancelled <- gets (info_isCancelled (k_requestInfo k)) ;;
  when (current && negb cancelled)
    (activeRequests_delete (k_requestId k) ;;
     resolveWrapper (k_requestInfo k) result).

Definition onError (k : continuation) (error : js_value) : M unit :=
  current <- gets (is_current k) ;;
  if negb current then ret tt
  else
    activeRequests_delete (k_requestId k) ;;
    cancelled <- gets (info_isCancelled (k_requestInfo k)) ;;
    v <- gets (info_verbose (k_requestInfo k)) ;;
    if negb cancelled then rejectWrapper (k_requestInfo k) (Raised error)
    else if cancelled && v
         then rejectWrapper (k_requestInfo k) (CancelError "Request was cancelled")
         else ret tt.

(** The callback given to [setTimeout]; [requestPromise] is the value the
    closure holds. *)
Definition on_timeout (k : continuation) (requestPromise : js_value) : M unit :=
  current <- gets (is_current k) ;;
  cancelled <- gets (info_isCancelled (k_requestInfo k)) ;;
  when (current && negb cancelled)
    (activeRequests_delete (k_requestId k) ;;
     resolveWrapper (k_requestInfo k) requestPromise).

(** *** [#_request] *)

Definition call_supplier (result : awaited + js_value) : M awaited :=
  match result with
  | inl p => ret p
  | inr error => throw error
  end.

(** Lines "Handle different types of requestPromise inputs". *)
Definition prepare_call (requestPromise : request_promise) (options : Options.t)
  (abortController : nat) : M awaited :=
  match requestPromise with
  | RPFunction tag result =>
      let fetchOptions := _prepareFetchOptions options abortController [] in
      emit (SupplierCalled tag fetchOptions) ;; call_supplier result
  | RPString url fetched =>
      let fetchOptions := _prepareFetchOptions options abortController [] in
      emit (FetchCalled url fetchOptions) ;; call_supplier fetched
  | RPAwaited p => ret p
  end.

Definition new_requestInfo (i : RequestInfo.t) : M nat :=
  fun st => (Normal (length (infos st)), with_infos (infos st ++ [i]) st).

(** Lines "Create a wrapper promise" to [this.activeRequests.set]. *)
Definition register (requestId : string) (requestPromise : awaited)
  (options : Options.t) (abortController : nat) : M nat :=
  v <- gets verbose ;;
  requestInfo <-
    new_requestInfo
      {| RequestInfo.promise := requestPromise;
         RequestInfo.abortController := abortController;
         RequestInfo.cancelToken := Options.cancelToken options;
         RequestInfo.wrapperPromise := Pending;
         RequestInfo.isCancelled := false;
         RequestInfo.verbose := v |} ;;
  activeRequests_set requestId requestInfo ;;
  ret requestInfo.

Definition call_then (k : continuation) (t : then_kind) : M catch_kind :=
  match t with
  | ThenReturns c => emit (ThenAttached k) ;; ret c
  | ThenThrows error => throw error
  end.

Definition call_catch (k : continuation) (c : catch_kind) : M unit :=
  match c with
  | CatchRegisters => emit (CatchAttached k)
  | NoCatch => ret tt
  | CatchThrows error => throw error
  end.

(** Lines "Handle request promise completion". *)
Definition attach (k : continuation) (requestPromise : awaited) : M unit :=
  match requestPromise with
  | Thenable t =>
      try_catch (req <- call_then k t ;; call_catch k req)
                (fun error => onError k error)
  | Plain v => emit (TimeoutSet k v)
  end.

(** Lines from [#_setRequestOptions] to the choice of the controller. *)
Definition choose_controller (options : Options.t) : M nat :=
  _setRequestOptions options ;;
  when (match Options.abortController options with
        | None => true
        | Some _ => false
        end) _clearAbortController ;;
  _flushRequestOptions ;;
  match Options.abortController options with
  | Some c => ret c
  | None => getAbortController
  end.

Definition _request (requestId : string) (requestPromise : request_promise)
  (options : Options.t) : M nat :=
  abortController <- choose_controller options ;;
  requestPromise <- prepare_call requestPromise options abortController ;;
  when (negb (Options.noCancel options)) (cancel requestId ;; ret tt) ;;
  requestInfo <- register requestId requestPromise options abortController ;;
  attach {| k_requestId := requestId; k_requestInfo := requestInfo |}
         requestPromise ;;
  ret requestInfo.

Definition request (env : ambient) (url : string)
  (requestPromise : request_promise) (options : Options.t) : M nat :=
  let requestId :=
    _generateRequestId env url (Options.requestKey options)
                       (Options.noCancel options) in
  _request requestId requestPromise options.

Definition fetch (env : ambient) (url : string) (fetched : awaited + js_value)
  (options : Options.t) : M nat :=
  let requestId :=
    _generateRequestId env url (Options.requestKey options)
                       (Options.noCancel options) in
  _request requestId (RPString url fetched) options.

(** ** Runs: calls of the public methods and turns of the scheduler *)

Inductive event : Type :=
| Call_request (env : ambient) (url : string) (requestPromise : request_promise)
               (options : Options.t)
| Call_fetch (env : ambient) (url : string) (fetched : awaited + js_value)
             (options : Options.t)
| Call_cancel (requestId : string)
| Call_cancelAll
| Call_clear
| Call_setOptions (o : manager_options)
| Call_getAbortController
| Call_getSignal
| Call_addAbortListener (abortMethod : abort_method) (signal : option nat)
| User_newController (i : abort_impl)
| User_abort (c : nat)
| User_addListener (c : nat) (tag : nat) (b : call_behaviour)
| Turn_fulfilled (k : continuation) (result : js_value)
| Turn_rejected (k : continuation) (error : js_value)
| Turn_timeout (k : continuation) (requestPromise : js_value).

Definition exec {A} (m : M A) (st : state) : state := snd (m st).

Definition step (ev : event) : state -> state :=
  match ev with
  | Call_request env url p o => exec (request env url p o)
  | Call_fetch env url f o => exec (fetch env url f o)
  | Call_cancel requestId => exec (cancel requestId)
  | Call_cancelAll => exec cancelAll
  | Call_clear => exec clear
  | Call_setOptions o => exec (setOptions o)
  | Call_getAbortController => exec getAbortController
  | Call_getSignal => exec getSignal
  | Call_addAbortListener m s => exec (addAbortListener m s)
  | User_newController i => exec (new_AbortController i)
  | User_abort c => exec (swallow (abort c))
  | User_addListener c tag b =>
      exec (update_controller c (add_listener (ForeignListener tag b)))
  | Turn_fulfilled k result => exec (on_fulfilled k result)
  | Turn_rejected k error => exec (onError k error)
  | Turn_timeout k v => exec (on_timeout k v)
  end.

Definition run (evs : list event) (st : state) : state :=
  fold_left (fun st ev => step ev st) evs st.

(** ** Notions used to state the properties *)

Definition is_settle_of (r : nat) (e : effect) : bool :=
  match e with
  | ResolveCalled r' _ | RejectCalled r' _ => Nat.eqb r r'
  | _ => false
  end.

(** How often the resolvers of the wrapper of [r] were called. *)
Definition settle_calls (r : nat) (ef : list effect) : nat :=
  length (filter (is_settle_of r) ef).

Definition quiet (ef : list effect) : Prop := forall r, settle_calls r ef = 0.

Definition not_settle (e : effect) : bool :=
  match e with
  | ResolveCalled _ _ | RejectCalled _ _ => false
  | _ => true
  end.

(** [outside st st']: from [st] to [st'] the table, the entries and the
    manager's [verbose] are the same and no resolver was called. *)
Definition outside (st st' : state) : Prop :=
  activeRequests st' = activeRequests st /\
  infos st' = infos st /\
  verbose st' = verbose st /\
  exists ef, effects st' = (effects st ++ ef)%list /\ quiet ef.

Definition external {A} (m : M A) : Prop := forall st, outside st (snd (m st)).

(** [total m]: [m] completes normally from every state. *)
Definition total {A} (m : M A) : Prop := forall st, exists a, fst (m st) = Normal a.

(** What [cancel] does to the entry it finds, under the manager's
    [verbose] being [v]. *)
Definition cancel_mark (v : bool) (requestId : string) (i : RequestInfo.t)
  : RequestInfo.t :=
  if v then settle (Rejected (cancel_message requestId)) (mark_cancelled i)
  else mark_cancelled i.

(** [r] is a value of the table. *)
Definition tracked (r : nat) (st : state) : Prop :=
  In r (map snd (activeRequests st)).

(** A resolver call and the state it asks the promise to take. *)
Inductive settlement_of (r : nat) : promise_state -> effect -> Prop :=
| S_resolve v : settlement_of r (Fulfilled v) (ResolveCalled r v)
| S_reject x : settlement_of r (Rejected x) (RejectCalled r x).

(** The changes the manager makes to its table and entries, as seen from
    outside a synchronous block of code: each constructor is one such
    block. *)
Inductive move (st st' : state) : Prop :=
| M_outside :
    activeRequests st' = activeRequests st ->
    infos st' = infos st ->
    (exists ef, effects st' = (effects st ++ ef)%list /\ quiet ef) ->
    move st st'
| M_cancel requestId r v ef :
    JSMap.get requestId (activeRequests st) = Some r ->
    activeRequests st' = JSMap.delete requestId (activeRequests st) ->
    infos st' = update r (cancel_mark v requestId) (infos st) ->
    effects st' =
      (effects st ++ ef ++
       (if v then [RejectCalled r (cancel_message requestId)] else []))%list ->
    quiet ef ->
    move st st'
| M_settle requestId r p e :
    JSMap.get requestId (activeRequests st) = Some r ->
    settlement_of r p e ->
    activeRequests st' = JSMap.delete requestId (activeRequests st) ->
    infos st' = update r (settle p) (infos st) ->
    effects st' = (effects st ++ [e])%list ->
    move st st'
| M_delete requestId :
    activeRequests st' = JSMap.delete requestId (activeRequests st) ->
    infos st' = infos st ->
    effects st' = effects st ->
    move st st'
| M_register requestId i :
    RequestInfo.wrapperPromise i = Pending ->
    RequestInfo.isCancelled i = false ->
    activeRequests st' =
      JSMap.set requestId (length (infos st)) (activeRequests st) ->
    infos st' = (infos st ++ [i])%list ->
    effects st' = effects st ->
    move st st'
| M_clear :
    activeRequests st' = [] ->
    infos st' = infos st ->
    effects st' = effects st ->
    move st st'.

Inductive moves : state -> state -> Prop :=
| moves_refl st : moves st st
| moves_step st1 st2 st3 : moves st1 st2 -> move st2 st3 -> moves st1 st3.

Definition moving {A} (m : M A) : Prop := forall st, moves st (snd (m st)).

(** The invariant of the table and the entries. *)
Record WF (st : state) : Prop := {
  wf_keys : NoDup (JSMap.keys (activeRequests st));
  wf_values : NoDup (map snd (activeRequests st));
  wf_tracked : forall r, tracked r st ->
    r < length (infos st) /\
    settle_calls r (effects st) = 0 /\
    wrapper_state r st = Some Pending /\
    info_isCancelled r st = false;
  wf_fresh : forall r, length (infos st) <= r -> settle_calls r (effects st) = 0;
  wf_once : forall r, settle_calls r (effects st) <= 1
}.

(** An entry that exists, is out of the table, and whose resolvers were
    called [n] times. *)
Definition frozen (r : nat) (i : RequestInfo.t) (n : nat) (st : state) : Prop :=
  read_info r st = Some i /\ ~ tracked r st /\ settle_calls r (effects st) = n.

(** The call supplier (or [fetch]) returns instead of throwing. *)
Definition supplier_returns (requestPromise : request_promise) : bool :=
  match requestPromise with
  | RPFunction _ (inr _) | RPString _ (inr _) => false
  | _ => true
  end.

(** The fields of an entry that are set once. *)
Definition same_call (i i' : RequestInfo.t) : Prop :=
  RequestInfo.promise i' = RequestInfo.promise i /\
  RequestInfo.abortController i' = RequestInfo.abortController i /\
  RequestInfo.cancelToken i' = RequestInfo.cancelToken i /\
  RequestInfo.verbose i' = RequestInfo.verbose i /\
  (RequestInfo.isCancelled i = true -> RequestInfo.isCancelled i' = true).

(** A platform promise: [then] and [catch] register. *)
Definition a_promise : awaited := Thenable (ThenReturns CatchRegisters).

(** The call is, or the supplier returns, a platform promise. *)
Definition yields_promise (requestPromise : request_promise) : bool :=
  match requestPromise with
  | RPFunction _ (inl (Thenable (ThenReturns CatchRegisters)))
  | RPString _ (inl (Thenable (ThenReturns CatchRegisters)))
  | RPAwaited (Thenable (ThenReturns CatchRegisters)) => true
  | _ => false
  end.

(** How a promise-based call ends, the turn of the scheduler that tells
    the manager, and the state the proxy should take. *)
Inductive outcome : Type :=
| Fulfils (v : js_value)
| Fails (error : js_value).

Definition deliver (k : continuation) (out : outcome) : M unit :=
  match out with
  | Fulfils v => on_fulfilled k v
  | Fails error => onError k error
  end.

Definition settled (out : outcome) : promise_state :=
  match out with
  | Fulfils v => Fulfilled v
  | Fails error => Rejected (Raised error)
  end.

(** Two requests made one after the other from [st] get distinct
    identities, neither is cancelled, and each proxy takes the outcome of
    its own call, in whichever order the calls end. *)
Definition suppression_independent (st : state) (env1 env2 : ambient)
  (url1 url2 : string) (rp1 rp2 : request_promise) (o1 o2 : Options.t) : Prop :=
  let id1 := _generateRequestId env1 url1 (Options.requestKey o1) (Options.noCancel o1) in
  let id2 := _generateRequestId env2 url2 (Options.requestKey o2) (Options.noCancel o2) in
  id1 <> id2 /\
  exists r1 st1 r2 st2,
    request env1 url1 rp1 o1 st = (Normal r1, st1) /\
    request env2 url2 rp2 o2 st1 = (Normal r2, st2) /\
    info_isCancelled r1 st2 = false /\
    info_isCancelled r2 st2 = false /\
    let k1 := {| k_requestId := id1; k_requestInfo := r1 |} in
    let k2 := {| k_requestId := id2; k_requestInfo := r2 |} in
    is_current k1 st2 = true /\
    is_current k2 st2 = true /\
    forall out1 out2,
      let a := exec (deliver k2 out2) (exec (deliver k1 out1) st2) in
      let b := exec (deliver k1 out1) (exec (deliver k2 out2) st2) in
      wrapper_state r1 a = Some (settled out1) /\
      wrapper_state r2 a = Some (settled out2) /\
      wrapper_state r1 b = Some (settled out1) /\
      wrapper_state r2 b = Some (settled out2).

(** *** Sample inputs *)

Definition sample_env : ambient :=
  {| now := 1700000000000; random_suffix := "k3j9x0a1b" |}.

Definition other_env : ambient :=
  {| now := 1700000000001; random_suffix := "k3j9x0a1b" |}.

Definition suppressed : Options.t :=
  {| Options.abortController := None; Options.cancelToken := None;
     Options.requestKey := KeyAbsent; Options.noCancel := true;
     Options.rest := [] |}.

Definition quiet_manager : state := new_RequestManager {| mo_verbose := None |}.

Definition verbose_manager : state :=
  new_RequestManager {| mo_verbose := Some true |}.

(** One pending request on "/api/a". *)
Definition one_pending : list event :=
  [Call_request sample_env "/api/a" (RPAwaited a_promise) Options.empty].

(** Two pending requests under distinct identities. *)
Definition two_pending : list event :=
  [Call_request sample_env "/api/a" (RPAwaited a_promise) Options.empty;
   Call_request sample_env "/api/b" (RPAwaited a_promise) Options.empty].

(** A request on "/api/a" superseded by a second one. *)
Definition superseded : list event :=
  [Call_request sample_env "/api/a?q=1" (RPAwaited a_promise) Options.empty;
   Call_request sample_env "/api/a?q=2" (RPAwaited a_promise) Options.empty].

(** Two suppressed requests that read the same clock and random text,
    and whose calls then both fulfil. *)
Definition colliding : list event :=
  [Call_request sample_env "/api/lazy" (RPAwaited a_promise) suppressed;
   Call_request sample_env "/api/lazy" (RPAwaited a_promise) suppressed;
   Turn_fulfilled {| k_requestId := "request_1700000000000_k3j9x0a1b";
                     k_requestInfo := 0 |} (VString "first");
   Turn_fulfilled {| k_requestId := "request_1700000000000_k3j9x0a1b";
                     k_requestInfo := 1 |} (VString "second")].

(** ** Further notions: strings *)

(** The characters of [s] before the first [c]; all of [s] without one. *)
Fixpoint before_char (c : ascii) (s : string) : string :=
  match s with
  | EmptyString => EmptyString
  | String b s' => if Ascii.eqb c b then EmptyString else String b (before_char c s')
  end.

(** The one-character string of [c]. *)
Definition char (c : ascii) : string := String c EmptyString.

(** ** Further notions: requests *)

(** The awaited call a [requestPromise] gives when nothing throws. *)
Definition yields (requestPromise : request_promise) : option awaited :=
  match requestPromise with
  | RPFunction _ (inl p) | RPString _ (inl p) | RPAwaited p => Some p
  | _ => None
  end.

(** Calls whose continuations are only registered by [#_request]: a
    thenable whose [then] returns (with [catch] or without), or a plain
    value. *)
Definition stays_tracked (p : awaited) : bool :=
  match p with
  | Thenable (ThenReturns CatchRegisters) | Thenable (ThenReturns NoCatch)
  | Plain _ => true
  | _ => false
  end.

(** The effects by which a request is cancelled. *)
Definition is_cancellation (e : effect) : bool :=
  match e with
  | AbortCalled _ | AbortMethodCalled _ | ListenerCalled _
  | CancelTokenCalled _ => true
  | RejectCalled _ (CancelError _) => true
  | _ => false
  end.

(** ** [ajax] and [axios] *)

(** What [ajaxFunction] returns: a falsy value (other than the empty
    string), or a value given by its own [abort] member, the [abort] of
    its [xhr] member ([NotCallable] where there is none) and what it is
    as a [requestPromise]. *)
Inductive ajax_request : Type :=
| ReqFalsy (v : js_value)
| ReqObject (own_abort xhr_abort : abort_method) (as_call : request_promise).

(** The [ajaxFunction] argument: not a function, or a function given by
    what calling it does. Its argument [{ url, ...requestOptions }] holds
    the private keys too; the call is not recorded in the trace. *)
Inductive ajax_function : Type :=
| AjaxNotFunction
| AjaxFunction (tag : nat) (result : ajax_request + js_value).

(** What [ajax] returns: the proxy of an entry, or [Promise.reject(error)]. *)
Inductive returned : Type :=
| Proxy (r : nat)
| RejectedPromise (error : js_value).

(** [{ ...requestOptions, abortController: abortController }]. *)
Definition with_controller (c : nat) (o : Options.t) : Options.t :=
  {| Options.abortController := Some c;
     Options.cancelToken := Options.cancelToken o;
     Options.requestKey := Options.requestKey o;
     Options.noCancel := Options.noCancel o;
     Options.rest := Options.rest o |}.

(** "Determine abort method". *)
Definition abort_method_of (req : ajax_request) : abort_method :=
  match req with
  | ReqFalsy _ => NotCallable
  | ReqObject own_abort xhr_abort _ =>
      if is_function own_abort then own_abort
      else if is_function xhr_abort then xhr_abort
      else NotCallable
  end.

Definition call_of (req : ajax_request) : request_promise :=
  match req with
  | ReqFalsy v => RPAwaited (Plain v)
  | ReqObject _ _ p => p
  end.

Definition not_a_function_error : js_value :=
  VString "ajaxFunction parameter must be a function".

(** [ajax(ajaxFunction, url, options)]; [options] is [None] for [null]
    (an omitted argument is the empty options). *)
Definition ajax (env : ambient) (ajaxFunction : ajax_function) (url : string)
  (options : option Options.t) : M returned :=
  match ajaxFunction with
  | AjaxNotFunction => throw not_a_function_error
  | AjaxFunction tag result =>
      let requestOptions :=
        match options with Some o => o | None => Options.empty end in
      let requestId :=
        _generateRequestId env url (Options.requestKey requestOptions)
                           (Options.noCancel requestOptions) in
      try_catch
        (_clearAbortController ;;
         abortController <-
           match options with
           | None => throw TypeError
           | Some o =>
               match Options.abortController o with
               | Some c => ret c
               | None => getAbortController
               end
           end ;;
         req <- match result with
                | inl req => ret req
                | inr error => throw error
                end ;;
         let abortMethod := abort_method_of req in
         when (is_function abortMethod)
              (addAbortListener abortMethod (Some abortController)) ;;
         r <- _request requestId (call_of req)
                       (with_controller abortController requestOptions) ;;
         ret (Proxy r))
        (fun error => ret (RejectedPromise error))
  end.

(** The axios library in use ([axiosInstance || axios]): the [cancel]
    member of what [CancelToken.source()] returns, and what [get] does. *)
Record axios_library : Type := {
  source_cancel : cancel_member;
  get_result : awaited + js_value
}.

(** [{ cancelToken: cancelToken, ...requestOptions }]: a [cancelToken] of
    the caller's options takes the place of the source. [None] stands for
    options without that key. *)
Definition with_source (source : cancel_token) (o : Options.t) : Options.t :=
  {| Options.abortController := Options.abortController o;
     Options.cancelToken :=
       match Options.cancelToken o with
       | Some t => Some t
       | None => Some source
       end;
     Options.requestKey := Options.requestKey o;
     Options.noCancel := Options.noCancel o;
     Options.rest := Options.rest o |}.

(** [axios(url, options, axiosInstance)]. *)
Definition axios (env : ambient) (url : string) (options : option Options.t)
  (axiosLib : axios_library) : M nat :=
  let requestOptions :=
    match options with Some o => o | None => Options.empty end in
  let cancelToken := TokenObject (source_cancel axiosLib) in
  let requestId :=
    _generateRequestId env url (Options.requestKey requestOptions)
                       (Options.noCancel requestOptions) in
  p <- call_supplier (get_result axiosLib) ;;
  _request requestId (RPAwaited p) (with_source cancelToken requestOptions).

(** ** Further notions: what cancellation calls, what completion reaches *)

(** Between [st] and [st'], while [ef] was added to the trace, the
    controller [c] is unchanged, or its flag was set by a call of
    [abort]. *)
Definition aborted_or_same (ef : list effect) (st st' : state) (c : nat)
  : Prop :=
  read_controller c st' = read_controller c st \/
  exists k, read_controller c st = Some k /\
            read_controller c st' = Some (set_aborted k) /\
            In (AbortCalled c) ef.

(** The two cancellation mechanisms of the entry [i] were invoked between
    [st] and [st'], where [ef] was added to the trace: [abort] was called
    on the entry's controller if that was not aborted in [st], a platform
    controller is aborted in [st'], and the entry's cancel function, or
    the [cancel] member of its token, was called. *)
Definition invokes_mechanisms (i : RequestInfo.t) (st st' : state)
  (ef : list effect) : Prop :=
  let c := RequestInfo.abortController i in
  (forall k, read_controller c st = Some k -> aborted k = false ->
             In (AbortCalled c) ef) /\
  (forall k, read_controller c st = Some k -> impl k = NativeAbort ->
             signal_aborted c st' = true) /\
  (forall tag b,
      RequestInfo.cancelToken i = Some (TokenFunction tag b) \/
      RequestInfo.cancelToken i = Some (TokenObject (MemberFn tag b)) ->
      In (CancelTokenCalled tag) ef).


(** * Properties *)

(** ** Facts on the [Map] operations and the stores *)

Module JSMapFacts.
Import JSMap.

Lemma get_delete_same k m : get k (delete k m) = None.
Proof.
  induction m as [|[k' v] m IH]; simpl; [reflexivity|].
  destruct (String.eqb k k') eqn:E; simpl; [exact IH|].
  rewrite E. exact IH.
Qed.

Lemma get_delete_other k k' m : k <> k' -> get k' (delete k m) = get k' m.
Proof.
  intros Hne. induction m as [|[k0 v] m IH]; simpl; [reflexivity|].
  destruct (String.eqb k k0) eqn:E; simpl.
  - apply String.eqb_eq in E. subst k0.
    destruct (String.eqb k' k) eqn:E'; [|exact IH].
    apply String.eqb_eq in E'. congruence.
  - rewrite IH. reflexivity.
Qed.

Lemma get_set_same k v m : get k (set k v m) = Some v.
Proof.
  induction m as [|[k' v'] m IH]; simpl.
  - rewrite String.eqb_refl. reflexivity.
  - destruct (String.eqb k k') eqn:E; simpl; rewrite E; [reflexivity|exact IH].
Qed.

Lemma get_set_other k k' v m : k <> k' -> get k' (set k v m) = get k' m.
Proof.
  intros Hne. induction m as [|[k0 v0] m IH]; simpl.
  - destruct (String.eqb k' k) eqn:E; [|reflexivity].
    apply String.eqb_eq in E. congruence.
  - destruct (String.eqb k k0) eqn:E; simpl.
    + apply String.eqb_eq in E. subst k0.
      destruct (String.eqb k' k) eqn:E'; [|reflexivity].
      apply String.eqb_eq in E'. congruence.
    + rewrite IH. reflexivity.
Qed.

Lemma get_In k v m : get k m = Some v -> In (k, v) m.
Proof.
  induction m as [|[k' v'] m IH]; simpl; [discriminate|].
  destruct (String.eqb k k') eqn:E.
  - apply String.eqb_eq in E. intros [= ->]. left. congruence.
  - intros H. right. exact (IH H).
Qed.

Lemma get_value k v m : get k m = Some v -> In v (map snd m).
Proof. intros H. apply get_In in H. exact (in_map snd _ _ H). Qed.

Lemma get_key k v m : get k m = Some v -> In k (keys m).
Proof. intros H. apply get_In in H. exact (in_map fst _ _ H). Qed.

Lemma key_get k m : In k (keys m) -> exists v, get k m = Some v.
Proof.
  induction m as [|[k' v'] m IH]; simpl; [contradiction|].
  intros [->|H].
  - rewrite String.eqb_refl. eauto.
  - destruct (String.eqb k k'); eauto.
Qed.

Lemma delete_value k v m : In v (map snd (delete k m)) -> In v (map snd m).
Proof.
  unfold delete. rewrite !in_map_iff.
  intros [kv [E H]]. apply filter_In in H. exists kv. tauto.
Qed.

Lemma delete_key k k' m : In k' (keys (delete k m)) -> In k' (keys m) /\ k <> k'.
Proof.
  unfold keys, delete. rewrite !in_map_iff.
  intros [kv [E H]]. apply filter_In in H. destruct H as [H Hk]. split.
  - exists kv. tauto.
  - intros ->. subst k'. rewrite String.eqb_refl in Hk. discriminate.
Qed.

Lemma set_value k v v' m :
  In v' (map snd (set k v m)) -> v' = v \/ In v' (map snd m).
Proof.
  induction m as [|[k0 v0] m IH]; simpl.
  - intros [<-|[]]. now left.
  - destruct (String.eqb k k0); simpl.
    + intros [<-|H]; [now left|right; now right].
    + intros [<-|H]; [right; now left|].
      destruct (IH H); [now left|right; now right].
Qed.

Lemma set_keys k v m :
  keys (set k v m) = if has k m then keys m else (keys m ++ [k])%list.
Proof.
  unfold has. induction m as [|[k0 v0] m IH]; simpl; [reflexivity|].
  destruct (String.eqb k k0) eqn:E; simpl; [reflexivity|].
  rewrite IH. destruct (get k m); reflexivity.
Qed.

Lemma NoDup_keys_delete k m : NoDup (keys m) -> NoDup (keys (delete k m)).
Proof.
  unfold keys, delete. induction m as [|[k0 v0] m IH]; simpl; [tauto|].
  intros H. inversion H as [|? ? Hnin Hnd]; subst.
  destruct (String.eqb k k0); simpl; [now apply IH|].
  constructor; [|now apply IH].
  intros Hin. apply Hnin. apply in_map_iff in Hin.
  destruct Hin as [kv [E Hf]]. apply filter_In in Hf.
  apply in_map_iff. exists kv. tauto.
Qed.

Lemma NoDup_keys_set k v m : NoDup (keys m) -> NoDup (keys (set k v m)).
Proof.
  intros H. rewrite set_keys. unfold has.
  destruct (get k m) eqn:E; [exact H|].
  apply NoDup_app; [exact H|constructor; [intros []|constructor]|].
  intros x Hx [<-|[]]. apply key_get in Hx. destruct Hx as [v' Hv].
  congruence.
Qed.

Lemma NoDup_values_delete k m :
  NoDup (map snd m) -> NoDup (map snd (delete k m)).
Proof.
  unfold delete. induction m as [|[k0 v0] m IH]; simpl; [tauto|].
  intros H. inversion H as [|? ? Hnin Hnd]; subst.
  destruct (String.eqb k k0); simpl; [now apply IH|].
  constructor; [|now apply IH].
  intros Hin. apply Hnin. exact (delete_value k _ _ Hin).
Qed.

(** With distinct values, deleting the key of a value removes the value. *)
Lemma delete_removes_value k v m :
  NoDup (map snd m) -> get k m = Some v -> ~ In v (map snd (delete k m)).
Proof.
  unfold delete. induction m as [|[k0 v0] m IH]; simpl; [discriminate|].
  intros H. inversion H as [|? ? Hnin Hnd]; subst.
  destruct (String.eqb k k0) eqn:E; simpl.
  - intros [= ->] Hin. apply Hnin. exact (delete_value k _ _ Hin).
  - intros Hg [<-|Hin].
    + apply Hnin. exact (get_value _ _ _ Hg).
    + exact (IH Hnd Hg Hin).
Qed.

Lemma NoDup_values_set k v m :
  NoDup (map snd m) -> ~ In v (map snd m) -> NoDup (map snd (set k v m)).
Proof.
  induction m as [|[k0 v0] m IH]; simpl; intros H Hnin.
  - constructor; [intros []|constructor].
  - inversion H as [|? ? Hn0 Hnd]; subst.
    destruct (String.eqb k k0); simpl.
    + constructor; [tauto|exact Hnd].
    + constructor.
      * intros Hin. apply set_value in Hin. destruct Hin; [subst|]; tauto.
      * apply IH; tauto.
Qed.

Lemma delete_delete k m l :
  filter (fun kv => negb (existsb (String.eqb (fst kv)) l)) (delete k m)
  = filter (fun kv => negb (existsb (String.eqb (fst kv)) (k :: l))) m.
Proof.
  unfold delete. induction m as [|[k0 v0] m IH]; simpl; [reflexivity|].
  rewrite (String.eqb_sym k0 k).
  destruct (String.eqb k k0); simpl; [exact IH|].
  destruct (existsb (String.eqb k0) l); simpl; [exact IH|].
  f_equal. exact IH.
Qed.

Lemma delete_all_keys m l :
  incl (keys m) l ->
  filter (fun kv => negb (existsb (String.eqb (fst kv)) l)) m = [].
Proof.
  unfold keys. induction m as [|[k0 v0] m IH]; simpl; [reflexivity|].
  intros H.
  assert (Hk : existsb (String.eqb k0) l = true).
  { apply existsb_exists. exists k0. split; [|apply String.eqb_refl].
    apply H. now left. }
  rewrite Hk. simpl. apply IH. intros x Hx. apply H. now right.
Qed.

End JSMapFacts.

Lemma update_length {A} r (f : A -> A) l : length (update r f l) = length l.
Proof.
  revert r. induction l as [|x l IH]; intros [|r]; simpl; auto.
Qed.

Lemma nth_error_update_same {A} r (f : A -> A) l :
  nth_error (update r f l) r = option_map f (nth_error l r).
Proof.
  revert r. induction l as [|x l IH]; intros [|r]; simpl; auto.
Qed.

Lemma nth_error_update_other {A} r r' (f : A -> A) l :
  r <> r' -> nth_error (update r f l) r' = nth_error l r'.
Proof.
  revert r r'. induction l as [|x l IH]; intros [|r] [|r'] H; simpl; auto.
  congruence.
Qed.

Lemma update_update {A} r (f g : A -> A) l :
  update r g (update r f l) = update r (fun x => g (f x)) l.
Proof.
  revert r. induction l as [|x l IH]; intros [|r]; simpl; auto.
  now rewrite IH.
Qed.

(** ** Calls that leave the manager's table and entries alone *)

Lemma settle_calls_app r ef ef' :
  settle_calls r (ef ++ ef') = settle_calls r ef + settle_calls r ef'.
Proof. unfold settle_calls. now rewrite filter_app, length_app. Qed.

Lemma quiet_nil : quiet [].
Proof. intros r. reflexivity. Qed.

Lemma quiet_app ef ef' : quiet ef -> quiet ef' -> quiet (ef ++ ef').
Proof. intros H H' r. rewrite settle_calls_app, H, H'. reflexivity. Qed.

Lemma quiet_one e : not_settle e = true -> quiet [e].
Proof. intros H r. destruct e; try reflexivity; discriminate. Qed.

Lemma outside_refl st : outside st st.
Proof.
  repeat split. exists []. split; [now rewrite app_nil_r|apply quiet_nil].
Qed.

Lemma outside_trans st1 st2 st3 :
  outside st1 st2 -> outside st2 st3 -> outside st1 st3.
Proof.
  intros (A1 & I1 & V1 & ef1 & E1 & Q1) (A2 & I2 & V2 & ef2 & E2 & Q2).
  repeat split; try congruence.
  exists (ef1 ++ ef2)%list. split; [|now apply quiet_app].
  now rewrite E2, E1, app_assoc.
Qed.

Section MonadRules.
Context {A B : Type}.

Lemma external_ret (a : A) : external (ret a).
Proof. intros st. apply outside_refl. Qed.

Lemma external_throw e : external (@throw A e).
Proof. intros st. apply outside_refl. Qed.

Lemma external_gets (f : state -> A) : external (gets f).
Proof. intros st. apply outside_refl. Qed.

Lemma external_bind (m : M A) (f : A -> M B) :
  external m -> (forall a, external (f a)) -> external (bind m f).
Proof.
  intros Hm Hf st. unfold bind. specialize (Hm st).
  destruct (m st) as [[a|e] st']; simpl in *; [|exact Hm].
  exact (outside_trans _ _ _ Hm (Hf a st')).
Qed.

Lemma external_try_catch (m : M A) (h : js_value -> M A) :
  external m -> (forall e, external (h e)) -> external (try_catch m h).
Proof.
  intros Hm Hh st. unfold try_catch. specialize (Hm st).
  destruct (m st) as [[a|e] st']; simpl in *; [exact Hm|].
  exact (outside_trans _ _ _ Hm (Hh e st')).
Qed.

Lemma total_ret (a : A) : total (ret a).
Proof. intros st. now exists a. Qed.

Lemma total_gets (f : state -> A) : total (gets f).
Proof. intros st. now exists (f st). Qed.

Lemma total_bind (m : M A) (f : A -> M B) :
  total m -> (forall a, total (f a)) -> total (bind m f).
Proof.
  intros Hm Hf st. unfold bind. destruct (Hm st) as [a Ha].
  destruct (m st) as [[a'|e] st']; simpl in Ha; [|discriminate].
  apply Hf.
Qed.

Lemma total_try_catch (m : M A) (h : js_value -> M A) :
  (forall e, total (h e)) -> total (try_catch m h).
Proof.
  intros Hh st. unfold try_catch.
  destruct (m st) as [[a|e] st']; [now exists a|apply Hh].
Qed.

End MonadRules.

Lemma total_modify f : total (modify f).
Proof. intros st. now exists tt. Qed.

Lemma total_swallow m : total (swallow m).
Proof. apply total_try_catch. intros e. apply total_ret. Qed.

Lemma total_when b m : total m -> total (when b m).
Proof. destruct b; [auto|intros _; apply total_ret]. Qed.

Lemma total_forEach {A} (f : A -> M unit) l :
  (forall x, total (f x)) -> total (forEach f l).
Proof.
  intros H. induction l; simpl; [apply total_ret|].
  apply total_bind; auto.
Qed.

Lemma external_swallow m : external m -> external (swallow m).
Proof.
  intros H. apply external_try_catch; [exact H|]. intros e. apply external_ret.
Qed.

Lemma external_when b m : external m -> external (when b m).
Proof. destruct b; [auto|intros _; apply external_ret]. Qed.

Lemma external_forEach {A} (f : A -> M unit) l :
  (forall x, external (f x)) -> external (forEach f l).
Proof.
  intros H. induction l; simpl; [apply external_ret|].
  apply external_bind; auto.
Qed.

Lemma external_emit e : not_settle e = true -> external (emit e).
Proof.
  intros H st. repeat split. exists [e]. split; [reflexivity|now apply quiet_one].
Qed.

Lemma external_call b : external (call b).
Proof. destruct b; [apply external_ret|apply external_throw]. Qed.

Lemma external_update_controller c f : external (update_controller c f).
Proof.
  intros st. repeat split. exists []. simpl.
  split; [now rewrite app_nil_r|apply quiet_nil].
Qed.

Lemma external_new_AbortController i : external (new_AbortController i).
Proof.
  intros st. repeat split. exists []. simpl.
  split; [now rewrite app_nil_r|apply quiet_nil].
Qed.

Lemma external_with_options o : external (modify (with_options o)).
Proof.
  intros st. repeat split. exists []. simpl.
  split; [now rewrite app_nil_r|apply quiet_nil].
Qed.

Lemma external_with_abortController c : external (modify (with_abortController c)).
Proof.
  intros st. repeat split. exists []. simpl.
  split; [now rewrite app_nil_r|apply quiet_nil].
Qed.

Create HintDb rm discriminated.

#[export] Hint Resolve
  external_ret external_throw external_gets external_bind external_try_catch
  external_swallow external_when external_forEach external_emit external_call
  external_update_controller external_new_AbortController
  external_with_options external_with_abortController
  total_ret total_gets total_bind total_try_catch total_modify total_swallow
  total_when total_forEach : rm.

Lemma external_linked_handler m : external (linked_handler m).
Proof.
  unfold linked_handler. apply external_when, external_swallow.
  destruct m; simpl; auto with rm.
Qed.

Lemma external_run_listener l : external (run_listener l).
Proof.
  destruct l; simpl; [apply external_linked_handler|auto with rm].
Qed.

Lemma external_abort c : external (abort c).
Proof.
  unfold abort, dispatch_abort. apply external_bind; [auto with rm|].
  intros [k|]; [|auto with rm].
  apply external_bind; [auto with rm|]. intros _.
  destruct (impl k); [destruct (aborted k)|]; auto with rm.
  apply external_bind; [auto with rm|]. intros _.
  apply external_forEach. intros l. apply external_swallow, external_run_listener.
Qed.

Lemma external_invoke_cancelToken t : external (invoke_cancelToken t).
Proof. destruct t as [tag b|[|tag b|]]; simpl; auto with rm. Qed.

Lemma external_try_abort r : external (try_abort r).
Proof.
  unfold try_abort. apply external_bind; [auto with rm|].
  intros [c|]; [|auto with rm].
  apply external_bind; [auto with rm|]. intros b.
  apply external_when, external_swallow, external_abort.
Qed.

Lemma external_try_cancelToken r : external (try_cancelToken r).
Proof.
  unfold try_cancelToken. apply external_bind; [auto with rm|].
  intros [t|]; [|auto with rm].
  apply external_swallow, external_invoke_cancelToken.
Qed.

Lemma total_try_abort r : total (try_abort r).
Proof.
  unfold try_abort. apply total_bind; [auto with rm|].
  intros [c|]; auto with rm.
Qed.

Lemma total_try_cancelToken r : total (try_cancelToken r).
Proof.
  unfold try_cancelToken. apply total_bind; [auto with rm|].
  intros [t|]; auto with rm.
Qed.

(** ** What [cancel] does *)

Lemma cancel_absent requestId st :
  JSMap.get requestId (activeRequests st) = None ->
  cancel requestId st = (Normal false, st).
Proof. intros H. unfold cancel, bind, gets. rewrite H. reflexivity. Qed.

Lemma total_external_run (m : M unit) st :
  total m -> external m -> exists st', m st = (Normal tt, st') /\ outside st st'.
Proof.
  intros T E. specialize (T st). specialize (E st).
  destruct (m st) as [res st']. destruct T as [[] T]. simpl in *.
  subst res. now exists st'.
Qed.

Lemma cancel_present requestId r st :
  JSMap.get requestId (activeRequests st) = Some r ->
  exists st' ef,
    cancel requestId st = (Normal true, st') /\
    activeRequests st' = JSMap.delete requestId (activeRequests st) /\
    infos st' = update r (cancel_mark (verbose st) requestId) (infos st) /\
    verbose st' = verbose st /\
    effects st' =
      (effects st ++ ef ++
       (if verbose st then [RejectCalled r (cancel_message requestId)] else []))%list /\
    quiet ef.
Proof.
  intros H.
  destruct (total_external_run _
              (with_infos (update r mark_cancelled (infos st)) st)
              (total_try_abort r) (external_try_abort r))
    as (st1 & E1 & O1).
  destruct (total_external_run _ st1
              (total_try_cancelToken r) (external_try_cancelToken r))
    as (st2 & E2 & O2).
  destruct (outside_trans _ _ _ O1 O2) as (A & I & V & ef & F & Q).
  simpl in A, I, V, F.
  unfold cancel. unfold bind at 1. unfold gets at 1. rewrite H.
  unfold bind at 1. unfold modify at 1.
  unfold bind at 1. rewrite E1.
  unfold bind at 1. rewrite E2.
  unfold bind, gets, when, rejectWrapper, activeRequests_delete, emit, modify, ret.
  rewrite V.
  destruct (verbose st); simpl; eexists; exists ef; (split; [reflexivity|]);
    simpl; rewrite ?A, ?I, ?V, ?F, ?update_update, <- ?app_assoc;
    unfold cancel_mark; rewrite ?app_nil_r; repeat split; auto.
Qed.

(** ** Every operation is a sequence of moves *)

Lemma moves_trans st1 st2 st3 : moves st1 st2 -> moves st2 st3 -> moves st1 st3.
Proof.
  intros H12 H23. induction H23; [exact H12|].
  eapply moves_step; [|eassumption]. auto.
Qed.

Lemma move_moves st st' : move st st' -> moves st st'.
Proof. intros H. eapply moves_step; [apply moves_refl|exact H]. Qed.

Lemma outside_moves st st' : outside st st' -> moves st st'.
Proof.
  intros (A & I & _ & E). apply move_moves. now apply M_outside.
Qed.

Lemma moving_external {A} (m : M A) : external m -> moving m.
Proof. intros H st. apply outside_moves, H. Qed.

Lemma moving_bind {A B} (m : M A) (f : A -> M B) :
  moving m -> (forall a, moving (f a)) -> moving (bind m f).
Proof.
  intros Hm Hf st. unfold bind. specialize (Hm st).
  destruct (m st) as [[a|e] st']; simpl in *; [|exact Hm].
  exact (moves_trans _ _ _ Hm (Hf a st')).
Qed.

Lemma moving_try_catch {A} (m : M A) (h : js_value -> M A) :
  moving m -> (forall e, moving (h e)) -> moving (try_catch m h).
Proof.
  intros Hm Hh st. unfold try_catch. specialize (Hm st).
  destruct (m st) as [[a|e] st']; simpl in *; [exact Hm|].
  exact (moves_trans _ _ _ Hm (Hh e st')).
Qed.

Lemma moving_ret {A} (a : A) : moving (ret a).
Proof. intros st. apply moves_refl. Qed.

Lemma moving_when b m : moving m -> moving (when b m).
Proof. destruct b; [auto|intros _; apply moving_ret]. Qed.

Lemma moving_cancel requestId : moving (cancel requestId).
Proof.
  intros st. destruct (JSMap.get requestId (activeRequests st)) as [r|] eqn:G.
  - destruct (cancel_present _ _ _ G) as (st' & ef & E & A & I & V & F & Q).
    rewrite E. simpl. apply move_moves.
    exact (M_cancel _ _ _ _ _ _ G A I F Q).
  - rewrite (cancel_absent _ _ G). apply moves_refl.
Qed.

Lemma is_current_get k st :
  is_current k st = true ->
  JSMap.get (k_requestId k) (activeRequests st) = Some (k_requestInfo k).
Proof.
  unfold is_current.
  destruct (JSMap.get (k_requestId k) (activeRequests st)); [|discriminate].
  intros H. apply Nat.eqb_eq in H. now subst.
Qed.

Lemma moving_on_fulfilled k v : moving (on_fulfilled k v).
Proof.
  intros st. unfold on_fulfilled, bind, gets.
  destruct (is_current k st) eqn:C; [|apply moves_refl].
  destruct (info_isCancelled (k_requestInfo k) st); [apply moves_refl|].
  simpl. apply move_moves.
  eapply M_settle; [exact (is_current_get _ _ C)|apply S_resolve|..]; reflexivity.
Qed.

Lemma moving_on_timeout k v : moving (on_timeout k v).
Proof.
  intros st. unfold on_timeout, bind, gets.
  destruct (is_current k st) eqn:C; [|apply moves_refl].
  destruct (info_isCancelled (k_requestInfo k) st); [apply moves_refl|].
  simpl. apply move_moves.
  eapply M_settle; [exact (is_current_get _ _ C)|apply S_resolve|..]; reflexivity.
Qed.

Lemma moving_onError k e : moving (onError k e).
Proof.
  intros st. unfold onError, bind, gets.
  destruct (is_current k st) eqn:C; [|apply moves_refl].
  simpl. unfold info_isCancelled, info_verbose, read_info. simpl.
  destruct (nth_error (infos st) (k_requestInfo k)) as [i|]; simpl.
  - destruct (RequestInfo.isCancelled i); simpl.
    + destruct (RequestInfo.verbose i); simpl; apply move_moves.
      * eapply M_settle; [exact (is_current_get _ _ C)|apply S_reject|..];
          reflexivity.
      * now apply M_delete with (requestId := k_requestId k).
    + apply move_moves.
      eapply M_settle; [exact (is_current_get _ _ C)|apply S_reject|..];
        reflexivity.
  - apply move_moves.
    eapply M_settle; [exact (is_current_get _ _ C)|apply S_reject|..];
      reflexivity.
Qed.

Lemma moving_register requestId p o c : moving (register requestId p o c).
Proof.
  intros st. unfold register, bind, gets. simpl. apply move_moves.
  eapply M_register; [| | |reflexivity|]; reflexivity.
Qed.

Lemma external_call_then k t : external (call_then k t).
Proof. destruct t; simpl; auto with rm. Qed.

Lemma external_call_catch k c : external (call_catch k c).
Proof. destruct c; simpl; auto with rm. Qed.

Lemma moving_attach k p : moving (attach k p).
Proof.
  destruct p as [t|v]; simpl.
  - apply moving_try_catch; [|intros e; apply moving_onError].
    apply moving_external, external_bind; [apply external_call_then|].
    intros c. apply external_call_catch.
  - apply moving_external. auto with rm.
Qed.

Lemma external_getAbortController : external getAbortController.
Proof.
  unfold getAbortController. apply external_bind; [auto with rm|].
  intros [c|]; [apply external_bind; [auto with rm|]; intros []|]; auto 10 with rm.
Qed.

Lemma external_choose_controller o : external (choose_controller o).
Proof.
  unfold choose_controller, _setRequestOptions, _clearAbortController,
    _flushRequestOptions.
  repeat (apply external_bind; [auto with rm|]; intros _).
  destruct (Options.abortController o);
    [auto with rm|apply external_getAbortController].
Qed.

Lemma external_prepare_call p o c : external (prepare_call p o c).
Proof.
  destruct p as [tag [q|e]|url [q|e]|q]; simpl; auto with rm.
Qed.

Lemma moving__request requestId p o : moving (_request requestId p o).
Proof.
  unfold _request.
  apply moving_bind; [apply moving_external, external_choose_controller|].
  intros c.
  apply moving_bind; [apply moving_external, external_prepare_call|].
  intros q.
  apply moving_bind.
  { apply moving_when, moving_bind; [apply moving_cancel|].
    intros _. apply moving_ret. }
  intros _.
  apply moving_bind; [apply moving_register|]. intros r.
  apply moving_bind; [apply moving_attach|]. intros _. apply moving_ret.
Qed.

Lemma moving_cancel_each ids n : moving (cancel_each ids n).
Proof.
  revert n. induction ids as [|requestId ids IH]; intros n; simpl.
  - apply moving_ret.
  - apply moving_bind; [apply moving_cancel|]. intros b. apply IH.
Qed.

Lemma moving_cancelAll : moving cancelAll.
Proof.
  unfold cancelAll. apply moving_bind; [apply moving_external; auto with rm|].
  intros ids. apply moving_cancel_each.
Qed.

Lemma moving_setOptions o : moving (setOptions o).
Proof.
  intros st. unfold setOptions, bind, modify. apply move_moves.
  apply M_outside; destruct (mo_verbose o); simpl; auto;
    exists []; (split; [now rewrite app_nil_r|apply quiet_nil]).
Qed.

Lemma moving_clear : moving clear.
Proof. intros st. apply move_moves. now apply M_clear. Qed.

Lemma step_moves ev st : moves st (step ev st).
Proof.
  destruct ev; simpl; unfold exec.
  - apply moving__request.
  - apply moving__request.
  - apply moving_cancel.
  - apply moving_cancelAll.
  - apply moving_clear.
  - apply moving_setOptions.
  - apply moving_external, external_getAbortController.
  - apply moving_external, external_getAbortController.
  - apply moving_external. destruct signal; simpl; auto with rm.
  - apply moving_external; auto with rm.
  - apply moving_external, external_swallow, external_abort.
  - apply moving_external; auto with rm.
  - apply moving_on_fulfilled.
  - apply moving_onError.
  - apply moving_on_timeout.
Qed.

Lemma run_moves evs st : moves st (run evs st).
Proof.
  revert st. induction evs as [|ev evs IH]; intros st; simpl.
  - apply moves_refl.
  - exact (moves_trans _ _ _ (step_moves ev st) (IH _)).
Qed.

(** ** The invariant is kept by every move *)

Lemma settle_calls_settlement r r' p e :
  settlement_of r p e -> settle_calls r' [e] = if Nat.eqb r' r then 1 else 0.
Proof.
  intros []; unfold settle_calls; simpl; destruct (Nat.eqb r' r); reflexivity.
Qed.

Lemma settle_calls_cancel_tail r r' (v : bool) requestId :
  settle_calls r' (if v then [RejectCalled r (cancel_message requestId)] else [])
  = if v && Nat.eqb r' r then 1 else 0.
Proof.
  destruct v; [|reflexivity].
  unfold settle_calls; simpl; destruct (Nat.eqb r' r); reflexivity.
Qed.

Lemma tracked_in_range st r : WF st -> tracked r st -> r < length (infos st).
Proof. intros W T. now destruct (wf_tracked _ W r T). Qed.

Lemma WF_outside st st' :
  WF st ->
  activeRequests st' = activeRequests st ->
  infos st' = infos st ->
  (forall r, settle_calls r (effects st') = settle_calls r (effects st)) ->
  WF st'.
Proof.
  intros [Wk Wv Wt Wf Wo] A I E.
  constructor; unfold tracked, wrapper_state, info_isCancelled, read_info in *;
    intros; rewrite ?A, ?I, ?E in *; auto.
Qed.

(** Removing the entry of [r] from the table, changing only [r] among the
    entries without resurrecting it, and calling its resolvers at most
    once keeps the invariant. *)
Lemma WF_remove st st' requestId r f n :
  WF st ->
  JSMap.get requestId (activeRequests st) = Some r ->
  activeRequests st' = JSMap.delete requestId (activeRequests st) ->
  infos st' = update r f (infos st) ->
  (forall r', settle_calls r' (effects st') =
              settle_calls r' (effects st) + if Nat.eqb r' r then n else 0) ->
  n <= 1 ->
  WF st'.
Proof.
  intros W G A I E Hn. pose proof W as [Wk Wv Wt Wf Wo].
  assert (Tr : tracked r st) by exact (JSMapFacts.get_value _ _ _ G).
  destruct (Wt r Tr) as (Rr & Cr & _).
  constructor.
  - rewrite A. now apply JSMapFacts.NoDup_keys_delete.
  - rewrite A. now apply JSMapFacts.NoDup_values_delete.
  - intros r' T. unfold tracked in T. rewrite A in T.
    assert (Hne : r' <> r).
    { intros ->. exact (JSMapFacts.delete_removes_value _ _ _ Wv G T). }
    apply JSMapFacts.delete_value in T. destruct (Wt r' T) as (R' & C' & P' & N').
    unfold wrapper_state, info_isCancelled, read_info in *.
    rewrite I, update_length, E, C'.
    rewrite nth_error_update_other by congruence.
    apply Nat.eqb_neq in Hne. rewrite Hne. auto.
  - intros r' L. rewrite I, update_length in L. rewrite E, (Wf r' L).
    destruct (Nat.eqb_spec r' r); [lia|reflexivity].
  - intros r'. rewrite E. destruct (Nat.eqb_spec r' r).
    + subst. rewrite Cr. exact Hn.
    + specialize (Wo r'). lia.
Qed.

Lemma WF_move st st' : WF st -> move st st' -> WF st'.
Proof.
  intros W M.
  destruct M as [A I [ef [E Q]]|requestId r v ef G A I E Q|requestId r p e G S A I E
                |requestId A I E|requestId i P C A I E|A I E].
  - apply (WF_outside _ _ W A I). intros r.
    now rewrite E, settle_calls_app, Q, Nat.add_0_r.
  - apply (WF_remove _ _ _ _ _ (if v then 1 else 0) W G A I).
    + intros r'. rewrite E, !settle_calls_app, Q, settle_calls_cancel_tail.
      simpl. destruct v, (Nat.eqb r' r); reflexivity.
    + destruct v; lia.
  - apply (WF_remove _ _ _ _ _ 1 W G A I); [|lia].
    intros r'. now rewrite E, settle_calls_app, (settle_calls_settlement _ r' _ _ S).
  - pose proof W as [Wk Wv Wt Wf Wo]. constructor.
    + rewrite A. now apply JSMapFacts.NoDup_keys_delete.
    + rewrite A. now apply JSMapFacts.NoDup_values_delete.
    + intros r T. unfold tracked in T. rewrite A in T.
      apply JSMapFacts.delete_value in T. specialize (Wt r T).
      unfold wrapper_state, info_isCancelled, read_info in *.
      now rewrite I, E.
    + intros r. rewrite I, E. apply Wf.
    + intros r. rewrite E. apply Wo.
  - pose proof W as [Wk Wv Wt Wf Wo].
    assert (Hnew : ~ In (length (infos st)) (map snd (activeRequests st))).
    { intros T. apply (tracked_in_range _ _ W) in T. lia. }
    constructor.
    + rewrite A. now apply JSMapFacts.NoDup_keys_set.
    + rewrite A. now apply JSMapFacts.NoDup_values_set.
    + intros r0 T. unfold tracked in T. rewrite A in T.
      unfold wrapper_state, info_isCancelled, read_info.
      rewrite I, E, length_app. simpl.
      apply JSMapFacts.set_value in T. destruct T as [->|T].
      * rewrite nth_error_app2, Nat.sub_diag by lia. simpl.
        rewrite P, C, (Wf (length (infos st))) by lia.
        repeat split; auto; lia.
      * destruct (Wt r0 T) as (R & Cn & Pn & Nn).
        unfold wrapper_state, info_isCancelled, read_info in *.
        rewrite nth_error_app1 by exact R.
        repeat split; auto; lia.
    + intros r L. rewrite I, length_app in L. simpl in L.
      rewrite E. apply Wf. lia.
    + intros r. rewrite E. apply Wo.
  - pose proof W as [Wk Wv Wt Wf Wo]. constructor.
    + rewrite A. constructor.
    + rewrite A. constructor.
    + intros r T. unfold tracked in T. rewrite A in T. destruct T.
    + intros r. rewrite I, E. apply Wf.
    + intros r. rewrite E. apply Wo.
Qed.

Lemma WF_moves st st' : WF st -> moves st st' -> WF st'.
Proof.
  intros W M. induction M; [exact W|].
  eapply WF_move; [|eassumption]. auto.
Qed.

Lemma WF_new managerOptions : WF (new_RequestManager managerOptions).
Proof.
  constructor; simpl.
  - constructor.
  - constructor.
  - intros r [].
  - reflexivity.
  - intros r. unfold settle_calls. simpl. lia.
Qed.

Lemma WF_run managerOptions evs :
  WF (run evs (new_RequestManager managerOptions)).
Proof. exact (WF_moves _ _ (WF_new managerOptions) (run_moves evs _)). Qed.

(** ** An entry out of the table stays as it is *)

Lemma frozen_move r i n st st' : frozen r i n st -> move st st' -> frozen r i n st'.
Proof.
  intros (R & T & C) M. unfold frozen, tracked, read_info in *.
  assert (L : r < length (infos st)).
  { apply nth_error_Some. congruence. }
  destruct M as [A I [ef [E Q]]|requestId r0 v ef G A I E Q|requestId r0 p e G S A I E
                |requestId A I E|requestId i0 P C0 A I E|A I E];
    rewrite ?A, ?I, ?E.
  - rewrite settle_calls_app, Q, Nat.add_0_r. auto.
  - assert (Hne : r0 <> r).
    { intros ->. exact (T (JSMapFacts.get_value _ _ _ G)). }
    rewrite nth_error_update_other by exact Hne.
    rewrite !settle_calls_app, Q, settle_calls_cancel_tail.
    replace (Nat.eqb r r0) with false
      by (symmetry; apply Nat.eqb_neq; congruence).
    rewrite andb_false_r. simpl. rewrite Nat.add_0_r.
    repeat split; auto. intros H. exact (T (JSMapFacts.delete_value _ _ _ H)).
  - assert (Hne : r0 <> r).
    { intros ->. exact (T (JSMapFacts.get_value _ _ _ G)). }
    rewrite nth_error_update_other by exact Hne.
    rewrite settle_calls_app, (settle_calls_settlement _ r _ _ S).
    replace (Nat.eqb r r0) with false
      by (symmetry; apply Nat.eqb_neq; congruence).
    rewrite Nat.add_0_r.
    repeat split; auto. intros H. exact (T (JSMapFacts.delete_value _ _ _ H)).
  - repeat split; auto. intros H. exact (T (JSMapFacts.delete_value _ _ _ H)).
  - rewrite nth_error_app1 by exact L.
    repeat split; auto. intros H. apply JSMapFacts.set_value in H.
    destruct H as [->|H]; [lia|exact (T H)].
  - repeat split; auto.
Qed.

Lemma frozen_moves r i n st st' : frozen r i n st -> moves st st' -> frozen r i n st'.
Proof.
  intros F M. induction M; [exact F|].
  eapply frozen_move; [|eassumption]. auto.
Qed.

(** ** The identity resolver *)

Lemma split_from_nonempty sep skip piece s :
  1 <= length (JSString.split_from sep skip piece s).
Proof.
  revert skip piece. induction s as [|c s IH]; intros skip piece; simpl.
  - lia.
  - destruct skip; [|apply IH].
    destruct (JSString.startsWith sep (String c s)); simpl; [lia|apply IH].
Qed.

(** Where [includes] holds, [split] has a second element: the indexing of
    [clean_url] stays inside the array. *)
Lemma split_includes_length sep s :
  sep <> "" -> JSString.includes sep s = true ->
  2 <= length (JSString.split sep s).
Proof.
  intros Hsep. unfold JSString.split. generalize "" as piece.
  induction s as [|c s IH]; intros piece; simpl.
  - destruct sep; [congruence|discriminate].
  - destruct sep as [|a sep]; [congruence|].
    change (match String a sep with
            | EmptyString => true
            | String a0 p' => (Ascii.eqb a0 c && JSString.startsWith p' s)%bool
            end)
      with (JSString.startsWith (String a sep) (String c s)).
    destruct (JSString.startsWith (String a sep) (String c s)); simpl.
    + intros _. pose proof (split_from_nonempty (String a sep)
                              (String.length sep - 0) "" s). lia.
    + intros H. apply IH. exact H.
Qed.

(** The same explicit key, or no key and the same cleaned URL, give the
    same identity. *)
Lemma same_key_same_identity env1 env2 url1 url2 key1 key2 k :
  resolve_key key1 = Some k -> resolve_key key2 = Some k ->
  _generateRequestId env1 url1 key1 false = _generateRequestId env2 url2 key2 false.
Proof. unfold _generateRequestId. now intros -> ->. Qed.

Lemma same_url_same_identity env1 env2 url1 url2 key1 key2 :
  resolve_key key1 = None -> resolve_key key2 = None ->
  clean_url url1 = clean_url url2 ->
  _generateRequestId env1 url1 key1 false = _generateRequestId env2 url2 key2 false.
Proof. unfold _generateRequestId. now intros -> -> ->. Qed.

(** C5. Without suppression the identity does not depend on the clock or
    the random source; the three URLs that differ in scheme, query string
    and fragment resolve to one identity; with the explicit key "custom"
    the identity is the same for every URL. *)
Theorem identity_derivation :
  (forall env env' url key,
      _generateRequestId env url key false = _generateRequestId env' url key false) /\
  (forall env,
      _generateRequestId env "https://h/api/x?y=1#z" KeyAbsent false = "request_h/api/x" /\
      _generateRequestId env "https://h/api/x?y=2" KeyAbsent false = "request_h/api/x" /\
      _generateRequestId env "h/api/x" KeyAbsent false = "request_h/api/x") /\
  (forall env url,
      _generateRequestId env url (KeyLiteral (KString "custom")) false = "request_custom" /\
      _generateRequestId env url (KeyProducer (Some (Some (KString "custom")))) false
      = "request_custom").
Proof.
  split; [|split].
  - intros env env' url key. reflexivity.
  - intros env. repeat split; reflexivity.
  - intros env url. split; reflexivity.
Qed.

(** ** [cancel], [cancelAll], [clear] *)

Lemma total_cancel requestId : total (cancel requestId).
Proof.
  intros st. destruct (JSMap.get requestId (activeRequests st)) as [r|] eqn:G.
  - destruct (cancel_present _ _ _ G) as (st' & ef & E & _).
    exists true. now rewrite E.
  - exists false. now rewrite (cancel_absent _ _ G).
Qed.

Lemma total_cancel_each ids n : total (cancel_each ids n).
Proof.
  revert n. induction ids as [|requestId ids IH]; intros n; simpl.
  - apply total_ret.
  - apply total_bind; [apply total_cancel|]. intros b. apply IH.
Qed.

Lemma total_normal {A} (m : M A) st :
  total m -> exists a st', m st = (Normal a, st').
Proof.
  intros T. destruct (T st) as [a Ha]. destruct (m st) as [res st'].
  simpl in Ha. subst. eauto.
Qed.

(** C6. [cancel] on an absent identity returns false and leaves the state
    as it is; on a tracked identity it returns true and removes the entry,
    so that a second [cancel] of the same identity returns false. *)
Theorem cancel_twice st requestId :
  (JSMap.get requestId (activeRequests st) = None ->
   cancel requestId st = (Normal false, st)) /\
  (forall r,
      JSMap.get requestId (activeRequests st) = Some r ->
      exists st1,
        cancel requestId st = (Normal true, st1) /\
        activeRequests st1 = JSMap.delete requestId (activeRequests st) /\
        isActive requestId st1 = false /\
        cancel requestId st1 = (Normal false, st1)).
Proof.
  split; [apply cancel_absent|].
  intros r G. destruct (cancel_present _ _ _ G) as (st1 & ef & E & A & _).
  assert (G1 : JSMap.get requestId (activeRequests st1) = None).
  { rewrite A. apply JSMapFacts.get_delete_same. }
  exists st1. repeat split; auto.
  - unfold isActive, JSMap.has. now rewrite G1.
  - now apply cancel_absent.
Qed.

(** C9. [clear] empties the table and touches nothing else: no entry is
    marked or settled, no controller changes, nothing is called. *)
Theorem clear_only_forgets st :
  exists st',
    clear st = (Normal tt, st') /\
    getActiveCount st' = 0 /\
    (forall requestId, isActive requestId st' = false) /\
    infos st' = infos st /\
    controllers st' = controllers st /\
    effects st' = effects st /\
    verbose st' = verbose st /\
    abortController st' = abortController st.
Proof.
  exists (with_activeRequests [] st). repeat split.
Qed.

(** The mechanisms do throw when called bare. *)
Example abort_can_throw :
  let st := exec (new_AbortController (ThrowingAbort false (VString "boom")))
                 (new_RequestManager {| mo_verbose := None |}) in
  fst (abort 0 st) = Throw (VString "boom") /\
  fst (invoke_cancelToken (TokenFunction 1 (Throws (VString "boom"))) st)
  = Throw (VString "boom") /\
  fst (invoke_cancelToken (TokenObject MemberNotCallable) st) = Throw TypeError /\
  fst (call_abortMethod (AbortFn 2 (Throws (VString "boom"))) st)
  = Throw (VString "boom").
Proof. repeat split. Qed.

(** C8. Whatever the abort controller, the cancel token and the linked
    abort method do, [cancel] and [cancelAll] complete normally, and so
    does the listener installed by [addAbortListener]. *)
Theorem cancellation_never_throws st :
  (forall requestId, exists b st', cancel requestId st = (Normal b, st')) /\
  (exists n st', cancelAll st = (Normal n, st')) /\
  (forall abortMethod, exists st', linked_handler abortMethod st = (Normal tt, st')) /\
  (forall r, exists st', try_abort r st = (Normal tt, st')) /\
  (forall r, exists st', try_cancelToken r st = (Normal tt, st')).
Proof.
  split; [|split; [|split; [|split]]].
  - intros requestId. apply total_normal, total_cancel.
  - apply total_normal. unfold cancelAll.
    apply total_bind; [apply total_gets|]. intros ids. apply total_cancel_each.
  - intros m.
    destruct (total_normal (linked_handler m) st) as ([] & st' & E); [|eauto].
    unfold linked_handler. apply total_when, total_swallow.
  - intros r. destruct (total_normal (try_abort r) st (total_try_abort r))
      as ([] & st' & E). eauto.
  - intros r. destruct (total_normal (try_cancelToken r) st (total_try_cancelToken r))
      as ([] & st' & E). eauto.
Qed.

(** ** The phases of [#_request] *)

Lemma total_rejectWrapper r e : total (rejectWrapper r e).
Proof. unfold rejectWrapper, emit. auto with rm. Qed.

Lemma total_onError k e : total (onError k e).
Proof.
  unfold onError, activeRequests_delete.
  apply total_bind; [auto with rm|]. intros [|]; simpl; [|auto with rm].
  repeat (apply total_bind; [auto with rm|]; intros ?).
  repeat match goal with
         | |- context [if ?b then _ else _] => destruct b; simpl
         end; auto using total_rejectWrapper with rm.
Qed.

Lemma total_attach k p : total (attach k p).
Proof.
  destruct p as [t|v]; simpl.
  - apply total_try_catch. intros e. apply total_onError.
  - unfold emit. auto with rm.
Qed.

Lemma total_getAbortController : total getAbortController.
Proof.
  unfold getAbortController. apply total_bind; [auto with rm|].
  assert (F : total (c <- new_AbortController NativeAbort ;;
                     modify (with_abortController (Some c)) ;; ret c)).
  { intros st. now exists (length (controllers st)). }
  intros [c|]; [|exact F].
  apply total_bind; [auto with rm|]. intros [|]; [exact F|auto with rm].
Qed.

Lemma total_choose_controller o : total (choose_controller o).
Proof.
  unfold choose_controller, _setRequestOptions, _clearAbortController,
    _flushRequestOptions.
  repeat (apply total_bind; [auto with rm|]; intros _).
  destruct (Options.abortController o);
    [auto with rm|apply total_getAbortController].
Qed.

Lemma register_spec requestId p o c st :
  exists st',
    register requestId p o c st = (Normal (length (infos st)), st') /\
    activeRequests st' = JSMap.set requestId (length (infos st)) (activeRequests st) /\
    infos st' =
      (infos st ++
       [{| RequestInfo.promise := p;
           RequestInfo.abortController := c;
           RequestInfo.cancelToken := Options.cancelToken o;
           RequestInfo.wrapperPromise := Pending;
           RequestInfo.isCancelled := false;
           RequestInfo.verbose := verbose st |}])%list /\
    effects st' = effects st /\
    verbose st' = verbose st /\
    controllers st' = controllers st.
Proof. eexists. repeat split. Qed.

(** [#_request] is: choose the controller, make the call, cancel the
    holder of the identity unless suppressed, register, attach. A throw
    of the call supplier ends it before the cancellation. *)
Lemma _request_phases requestId requestPromise o st :
  exists c st1,
    choose_controller o st = (Normal c, st1) /\
    match prepare_call requestPromise o c st1 with
    | (Throw e, st2) => _request requestId requestPromise o st = (Throw e, st2)
    | (Normal p, st2) =>
        let st3 := if Options.noCancel o then st2
                   else exec (cancel requestId) st2 in
        let r := length (infos st3) in
        exists st4 st5,
          register requestId p o c st3 = (Normal r, st4) /\
          attach {| k_requestId := requestId; k_requestInfo := r |} p st4
          = (Normal tt, st5) /\
          _request requestId requestPromise o st = (Normal r, st5)
    end.
Proof.
  destruct (total_normal (choose_controller o) st (total_choose_controller o))
    as (c & st1 & E1).
  exists c, st1. split; [exact E1|].
  assert (R : _request requestId requestPromise o st
              = (p <- prepare_call requestPromise o c ;;
                 when (negb (Options.noCancel o)) (cancel requestId ;; ret tt) ;;
                 r <- register requestId p o c ;;
                 attach {| k_requestId := requestId; k_requestInfo := r |} p ;;
                 ret r) st1).
  { unfold _request. unfold bind at 1. rewrite E1. reflexivity. }
  rewrite R. clear R.
  destruct (prepare_call requestPromise o c st1) as [[p|e] st2] eqn:EP;
    unfold bind at 1; rewrite EP; [|reflexivity].
  cbv zeta.
  set (st3 := if Options.noCancel o then st2 else exec (cancel requestId) st2).
  destruct (register_spec requestId p o c st3) as (st4 & E4 & _).
  destruct (total_normal
              (attach {| k_requestId := requestId;
                         k_requestInfo := length (infos st3) |} p)
              st4 (total_attach _ _)) as ([] & st5 & E5).
  exists st4, st5. split; [exact E4|]. split; [exact E5|].
  assert (E3 : when (negb (Options.noCancel o)) (cancel requestId ;; ret tt) st2
               = (Normal tt, st3)).
  { subst st3. destruct (Options.noCancel o); simpl; [reflexivity|].
    unfold bind, exec.
    destruct (total_normal (cancel requestId) st2 (total_cancel requestId))
      as (b & st3 & E3).
    rewrite E3. reflexivity. }
  unfold bind at 1. rewrite E3.
  unfold bind at 1. rewrite E4.
  unfold bind at 1. rewrite E5. reflexivity.
Qed.

(** ** The set-once fields of an entry *)

Lemma same_call_refl i : same_call i i.
Proof. repeat split; auto. Qed.

Lemma same_call_trans i1 i2 i3 : same_call i1 i2 -> same_call i2 i3 -> same_call i1 i3.
Proof.
  intros (P1 & A1 & T1 & V1 & C1) (P2 & A2 & T2 & V2 & C2).
  repeat split; try congruence. auto.
Qed.

Lemma same_call_settle p i : same_call i (settle p i).
Proof. repeat split; auto. Qed.

Lemma same_call_cancel_mark v requestId i : same_call i (cancel_mark v requestId i).
Proof. destruct v; repeat split; auto. Qed.

Lemma same_call_update r r0 f st i l :
  l = update r0 f (infos st) ->
  (forall x, same_call x (f x)) ->
  read_info r st = Some i ->
  exists i', nth_error l r = Some i' /\ same_call i i'.
Proof.
  intros -> Hf R. unfold read_info in R. destruct (Nat.eq_dec r0 r) as [->|Hne].
  - rewrite nth_error_update_same, R. simpl. eauto.
  - rewrite nth_error_update_other by exact Hne. eauto using same_call_refl.
Qed.

Lemma same_call_move r i st st' :
  move st st' -> read_info r st = Some i ->
  exists i', read_info r st' = Some i' /\ same_call i i'.
Proof.
  intros M R. unfold read_info at 1.
  destruct M as [A I _|requestId r0 v ef G A I E Q|requestId r0 p e G S A I E
                |requestId A I E|requestId i0 P C0 A I E|A I E].
  - rewrite I. eauto using same_call_refl.
  - exact (same_call_update r r0 _ st i _ I (same_call_cancel_mark v requestId) R).
  - exact (same_call_update r r0 _ st i _ I (same_call_settle p) R).
  - rewrite I. eauto using same_call_refl.
  - rewrite I. unfold read_info in R. rewrite nth_error_app1.
    + eauto using same_call_refl.
    + apply nth_error_Some. congruence.
  - rewrite I. eauto using same_call_refl.
Qed.

Lemma same_call_moves r i st st' :
  moves st st' -> read_info r st = Some i ->
  exists i', read_info r st' = Some i' /\ same_call i i'.
Proof.
  intros M. revert i. induction M as [st|st1 st2 st3 M IH M']; intros i R.
  - eauto using same_call_refl.
  - destruct (IH i R) as (i2 & R2 & S2).
    destruct (same_call_move r i2 _ _ M' R2) as (i3 & R3 & S3).
    eauto using same_call_trans.
Qed.

(** ** The controller of a request *)

Lemma object_get_set key v obj : object_get key (object_set key v obj) = Some v.
Proof.
  induction obj as [|[k x] obj IH]; simpl.
  - now rewrite String.eqb_refl.
  - destruct (String.eqb key k) eqn:E; simpl; rewrite E; [reflexivity|exact IH].
Qed.

Lemma prepared_signal o c additionalOptions :
  object_get "signal" (_prepareFetchOptions o c additionalOptions) = Some (PSignal c).
Proof. apply object_get_set. Qed.

Lemma prepare_call_returns requestPromise o c st :
  supplier_returns requestPromise = true ->
  exists p st', prepare_call requestPromise o c st = (Normal p, st') /\ outside st st'.
Proof.
  intros H. pose proof (external_prepare_call requestPromise o c st) as O.
  destruct requestPromise as [tag [q|e]|url [q|e]|q]; try discriminate;
    (eexists; eexists; split; [reflexivity|exact O]).
Qed.

(** The entry made by [#_request], as it is when [#_request] returns. *)
Lemma _request_entry requestId requestPromise o st c st1 :
  choose_controller o st = (Normal c, st1) ->
  supplier_returns requestPromise = true ->
  exists r st' i,
    _request requestId requestPromise o st = (Normal r, st') /\
    read_info r st' = Some i /\
    RequestInfo.abortController i = c /\
    RequestInfo.cancelToken i = Options.cancelToken o.
Proof.
  intros E1 S.
  destruct (_request_phases requestId requestPromise o st) as (c' & st1' & E1' & H).
  rewrite E1 in E1'. injection E1' as <- <-.
  destruct (prepare_call_returns requestPromise o c st1 S) as (p & st2 & E2 & _).
  rewrite E2 in H. cbv zeta in H. destruct H as (st4 & st5 & E4 & E5 & E).
  set (st3 := if Options.noCancel o then st2 else exec (cancel requestId) st2) in *.
  destruct (register_spec requestId p o c st3) as (st4' & E4' & _ & I4 & _).
  rewrite E4 in E4'. injection E4' as <-.
  pose proof (moving_attach {| k_requestId := requestId;
                               k_requestInfo := length (infos st3) |} p st4) as M.
  rewrite E5 in M. simpl in M.
  assert (R4 : read_info (length (infos st3)) st4 =
               Some {| RequestInfo.promise := p;
                       RequestInfo.abortController := c;
                       RequestInfo.cancelToken := Options.cancelToken o;
                       RequestInfo.wrapperPromise := Pending;
                       RequestInfo.isCancelled := false;
                       RequestInfo.verbose := verbose st3 |}).
  { unfold read_info. rewrite I4, nth_error_app2, Nat.sub_diag by lia. reflexivity. }
  destruct (same_call_moves _ _ _ _ M R4) as (i & R5 & _ & A & T & _).
  exists (length (infos st3)), st5, i. auto.
Qed.

(** C10. A request whose options carry no [abortController] runs on a
    controller made for it: the slot is emptied first, the controller did
    not exist before the call (so no controller or signal handed out
    earlier is it), it is not aborted, it is the signal of the prepared
    configuration and the controller of the entry. *)
Theorem request_without_controller_uses_fresh_one requestId requestPromise o st :
  Options.abortController o = None ->
  let c := length (controllers st) in
  exists st1,
    choose_controller o st = (Normal c, st1) /\
    read_controller c st = None /\
    read_controller c st1 =
      Some {| aborted := false; impl := NativeAbort; listeners := [] |} /\
    abortController st1 = Some c /\
    (forall c0, read_controller c0 st <> None ->
                c0 <> c /\ read_controller c0 st1 = read_controller c0 st) /\
    object_get "signal" (_prepareFetchOptions o c []) = Some (PSignal c) /\
    effects (exec (prepare_call requestPromise o c) st1) =
      (effects st ++
       match requestPromise with
       | RPFunction tag _ => [SupplierCalled tag (_prepareFetchOptions o c [])]
       | RPString url _ => [FetchCalled url (_prepareFetchOptions o c [])]
       | RPAwaited _ => []
       end)%list /\
    (supplier_returns requestPromise = true ->
     exists r st' i,
       _request requestId requestPromise o st = (Normal r, st') /\
       read_info r st' = Some i /\
       RequestInfo.abortController i = c).
Proof.
  intros H c.
  assert (E1 : exists st1,
             choose_controller o st = (Normal c, st1) /\
             controllers st1 =
               (controllers st ++
                [{| aborted := false; impl := NativeAbort; listeners := [] |}])%list /\
             abortController st1 = Some c /\
             effects st1 = effects st).
  { unfold choose_controller. rewrite H. eexists. repeat split. }
  destruct E1 as (st1 & E1 & C1 & S1 & F1).
  exists st1. split; [exact E1|].
  unfold read_controller. rewrite C1.
  split; [apply nth_error_None; subst c; lia|].
  split; [subst c; now rewrite nth_error_app2, Nat.sub_diag by lia|].
  split; [exact S1|].
  split.
  { intros c0 Hc0. apply nth_error_Some in Hc0. split; [subst c; lia|].
    now apply nth_error_app1. }
  split; [apply prepared_signal|].
  split.
  { unfold exec. destruct requestPromise as [tag [q|e]|url [q|e]|q]; simpl;
      rewrite F1; auto using app_nil_r. }
  intros S.
  destruct (_request_entry requestId requestPromise o st c st1 E1 S)
    as (r & st' & i & E & R & A & _).
  exists r, st', i. auto.
Qed.

(** ** What the parts of [cancel] and of [#_request] do to the world *)

Lemma with_world_same st :
  with_world (controllers st) (effects st ++ []) st = st.
Proof. destruct st. unfold with_world. simpl. now rewrite app_nil_r. Qed.

Lemma with_world_twice cs ef ef' st :
  with_world cs (effects (with_world cs (effects st ++ ef) st) ++ ef')
             (with_world cs (effects st ++ ef) st)
  = with_world cs (effects st ++ (ef ++ ef')) st.
Proof. unfold with_world. simpl. now rewrite app_assoc. Qed.

(** A listener run by the dispatch: it only adds to the trace, and a
    linked callable method is called. *)
Lemma listener_run l st :
  exists ef,
    swallow (run_listener l) st
    = (Normal tt, with_world (controllers st) (effects st ++ ef) st) /\
    (forall tag b, l = LinkedAbort (AbortFn tag b) -> In (AbortMethodCalled tag) ef).
Proof.
  destruct l as [[|tag [|e]]|tag [|e]].
  - exists []. rewrite with_world_same. split; [reflexivity|discriminate].
  - exists [AbortMethodCalled tag]. split; [reflexivity|].
    intros ? ? [= <- _]. now left.
  - exists [AbortMethodCalled tag]. split; [reflexivity|].
    intros ? ? [= <- _]. now left.
  - exists [ListenerCalled tag]. split; [reflexivity|discriminate].
  - exists [ListenerCalled tag]. split; [reflexivity|discriminate].
Qed.

Lemma dispatch_run ls : forall st,
  exists ef,
    dispatch_abort ls st
    = (Normal tt, with_world (controllers st) (effects st ++ ef) st) /\
    (forall tag b, In (LinkedAbort (AbortFn tag b)) ls ->
                   In (AbortMethodCalled tag) ef).
Proof.
  unfold dispatch_abort. induction ls as [|l ls IH]; intros st.
  - exists []. simpl. rewrite with_world_same. split; [reflexivity|intros ? ? []].
  - destruct (listener_run l st) as (ef1 & E1 & H1).
    destruct (IH (with_world (controllers st) (effects st ++ ef1) st))
      as (ef2 & E2 & H2).
    exists (ef1 ++ ef2)%list. split.
    + simpl. unfold bind. rewrite E1, E2. f_equal.
      apply (with_world_twice (controllers st)).
    + intros tag b [->|H]; apply in_or_app; [left|right]; eauto.
Qed.

(** [abort] of a platform controller that is not aborted yet: the flag
    is set, every listener runs, nothing else changes, nothing is
    thrown. *)
Lemma native_abort c k st :
  read_controller c st = Some k ->
  impl k = NativeAbort ->
  aborted k = false ->
  exists ef,
    abort c st =
    (Normal tt,
     with_world (update c set_aborted (controllers st)) (effects st ++ ef) st) /\
    In (AbortCalled c) ef /\
    (forall tag b, In (LinkedAbort (AbortFn tag b)) (listeners k) ->
                   In (AbortMethodCalled tag) ef).
Proof.
  intros R I A. unfold abort. unfold bind at 1. unfold gets. rewrite R.
  unfold bind at 1. unfold emit at 1. unfold modify at 1. rewrite I, A.
  unfold bind at 1. unfold update_controller, modify.
  cbn [controllers effects with_world].
  destruct (dispatch_run (listeners k)
              (with_world (update c set_aborted (controllers st))
                 (effects st ++ [AbortCalled c]) st)) as (ef & E & H).
  cbn [controllers effects with_world] in E.
  exists ([AbortCalled c] ++ ef)%list. split; [|split].
  - etransitivity; [exact E|]. f_equal. unfold with_world. simpl.
    now rewrite <- app_assoc.
  - now left.
  - intros tag b Hin. right. eauto.
Qed.

Lemma signal_aborted_after_update c cs st ef :
  c < length (controllers st) ->
  signal_aborted c (with_world (update c set_aborted (controllers st)) ef cs) = true.
Proof.
  intros L. unfold signal_aborted, read_controller. simpl.
  rewrite nth_error_update_same.
  destruct (nth_error (controllers st) c) eqn:N; [reflexivity|].
  apply nth_error_None in N. lia.
Qed.

Lemma try_cancelToken_run r st :
  exists ef,
    try_cancelToken r st
    = (Normal tt, with_world (controllers st) (effects st ++ ef) st) /\
    (forall i tag b,
        read_info r st = Some i ->
        RequestInfo.cancelToken i = Some (TokenFunction tag b) \/
        RequestInfo.cancelToken i = Some (TokenObject (MemberFn tag b)) ->
        In (CancelTokenCalled tag) ef).
Proof.
  unfold try_cancelToken, bind, gets.
  destruct (read_info r st) as [i|].
  - destruct (RequestInfo.cancelToken i) as [[tag [|e]|[|tag [|e]|]]|] eqn:T;
      try (exists [CancelTokenCalled tag]; split; [reflexivity|];
           intros i0 tag0 b0 [= <-]; rewrite T;
           intros [[= <- _]|[= <- _]]; now left);
      (exists []; rewrite with_world_same; split; [reflexivity|];
       intros i0 tag0 b0 [= <-]; rewrite T; intros [|]; discriminate).
  - exists []. rewrite with_world_same. split; [reflexivity|]. discriminate.
Qed.

Lemma choose_controller_spec o st :
  exists c st1 fresh,
    choose_controller o st = (Normal c, st1) /\
    activeRequests st1 = activeRequests st /\
    infos st1 = infos st /\
    effects st1 = effects st /\
    verbose st1 = verbose st /\
    controllers st1 = (controllers st ++ fresh)%list.
Proof.
  unfold choose_controller. destruct (Options.abortController o) as [c0|].
  - eexists c0, _, []. split; [reflexivity|]. simpl. now rewrite app_nil_r.
  - eexists _, _, [_]. split; [reflexivity|]. simpl. auto.
Qed.

Lemma prepare_call_spec requestPromise o c st :
  exists ef,
    snd (prepare_call requestPromise o c st)
    = with_world (controllers st) (effects st ++ ef) st /\
    forallb (fun e => negb (is_cancellation e)) ef = true.
Proof.
  destruct requestPromise as [tag [q|e]|url [q|e]|q];
    try (eexists [_]; split; reflexivity).
  exists []. split; [|reflexivity]. simpl. now rewrite with_world_same.
Qed.

(** [abort] inside its [try]: the trace grows, the controller store is
    the same or has the flag of [c] set, and an existing controller has
    its [abort] called. *)
Lemma swallow_abort_run c st :
  exists cs ef,
    swallow (abort c) st = (Normal tt, with_world cs (effects st ++ ef) st) /\
    (cs = controllers st \/ cs = update c set_aborted (controllers st)) /\
    (forall k, read_controller c st = Some k ->
               In (AbortCalled c) ef /\
               (impl k = NativeAbort -> aborted k = false ->
                cs = update c set_aborted (controllers st))).
Proof.
  destruct (read_controller c st) as [k|] eqn:R.
  - destruct (impl k) as [|sets_flag e] eqn:I; [destruct (aborted k) eqn:A|].
    + exists (controllers st), [AbortCalled c]. split; [|split].
      * unfold swallow, try_catch, abort, bind, gets, emit, modify.
        rewrite R, I, A. reflexivity.
      * now left.
      * intros k' [= <-]. split; [now left|]. congruence.
    + destruct (native_abort c k st R I A) as (ef & E & H & _).
      exists (update c set_aborted (controllers st)), ef. split; [|split].
      * unfold swallow, try_catch. now rewrite E.
      * now right.
      * intros k' [= <-]. auto.
    + exists (if sets_flag then update c set_aborted (controllers st)
              else controllers st), [AbortCalled c]. split; [|split].
      * unfold swallow, try_catch, abort, bind, gets, emit, modify.
        rewrite R, I. now destruct sets_flag.
      * destruct sets_flag; auto.
      * intros k' [= <-]. split; [now left|]. congruence.
  - exists (controllers st), []. split; [|split].
    + unfold swallow, try_catch, abort, bind, gets. rewrite R. simpl.
      now rewrite with_world_same.
    + now left.
    + discriminate.
Qed.

Lemma aborted_or_same_refl ef st c : aborted_or_same ef st st c.
Proof. now left. Qed.

(** A store that is the old one, or the old one with the flag of [c0]
    set while [abort] was called on [c0]. *)
Lemma aborted_or_same_update c0 cs ef ef' st st' c :
  controllers st' = cs ->
  cs = controllers st \/ cs = update c0 set_aborted (controllers st) ->
  (forall k, read_controller c0 st = Some k -> In (AbortCalled c0) ef) ->
  incl ef ef' ->
  aborted_or_same ef' st st' c.
Proof.
  intros C [->| ->] H Hincl; unfold aborted_or_same, read_controller; rewrite C.
  - now left.
  - destruct (Nat.eq_dec c0 c) as [->|Hne].
    + rewrite nth_error_update_same.
      destruct (nth_error (controllers st) c) as [k|] eqn:N; [|now left].
      right. exists k. repeat split. apply Hincl. now apply (H k).
    + left. now apply nth_error_update_other.
Qed.

Lemma aborted_or_same_trans ef1 ef2 st1 st2 st3 c :
  aborted_or_same ef1 st1 st2 c ->
  aborted_or_same ef2 st2 st3 c ->
  aborted_or_same (ef1 ++ ef2) st1 st3 c.
Proof.
  intros [E1|(k1 & R1 & R1' & H1)] [E2|(k2 & R2 & R2' & H2)].
  - left. congruence.
  - right. exists k2. rewrite <- E1. repeat split; auto.
    apply in_or_app. now right.
  - right. exists k1. rewrite E2. repeat split; auto.
    apply in_or_app. now left.
  - right. exists k1. rewrite R1' in R2. injection R2 as <-.
    repeat split; auto. apply in_or_app. now left.
Qed.

(** The flag of a controller is never taken back. *)
Lemma aborted_or_same_aborted ef st st' c :
  aborted_or_same ef st st' c ->
  signal_aborted c st = true -> signal_aborted c st' = true.
Proof.
  unfold signal_aborted. intros [->|(k & _ & -> & _)]; auto.
Qed.

(** "Try to abort using AbortController". *)
Lemma try_abort_run r st :
  exists cs ef,
    try_abort r st = (Normal tt, with_world cs (effects st ++ ef) st) /\
    (forall c, aborted_or_same ef st (with_world cs (effects st ++ ef) st) c) /\
    (forall i k,
        read_info r st = Some i ->
        read_controller (RequestInfo.abortController i) st = Some k ->
        (aborted k = false -> In (AbortCalled (RequestInfo.abortController i)) ef) /\
        (impl k = NativeAbort ->
         exists k', nth_error cs (RequestInfo.abortController i) = Some k' /\
                    aborted k' = true)).
Proof.
  unfold try_abort, bind, gets.
  destruct (read_info r st) as [i|] eqn:R; simpl.
  - set (c := RequestInfo.abortController i).
    destruct (signal_aborted c st) eqn:S; simpl.
    + exists (controllers st), []. rewrite with_world_same.
      split; [reflexivity|]. split; [intros c'; apply aborted_or_same_refl|].
      intros i' k [= <-] C. fold c in C |- *. unfold signal_aborted in S.
      rewrite C in S. split; [congruence|]. intros _. exists k. auto.
    + destruct (swallow_abort_run c st) as (cs & ef & E & D & H).
      exists cs, ef. split; [exact E|]. split.
      * intros c'. apply (aborted_or_same_update c cs ef ef); auto.
        -- intros k Rk. apply (H k Rk).
        -- apply incl_refl.
      * intros i' k [= <-] C. fold c in C |- *.
        destruct (H k C) as (Hin & Hup). unfold signal_aborted in S.
        rewrite C in S. split; [auto|]. intros I.
        rewrite (Hup I S), nth_error_update_same.
        unfold read_controller in C. rewrite C. simpl. eauto.
  - exists (controllers st), []. rewrite with_world_same.
    split; [reflexivity|]. split; [intros c'; apply aborted_or_same_refl|].
    discriminate.
Qed.

(** [cancel] on a tracked identity, as the world sees it: what it adds
    to the trace, what it does to the controllers, and that the
    mechanisms of the entry are invoked. *)
Lemma cancel_world requestId r st :
  JSMap.get requestId (activeRequests st) = Some r ->
  exists st' ef,
    cancel requestId st = (Normal true, st') /\
    effects st' = (effects st ++ ef)%list /\
    (forall c, aborted_or_same ef st st' c) /\
    (verbose st = true -> In (RejectCalled r (cancel_message requestId)) ef) /\
    (forall i, read_info r st = Some i -> invokes_mechanisms i st st' ef).
Proof.
  intros G.
  set (sta := with_infos (update r mark_cancelled (infos st)) st).
  destruct (try_abort_run r sta) as (cs & ef1 & E1 & W1 & H1).
  destruct (try_cancelToken_run r (with_world cs (effects sta ++ ef1) sta))
    as (ef2 & E2 & H2).
  cbn [controllers effects with_world] in E2.
  set (tail := if verbose st then [RejectCalled r (cancel_message requestId)]
               else []).
  set (st' := with_activeRequests (JSMap.delete requestId (activeRequests st))
                (with_infos
                   (update r (cancel_mark (verbose st) requestId) (infos st))
                   (with_world cs (effects st ++ ef1 ++ ef2 ++ tail) st))).
  assert (E : cancel requestId st = (Normal true, st')).
  { unfold cancel. unfold bind at 1. unfold gets at 1. rewrite G.
    unfold bind at 1. unfold modify at 1. fold sta.
    unfold bind at 1. rewrite E1. unfold bind at 1. rewrite E2.
    unfold bind, gets, when, rejectWrapper, activeRequests_delete, emit,
      modify, ret.
    cbn [verbose with_world with_infos controllers effects infos activeRequests].
    change (verbose sta) with (verbose st). subst st' tail.
    unfold cancel_mark.
    destruct (verbose st); unfold bind; simpl; f_equal;
      unfold with_activeRequests, with_infos, with_world; simpl;
      rewrite ?update_update, <- ?app_assoc, ?app_nil_r; reflexivity. }
  exists st', (ef1 ++ ef2 ++ tail)%list.
  split; [exact E|]. split; [reflexivity|].
  assert (Ra : forall i, read_info r st = Some i ->
                         read_info r sta = Some (mark_cancelled i)).
  { intros i R. unfold read_info in *. simpl.
    now rewrite nth_error_update_same, R. }
  split; [|split].
  - intros c. destruct (W1 c) as [Same|(k & Rk & Rk' & Hin)].
    + left. exact Same.
    + right. exists k. repeat split; auto. apply in_or_app. now left.
  - intros V. subst tail. rewrite V. apply in_or_app. right.
    apply in_or_app. right. now left.
  - intros i R. unfold invokes_mechanisms. cbv zeta.
    set (c := RequestInfo.abortController i). split; [|split].
    + intros k C A. apply in_or_app. left.
      exact (proj1 (H1 (mark_cancelled i) k (Ra i R) C) A).
    + intros k C I.
      destruct (proj2 (H1 (mark_cancelled i) k (Ra i R) C) I) as (k' & N & A).
      unfold signal_aborted, read_controller. simpl. fold c.
      simpl in N. fold c in N. now rewrite N.
    + intros tag b T. apply in_or_app. right. apply in_or_app. left.
      apply (H2 (mark_cancelled i) tag b); [|exact T].
      unfold read_info. simpl. unfold read_info in R.
      now rewrite nth_error_update_same, R.
Qed.

(** The mechanisms invoked between two states are invoked between an
    earlier and a later one, for an entry with the same controller and
    token. *)
Lemma invokes_mechanisms_between i i' st0 st st' st'' ef0 ef ef' :
  RequestInfo.abortController i' = RequestInfo.abortController i ->
  RequestInfo.cancelToken i' = RequestInfo.cancelToken i ->
  (forall c, aborted_or_same ef0 st0 st c) ->
  (forall c, aborted_or_same ef' st' st'' c) ->
  invokes_mechanisms i st st' ef ->
  invokes_mechanisms i' st0 st'' (ef0 ++ ef ++ ef').
Proof.
  unfold invokes_mechanisms. cbv zeta. intros -> -> W0 W' (Ha & Hs & Ht).
  set (c := RequestInfo.abortController i) in *. split; [|split].
  - intros k R A. apply in_or_app.
    destruct (W0 c) as [Same|(k0 & R0 & _ & Hin)]; [|now left].
    right. apply in_or_app. left. apply (Ha k); [congruence|exact A].
  - intros k R I. apply (aborted_or_same_aborted ef' st' st'' c (W' c)).
    destruct (W0 c) as [Same|(k0 & R0 & R0' & _)].
    + apply (Hs k); [congruence|exact I].
    + apply (Hs (set_aborted k0)); [exact R0'|]. simpl. congruence.
  - intros tag b T. apply in_or_app. right. apply in_or_app. left. eauto.
Qed.

(** The mechanisms invoked from a state are invoked from an earlier one
    that had the same controllers, and possibly fewer. *)
Lemma invokes_mechanisms_from i i' st0 st st' ef :
  RequestInfo.abortController i' = RequestInfo.abortController i ->
  RequestInfo.cancelToken i' = RequestInfo.cancelToken i ->
  (forall c k, read_controller c st0 = Some k -> read_controller c st = Some k) ->
  invokes_mechanisms i st st' ef ->
  invokes_mechanisms i' st0 st' ef.
Proof.
  unfold invokes_mechanisms. cbv zeta. intros -> -> K (Ha & Hs & Ht).
  split; [|split]; eauto.
Qed.

(** The [forEach] of [cancelAll], as the world sees it: every entry it
    reaches has its mechanisms invoked. *)
Lemma cancel_each_trace ids : forall st n,
  NoDup ids ->
  (forall requestId, In requestId ids ->
                     JSMap.get requestId (activeRequests st) <> None) ->
  exists st' ef,
    cancel_each ids n st = (Normal (n + length ids), st') /\
    effects st' = (effects st ++ ef)%list /\
    (forall c, aborted_or_same ef st st' c) /\
    (forall requestId r i,
        In requestId ids ->
        JSMap.get requestId (activeRequests st) = Some r ->
        read_info r st = Some i ->
        invokes_mechanisms i st st' ef /\
        (verbose st = true ->
         In (RejectCalled r (cancel_message requestId)) ef)).
Proof.
  induction ids as [|requestId ids IH]; intros st n ND Hin.
  - exists st, []. simpl. rewrite Nat.add_0_r, app_nil_r.
    split; [reflexivity|]. split; [reflexivity|].
    split; [intros c; apply aborted_or_same_refl|]. intros ? ? ? [].
  - inversion ND as [|? ? Hnin ND']; subst.
    destruct (JSMap.get requestId (activeRequests st)) as [r0|] eqn:G;
      [|exfalso; apply (Hin requestId); [now left|exact G]].
    destruct (cancel_world _ _ _ G) as (st1 & ef1 & E1 & F1 & W1 & V1 & H1).
    destruct (cancel_present _ _ _ G) as (st1' & ef0 & E1' & A & I & V & _).
    rewrite E1 in E1'. injection E1' as <-.
    assert (Hin1 : forall requestId', In requestId' ids ->
                     JSMap.get requestId' (activeRequests st1) <> None).
    { intros requestId' H'. rewrite A, JSMapFacts.get_delete_other.
      - apply Hin. now right.
      - intros ->. contradiction. }
    destruct (IH st1 (S n) ND' Hin1) as (st' & ef2 & E' & F' & W' & H').
    exists st', (ef1 ++ ef2)%list. split; [|split; [|split]].
    + simpl. unfold bind. rewrite E1, E'. f_equal. f_equal. lia.
    + now rewrite F', F1, app_assoc.
    + intros c. exact (aborted_or_same_trans _ _ _ _ _ c (W1 c) (W' c)).
    + intros requestId' r i [<-|Hin'] G' R.
      * rewrite G in G'. injection G' as <-. split.
        -- pose proof (invokes_mechanisms_between i i st st st1 st' [] ef1 ef2
                         eq_refl eq_refl
                         (fun c => aborted_or_same_refl [] st c) W' (H1 i R)) as K.
           exact K.
        -- intros Vt. apply in_or_app. left. auto.
      * assert (Hne : requestId <> requestId') by (intros ->; contradiction).
        assert (G1 : JSMap.get requestId' (activeRequests st1) = Some r)
          by (rewrite A, JSMapFacts.get_delete_other; auto).
        destruct (same_call_update r r0 _ st i _ I
                    (same_call_cancel_mark (verbose st) requestId) R)
          as (i' & R1 & _ & Sa & St & _).
        destruct (H' requestId' r i' Hin' G1 R1) as (K & Kv). split.
        -- pose proof (invokes_mechanisms_between i' i st st1 st' st' ef1 ef2 []
                         (eq_sym Sa) (eq_sym St) W1
                         (fun c => aborted_or_same_refl [] st' c) K) as K'.
           now rewrite app_nil_r in K'.
        -- intros Vt. apply in_or_app. right. apply Kv. congruence.
Qed.

(** ** [cancelAll] *)

Lemma cancelled_moves r st st' :
  moves st st' -> info_isCancelled r st = true -> info_isCancelled r st' = true.
Proof.
  intros M. unfold info_isCancelled.
  destruct (read_info r st) as [i|] eqn:R; [|discriminate].
  intros C. destruct (same_call_moves r i st st' M R) as (i' & R' & _ & _ & _ & _ & H).
  rewrite R'. auto.
Qed.

Lemma filter_none_excluded (m : list (string * nat)) :
  filter (fun kv => negb (existsb (String.eqb (fst kv)) [])) m = m.
Proof. induction m as [|kv m IH]; simpl in *; [reflexivity|now f_equal]. Qed.

Lemma cancel_each_spec ids : forall st n,
  NoDup ids ->
  (forall requestId, In requestId ids ->
                     JSMap.get requestId (activeRequests st) <> None) ->
  exists st',
    cancel_each ids n st = (Normal (n + length ids), st') /\
    activeRequests st' =
      filter (fun kv => negb (existsb (String.eqb (fst kv)) ids)) (activeRequests st) /\
    moves st st' /\
    (forall requestId r,
        In requestId ids ->
        JSMap.get requestId (activeRequests st) = Some r ->
        r < length (infos st) ->
        info_isCancelled r st' = true).
Proof.
  induction ids as [|requestId ids IH]; intros st n ND Hin.
  - exists st. simpl. rewrite Nat.add_0_r, filter_none_excluded.
    repeat split; auto using moves_refl.
  - inversion ND as [|? ? Hnin ND']; subst.
    destruct (JSMap.get requestId (activeRequests st)) as [r|] eqn:G;
      [|exfalso; apply (Hin requestId); [now left|exact G]].
    destruct (cancel_present _ _ _ G) as (st1 & ef & E & A & I & _).
    assert (Hin1 : forall requestId', In requestId' ids ->
                     JSMap.get requestId' (activeRequests st1) <> None).
    { intros requestId' H'. rewrite A, JSMapFacts.get_delete_other.
      - apply Hin. now right.
      - intros ->. contradiction. }
    destruct (IH st1 (S n) ND' Hin1) as (st' & E' & A' & M' & C').
    exists st'. split; [|split; [|split]].
    + simpl. unfold bind. rewrite E, E'. f_equal. f_equal. lia.
    + rewrite A', A. apply JSMapFacts.delete_delete.
    + eapply moves_trans; [|exact M'].
      pose proof (moving_cancel requestId st) as M. now rewrite E in M.
    + intros requestId' r' [<-|H'] G' L'.
      * rewrite G in G'. injection G' as <-.
        apply (cancelled_moves r st1 st' M').
        unfold info_isCancelled, read_info. rewrite I, nth_error_update_same.
        destruct (nth_error (infos st) r) as [i|] eqn:N.
        -- simpl. now destruct (verbose st).
        -- apply nth_error_None in N. lia.
      * apply (C' requestId' r' H').
        -- rewrite A, JSMapFacts.get_delete_other; [exact G'|].
           intros ->. contradiction.
        -- now rewrite I, update_length.
Qed.

(** C7. On a table of N entries under N distinct identities [cancelAll]
    returns N and leaves the table empty. Every entry it found is
    cancelled: it is marked, [abort] was called on its controller unless
    that was aborted already, a platform controller is aborted
    afterwards, its cancel function or the [cancel] member of its token
    was called, and under a verbose manager its proxy was rejected with
    the cancellation error of its identity. *)
Theorem cancelAll_cancels_every_entry st N :
  NoDup (JSMap.keys (activeRequests st)) ->
  getActiveCount st = N ->
  exists st' ef,
    cancelAll st = (Normal N, st') /\
    getActiveCount st' = 0 /\
    (forall requestId, isActive requestId st' = false) /\
    effects st' = (effects st ++ ef)%list /\
    (forall requestId r i,
        JSMap.get requestId (activeRequests st) = Some r ->
        read_info r st = Some i ->
        info_isCancelled r st' = true /\
        invokes_mechanisms i st st' ef /\
        (verbose st = true ->
         In (RejectCalled r (cancel_message requestId)) ef)).
Proof.
  intros ND HN.
  assert (Hin : forall requestId,
             In requestId (JSMap.keys (activeRequests st)) ->
             JSMap.get requestId (activeRequests st) <> None).
  { intros requestId H. apply JSMapFacts.key_get in H. destruct H as [v ->].
    discriminate. }
  destruct (cancel_each_spec (JSMap.keys (activeRequests st)) st 0 ND Hin)
    as (st' & E & A & M & C).
  destruct (cancel_each_trace (JSMap.keys (activeRequests st)) st 0 ND Hin)
    as (st'' & ef & E' & F & _ & H).
  rewrite E in E'. injection E' as <-.
  rewrite JSMapFacts.delete_all_keys in A by apply incl_refl.
  exists st', ef. split; [|split; [|split; [|split]]].
  - unfold cancelAll, bind, gets. rewrite E. simpl.
    unfold getActiveCount, JSMap.size, JSMap.keys in *.
    now rewrite length_map, HN.
  - unfold getActiveCount. now rewrite A.
  - intros requestId. unfold isActive. now rewrite A.
  - exact F.
  - intros requestId r i G R.
    pose proof (JSMapFacts.get_key _ _ _ G) as K.
    split; [|exact (H requestId r i K G R)].
    apply (C requestId r K G). apply nth_error_Some.
    unfold read_info in R. congruence.
Qed.

(** ** Stale completions *)

Lemma stale_on_fulfilled k v st :
  is_current k st = false -> on_fulfilled k v st = (Normal tt, st).
Proof. intros H. unfold on_fulfilled, bind, gets. now rewrite H. Qed.

Lemma stale_onError k e st :
  is_current k st = false -> onError k e st = (Normal tt, st).
Proof. intros H. unfold onError, bind, gets. now rewrite H. Qed.

Lemma stale_on_timeout k v st :
  is_current k st = false -> on_timeout k v st = (Normal tt, st).
Proof. intros H. unfold on_timeout, bind, gets. now rewrite H. Qed.

Lemma frozen_run r i n st later :
  frozen r i n st -> frozen r i n (run later st).
Proof. intros F. exact (frozen_moves r i n _ _ F (run_moves later st)). Qed.

(** C3. In every state the manager can reach: the resolvers of a wrapper
    promise have been called at most once; a continuation whose entry is
    not the occupant of its identity changes nothing at all; and an
    entry that is out of the table is never changed again, its resolvers
    never called again, whatever happens later. *)
Theorem proxy_settled_once_by_current_entry managerOptions evs :
  let st := run evs (new_RequestManager managerOptions) in
  (forall r, settle_calls r (effects st) <= 1) /\
  (forall k x,
      is_current k st = false ->
      on_fulfilled k x st = (Normal tt, st) /\
      onError k x st = (Normal tt, st) /\
      on_timeout k x st = (Normal tt, st)) /\
  (forall r i later,
      read_info r st = Some i ->
      ~ tracked r st ->
      read_info r (run later st) = Some i /\
      ~ tracked r (run later st) /\
      settle_calls r (effects (run later st)) = settle_calls r (effects st)).
Proof.
  intros st. split; [|split].
  - apply wf_once, WF_run.
  - intros k x H.
    auto using stale_on_fulfilled, stale_onError, stale_on_timeout.
  - intros r i later R T.
    apply (frozen_run r i (settle_calls r (effects st)) st later).
    repeat split; auto.
Qed.

(** ** Supersession *)

Lemma isCancelled_update_settle r0 p r l :
  match nth_error (update r0 (settle p) l) r with
  | Some i => RequestInfo.isCancelled i
  | None => false
  end =
  match nth_error l r with
  | Some i => RequestInfo.isCancelled i
  | None => false
  end.
Proof.
  destruct (Nat.eq_dec r0 r) as [->|Hne].
  - rewrite nth_error_update_same. now destruct (nth_error l r).
  - now rewrite nth_error_update_other.
Qed.

Lemma onError_isCancelled k e st r :
  info_isCancelled r (exec (onError k e) st) = info_isCancelled r st.
Proof.
  unfold exec, onError, bind, gets.
  destruct (is_current k st); simpl; [|reflexivity].
  repeat match goal with
         | |- context [if ?b then _ else _] => destruct b; simpl
         end;
    unfold info_isCancelled, read_info; simpl;
    auto using isCancelled_update_settle.
Qed.

Lemma attach_isCancelled k p st r :
  info_isCancelled r (exec (attach k p) st) = info_isCancelled r st.
Proof.
  unfold exec. destruct p as [t|v]; simpl; [|reflexivity].
  unfold try_catch.
  pose proof (external_bind _ _ (external_call_then k t) (external_call_catch k)
                st) as (_ & I & _).
  destruct ((req <- call_then k t ;; call_catch k req) st) as [[[]|e] st'];
    simpl in *.
  - unfold info_isCancelled, read_info. now rewrite I.
  - change (snd (onError k e st')) with (exec (onError k e) st').
    rewrite onError_isCancelled. unfold info_isCancelled, read_info.
    now rewrite I.
Qed.

(** C1, as the code has it. A request whose identity is held by a
    tracked entry, and whose call supplier (or [fetch]) returns: [cancel]
    runs on the first entry in a state where the second entry does not
    exist yet. It marks the first entry and removes it, and it invokes
    the entry's mechanisms: [abort] is called on its controller unless
    that was aborted already, a platform controller is aborted
    afterwards, the cancel function or [cancel] member of its token is
    called. Only then is the second entry registered, and it is not
    cancelled when the request returns; the first entry is never changed
    again, so its proxy is never fulfilled. *)
Theorem supersession managerOptions evs env url requestPromise o r1 :
  let st := run evs (new_RequestManager managerOptions) in
  let requestId :=
    _generateRequestId env url (Options.requestKey o) (Options.noCancel o) in
  Options.noCancel o = false ->
  JSMap.get requestId (activeRequests st) = Some r1 ->
  supplier_returns requestPromise = true ->
  exists c p st1 st2 st3 st4 st5 i1,
    choose_controller o st = (Normal c, st1) /\
    prepare_call requestPromise o c st1 = (Normal p, st2) /\
    cancel requestId st2 = (Normal true, st3) /\
    read_info r1 st3 = Some i1 /\
    (exists ef,
        effects st3 = (effects st2 ++ ef)%list /\
        invokes_mechanisms i1 st st3 ef) /\
    RequestInfo.isCancelled i1 = true /\
    RequestInfo.wrapperPromise i1 =
      (if verbose st then Rejected (cancel_message requestId) else Pending) /\
    JSMap.get requestId (activeRequests st3) = None /\
    ~ tracked r1 st3 /\
    let r2 := length (infos st3) in
    read_info r2 st3 = None /\
    r1 <> r2 /\
    register requestId p o c st3 = (Normal r2, st4) /\
    JSMap.get requestId (activeRequests st4) = Some r2 /\
    attach {| k_requestId := requestId; k_requestInfo := r2 |} p st4
    = (Normal tt, st5) /\
    request env url requestPromise o st = (Normal r2, st5) /\
    info_isCancelled r2 st5 = false /\
    forall later,
      read_info r1 (run later st5) = Some i1 /\
      ~ tracked r1 (run later st5) /\
      forall v, wrapper_state r1 (run later st5) <> Some (Fulfilled v).
Proof.
  intros st requestId NC G S.
  assert (W : WF st) by apply WF_run.
  destruct (_request_phases requestId requestPromise o st) as (c & st1 & E1 & H).
  pose proof (external_choose_controller o st) as O1. rewrite E1 in O1.
  destruct (prepare_call_returns requestPromise o c st1 S) as (p & st2 & E2 & O2).
  rewrite E2 in H. cbv zeta in H. rewrite NC in H.
  destruct (outside_trans _ _ _ O1 O2) as (A2 & I2 & V2 & ef2 & F2 & Q2).
  simpl in A2, I2, V2, F2.
  assert (W2 : WF st2).
  { apply (WF_moves st st2 W). apply outside_moves.
    exact (outside_trans _ _ _ O1 O2). }
  assert (G2 : JSMap.get requestId (activeRequests st2) = Some r1)
    by now rewrite A2.
  assert (T2 : tracked r1 st2) by exact (JSMapFacts.get_value _ _ _ G2).
  destruct (wf_tracked _ W2 r1 T2) as (L1 & C1 & P1 & N1).
  destruct (cancel_present _ _ _ G2) as (st3 & ef & E3 & A3 & I3 & V3 & F3 & Q3).
  unfold exec in H. rewrite E3 in H. simpl in H.
  destruct H as (st4 & st5 & E4 & E5 & E).
  unfold wrapper_state, read_info in P1.
  destruct (nth_error (infos st2) r1) as [i0|] eqn:N0; [|discriminate].
  simpl in P1. injection P1 as P1.
  exists c, p, st1, st2, st3, st4, st5, (cancel_mark (verbose st2) requestId i0).
  assert (R3 : read_info r1 st3 = Some (cancel_mark (verbose st2) requestId i0)).
  { unfold read_info. now rewrite I3, nth_error_update_same, N0. }
  assert (T3 : ~ tracked r1 st3).
  { unfold tracked. rewrite A3.
    exact (JSMapFacts.delete_removes_value _ _ _ (wf_values _ W2) G2). }
  assert (L3 : length (infos st3) = length (infos st2))
    by now rewrite I3, update_length.
  destruct (register_spec requestId p o c st3) as (st4' & E4' & A4 & I4 & _).
  rewrite E4 in E4'. injection E4' as <-.
  assert (M45 : moves st3 st5).
  { eapply moves_trans.
    - pose proof (moving_register requestId p o c st3) as M. rewrite E4 in M.
      exact M.
    - pose proof (moving_attach {| k_requestId := requestId;
                                   k_requestInfo := length (infos st3) |} p st4) as M.
      now rewrite E5 in M. }
  assert (F3' : frozen r1 (cancel_mark (verbose st2) requestId i0)
                       (settle_calls r1 (effects st3)) st3)
    by (repeat split; auto).
  assert (Mech : exists ef3,
             effects st3 = (effects st2 ++ ef3)%list /\
             invokes_mechanisms (cancel_mark (verbose st2) requestId i0)
                                st st3 ef3).
  { destruct (cancel_world _ _ _ G2) as (st3' & ef3 & E3' & Fw & _ & _ & H3).
    rewrite E3 in E3'. injection E3' as <-.
    exists ef3. split; [exact Fw|].
    destruct (choose_controller_spec o st)
      as (c' & st1' & fresh & E1' & _ & _ & _ & _ & K1).
    rewrite E1 in E1'. injection E1' as <- <-.
    destruct (prepare_call_spec requestPromise o c st1) as (efp & Ep & _).
    rewrite E2 in Ep. simpl in Ep.
    apply (invokes_mechanisms_from i0 _ st st2 st3 ef3).
    - now destruct (verbose st2).
    - now destruct (verbose st2).
    - intros c0 k R. unfold read_controller in *. rewrite Ep. simpl.
      rewrite K1, nth_error_app1; [exact R|].
      apply nth_error_Some. congruence.
    - apply H3. exact N0. }
  cbv zeta. repeat match goal with |- _ /\ _ => split end; auto.
  - destruct (verbose st2); reflexivity.
  - rewrite <- V2. unfold cancel_mark. destruct (verbose st2); simpl;
      now rewrite P1.
  - rewrite A3. apply JSMapFacts.get_delete_same.
  - unfold read_info. apply nth_error_None. lia.
  - lia.
  - rewrite A4. apply JSMapFacts.get_set_same.
  - pose proof (attach_isCancelled
                  {| k_requestId := requestId;
                     k_requestInfo := length (infos st3) |} p st4
                  (length (infos st3))) as K.
    unfold exec in K. rewrite E5 in K. simpl in K. rewrite K.
    unfold info_isCancelled, read_info.
    now rewrite I4, nth_error_app2, Nat.sub_diag by lia.
  - intros later.
    destruct (frozen_run r1 _ _ _ later (frozen_moves r1 _ _ _ _ F3' M45))
      as (R & T & _).
    split; [exact R|]. split; [exact T|].
    intros v. unfold wrapper_state. rewrite R. simpl.
    unfold cancel_mark. destruct (verbose st2); simpl; rewrite P1; discriminate.
Qed.

(** ** The verbose flag read by [cancel] *)

(** What [cancel] does to the proxy of the entry it finds is decided by
    the manager's [verbose] when [cancel] runs. *)
Lemma cancel_rejects_by_manager_verbose managerOptions evs requestId r :
  let st := run evs (new_RequestManager managerOptions) in
  JSMap.get requestId (activeRequests st) = Some r ->
  wrapper_state r (exec (cancel requestId) st) =
    Some (if verbose st then Rejected (cancel_message requestId) else Pending).
Proof.
  intros st G.
  destruct (wf_tracked _ (WF_run managerOptions evs) r
              (JSMapFacts.get_value _ _ _ G)) as (_ & _ & P & _).
  destruct (cancel_present _ _ _ G) as (st' & ef & E & _ & I & _).
  unfold exec. rewrite E. simpl.
  unfold wrapper_state, read_info in *. rewrite I, nth_error_update_same.
  fold st in P. destruct (nth_error (infos st) r) as [i|]; [|discriminate].
  simpl in *. injection P as P. unfold cancel_mark.
  destruct (verbose st); simpl; now rewrite P.
Qed.

(** C2, on the code. An entry created while [verbose] was true and
    cancelled after [verbose] was turned off keeps its proxy pending; an
    entry created while [verbose] was false and cancelled after it was
    turned on has its proxy rejected: [cancel] reads the manager's flag,
    not the one stored in the entry. *)
Theorem cancel_reads_manager_verbose :
  let off :=
    run (one_pending ++
         [Call_setOptions {| mo_verbose := Some false |};
          Call_cancel "request_/api/a"]) verbose_manager in
  let on :=
    run (one_pending ++
         [Call_setOptions {| mo_verbose := Some true |};
          Call_cancel "request_/api/a"]) quiet_manager in
  (info_verbose 0 off = true /\
   info_isCancelled 0 off = true /\
   wrapper_state 0 off = Some Pending) /\
  (info_verbose 0 on = false /\
   info_isCancelled 0 on = true /\
   wrapper_state 0 on = Some (Rejected (cancel_message "request_/api/a"))).
Proof. vm_compute. repeat split. Qed.

(** ** Suppressed requests *)

Lemma digits_then_underscore d1 : forall d2 s1 s2,
  (NilEmpty.string_of_uint d1 ++ String "_" s1
   = NilEmpty.string_of_uint d2 ++ String "_" s2)%string ->
  d1 = d2 /\ s1 = s2.
Proof.
  induction d1; intros d2 s1 s2 H; destruct d2; simpl in H;
    try discriminate;
    try (injection H as H; destruct (IHd1 _ _ _ H); subst; now split).
  injection H as H. now split.
Qed.

Lemma decimal_N_NilEmpty n :
  exists d, decimal_N n = NilEmpty.string_of_uint d /\ N.of_uint d = n.
Proof.
  unfold decimal_N, NilZero.string_of_uint.
  destruct (N.to_uint n) eqn:E;
    try (eexists; split; [reflexivity|];
         rewrite <- E; apply DecimalN.Unsigned.of_to).
  exists (Decimal.D0 Decimal.Nil). split; [reflexivity|].
  rewrite <- (DecimalN.Unsigned.of_to n), E. reflexivity.
Qed.

(** The suppressed identity determines the clock reading and the random
    text it was made from. *)
Lemma suppressed_id_injective env1 env2 url1 url2 key1 key2 :
  _generateRequestId env1 url1 key1 true = _generateRequestId env2 url2 key2 true ->
  now env1 = now env2 /\ random_suffix env1 = random_suffix env2.
Proof.
  unfold _generateRequestId. simpl. intros H. injection H as H.
  destruct (decimal_N_NilEmpty (now env1)) as (d1 & E1 & N1).
  destruct (decimal_N_NilEmpty (now env2)) as (d2 & E2 & N2).
  rewrite E1, E2 in H. apply digits_then_underscore in H.
  destruct H as [-> H]. split; congruence.
Qed.

Lemma prepare_call_promise requestPromise o c st :
  yields_promise requestPromise = true ->
  exists st', prepare_call requestPromise o c st = (Normal a_promise, st') /\
              outside st st'.
Proof.
  intros H. pose proof (external_prepare_call requestPromise o c st) as O.
  destruct requestPromise as [tag [[[[]|]|]|]|url [[[[]|]|]|]|[[[]|]|]];
    try discriminate; (eexists; split; [reflexivity|exact O]).
Qed.

Lemma attach_promise k st :
  exists st', attach k a_promise st = (Normal tt, st') /\ outside st st'.
Proof.
  eexists. split; [reflexivity|]. repeat split. simpl.
  exists [ThenAttached k; CatchAttached k].
  split; [now rewrite <- app_assoc|intros r; reflexivity].
Qed.

(** A suppressed request for a promise: the entry is appended and put
    under its identity, nothing else of the table and entries changes. *)
Lemma request_suppressed requestId requestPromise o st :
  Options.noCancel o = true ->
  yields_promise requestPromise = true ->
  exists st' i,
    _request requestId requestPromise o st = (Normal (length (infos st)), st') /\
    activeRequests st' =
      JSMap.set requestId (length (infos st)) (activeRequests st) /\
    infos st' = (infos st ++ [i])%list /\
    RequestInfo.wrapperPromise i = Pending /\
    RequestInfo.isCancelled i = false.
Proof.
  intros NC Y.
  destruct (_request_phases requestId requestPromise o st) as (c & st1 & E1 & H).
  pose proof (external_choose_controller o st) as O1. rewrite E1 in O1.
  destruct (prepare_call_promise requestPromise o c st1 Y) as (st2 & E2 & O2).
  rewrite E2 in H. cbv zeta in H. rewrite NC in H.
  destruct H as (st4 & st5 & E4 & E5 & E).
  destruct (outside_trans _ _ _ O1 O2) as (A2 & I2 & _). simpl in A2, I2.
  destruct (register_spec requestId a_promise o c st2) as (st4' & E4' & A4 & I4 & _).
  rewrite E4 in E4'. injection E4' as <-.
  destruct (attach_promise {| k_requestId := requestId;
                              k_requestInfo := length (infos st2) |} st4)
    as (st5' & E5' & O5).
  rewrite E5 in E5'. injection E5' as <-.
  destruct O5 as (A5 & I5 & _).
  rewrite I2 in *. eexists st5, _. split; [exact E|].
  rewrite A5, I5, A4, I4, A2. repeat split.
Qed.

Lemma deliver_current k out st i :
  is_current k st = true ->
  read_info (k_requestInfo k) st = Some i ->
  RequestInfo.isCancelled i = false ->
  activeRequests (exec (deliver k out) st)
  = JSMap.delete (k_requestId k) (activeRequests st) /\
  infos (exec (deliver k out) st)
  = update (k_requestInfo k) (settle (settled out)) (infos st).
Proof.
  intros C R N. unfold exec.
  destruct out as [v|e]; simpl;
    [unfold on_fulfilled|unfold onError]; unfold bind, gets;
    rewrite C; unfold info_isCancelled; simpl;
    unfold read_info in *; simpl; rewrite R, N; simpl; split; reflexivity.
Qed.

(** Two continuations that are both current, under distinct identities
    and for distinct entries, do not disturb each other. *)
Lemma deliver_two k k' out out' st i i' :
  k_requestId k <> k_requestId k' ->
  k_requestInfo k <> k_requestInfo k' ->
  is_current k st = true ->
  is_current k' st = true ->
  read_info (k_requestInfo k) st = Some i ->
  read_info (k_requestInfo k') st = Some i' ->
  RequestInfo.isCancelled i = false ->
  RequestInfo.isCancelled i' = false ->
  RequestInfo.wrapperPromise i = Pending ->
  RequestInfo.wrapperPromise i' = Pending ->
  let st' := exec (deliver k' out') (exec (deliver k out) st) in
  wrapper_state (k_requestInfo k) st' = Some (settled out) /\
  wrapper_state (k_requestInfo k') st' = Some (settled out').
Proof.
  intros Hid Hr C C' R R' N N' P P' st'.
  destruct (deliver_current k out st i C R N) as (A1 & I1).
  assert (C1 : is_current k' (exec (deliver k out) st) = true).
  { unfold is_current in *. rewrite A1, JSMapFacts.get_delete_other; auto. }
  assert (R1 : read_info (k_requestInfo k') (exec (deliver k out) st) = Some i').
  { unfold read_info in *. rewrite I1, nth_error_update_other; auto. }
  destruct (deliver_current k' out' _ i' C1 R1 N') as (A2 & I2).
  unfold wrapper_state, read_info in *. subst st'. rewrite I2, I1. split.
  - rewrite nth_error_update_other, nth_error_update_same, R by congruence.
    simpl. now rewrite P.
  - rewrite nth_error_update_same, nth_error_update_other, R' by congruence.
    simpl. now rewrite P'.
Qed.

(** Where the suppressed identities do differ: two suppressed requests
    for platform promises whose clock readings or random texts differ get
    distinct identities, do not cancel each other, and each proxy takes
    the outcome of its own call in whichever order the calls end. *)
Lemma suppressed_requests_independent
  st env1 env2 url1 url2 rp1 rp2 o1 o2 :
  Options.noCancel o1 = true ->
  Options.noCancel o2 = true ->
  yields_promise rp1 = true ->
  yields_promise rp2 = true ->
  now env1 <> now env2 \/ random_suffix env1 <> random_suffix env2 ->
  suppression_independent st env1 env2 url1 url2 rp1 rp2 o1 o2.
Proof.
  intros NC1 NC2 Y1 Y2 D. unfold suppression_independent.
  rewrite NC1, NC2.
  set (id1 := _generateRequestId env1 url1 (Options.requestKey o1) true).
  set (id2 := _generateRequestId env2 url2 (Options.requestKey o2) true).
  assert (Hid : id1 <> id2).
  { intros H. apply suppressed_id_injective in H. tauto. }
  split; [exact Hid|].
  destruct (request_suppressed id1 rp1 o1 st NC1 Y1)
    as (st1 & i1 & E1 & A1 & I1 & P1 & N1).
  destruct (request_suppressed id2 rp2 o2 st1 NC2 Y2)
    as (st2 & i2 & E2 & A2 & I2 & P2 & N2).
  set (r1 := length (infos st)) in *. set (r2 := length (infos st1)) in *.
  assert (Hr : r1 <> r2).
  { subst r1 r2. rewrite I1, length_app. simpl. lia. }
  assert (R1 : read_info r1 st2 = Some i1).
  { unfold read_info. rewrite I2, I1, nth_error_app1, nth_error_app2;
      [subst r1; now rewrite Nat.sub_diag| |]; subst r1;
      rewrite ?length_app; simpl; lia. }
  assert (R2 : read_info r2 st2 = Some i2).
  { unfold read_info. rewrite I2, nth_error_app2; subst r2;
      [now rewrite Nat.sub_diag|lia]. }
  assert (C1 : is_current {| k_requestId := id1; k_requestInfo := r1 |} st2 = true).
  { unfold is_current. simpl.
    rewrite A2, JSMapFacts.get_set_other, A1, JSMapFacts.get_set_same by congruence.
    apply Nat.eqb_refl. }
  assert (C2 : is_current {| k_requestId := id2; k_requestInfo := r2 |} st2 = true).
  { unfold is_current. simpl. rewrite A2, JSMapFacts.get_set_same.
    apply Nat.eqb_refl. }
  exists r1, st1, r2, st2.
  split; [unfold request; rewrite NC1; exact E1|].
  split; [unfold request; rewrite NC2; exact E2|].
  unfold info_isCancelled. rewrite R1, R2.
  split; [exact N1|]. split; [exact N2|].
  cbv zeta. split; [exact C1|]. split; [exact C2|].
  intros out1 out2.
  destruct (deliver_two {| k_requestId := id1; k_requestInfo := r1 |}
              {| k_requestId := id2; k_requestInfo := r2 |}
              out1 out2 st2 i1 i2) as (Ha1 & Ha2); auto.
  destruct (deliver_two {| k_requestId := id2; k_requestInfo := r2 |}
              {| k_requestId := id1; k_requestInfo := r1 |}
              out2 out1 st2 i2 i1) as (Hb2 & Hb1); auto.
Qed.

(** C4, on the code. The suppressed identity is made of the clock
    reading and the random text only, so it is not unique: two
    suppressed requests that read the same clock value and the same
    random text share their identity. The second registration takes the
    first entry's place in the table; the first entry is not cancelled,
    but its continuation is no longer current, and its proxy stays
    pending although its call fulfilled. *)
Theorem suppressed_requests_can_collide :
  _generateRequestId sample_env "/api/lazy" (Options.requestKey suppressed) true
  = "request_1700000000000_k3j9x0a1b" /\
  ~ suppression_independent quiet_manager sample_env sample_env
      "/api/lazy" "/api/lazy" (RPAwaited a_promise) (RPAwaited a_promise)
      suppressed suppressed /\
  getActiveCount (run (firstn 2 colliding) quiet_manager) = 1 /\
  wrapper_state 0 (run colliding quiet_manager) = Some Pending /\
  wrapper_state 1 (run colliding quiet_manager) = Some (Fulfilled (VString "second")) /\
  info_isCancelled 0 (run colliding quiet_manager) = false.
Proof.
  split; [reflexivity|]. split; [|vm_compute; repeat split].
  intros [H _]. apply H. reflexivity.
Qed.

(** ** What [cancel] calls, and a supplier that throws *)

Lemma In_effects_outside e st st' :
  outside st st' -> In e (effects st) -> In e (effects st').
Proof.
  intros (_ & _ & _ & ef & E & _) H. rewrite E. apply in_or_app. now left.
Qed.

Lemma emitted_then {A} e (m : M A) st :
  external m -> In e (effects (snd ((emit e ;; m) st))).
Proof.
  intros X. unfold bind, emit, modify.
  apply (In_effects_outside e _ _ (X _)). simpl.
  apply in_or_app. right. now left.
Qed.

Lemma snd_swallow m st : snd (swallow m st) = snd (m st).
Proof. unfold swallow, try_catch. now destruct (m st) as [[[]|e] st']. Qed.

Lemma abort_is_called c k st :
  read_controller c st = Some k ->
  In (AbortCalled c) (effects (snd (swallow (abort c) st))).
Proof.
  intros R. rewrite snd_swallow. unfold abort. unfold bind at 1. unfold gets.
  rewrite R. apply emitted_then.
  destruct (impl k); [destruct (aborted k)|]; auto with rm.
  apply external_bind; [auto with rm|]. intros _.
  apply external_forEach. intros l. apply external_swallow, external_run_listener.
Qed.

Lemma try_abort_calls r i k st :
  read_info r st = Some i ->
  read_controller (RequestInfo.abortController i) st = Some k ->
  aborted k = false ->
  In (AbortCalled (RequestInfo.abortController i))
     (effects (snd (try_abort r st))).
Proof.
  intros R C A. unfold try_abort, bind, gets, signal_aborted.
  rewrite R. simpl. rewrite C, A. simpl.
  pose proof (abort_is_called _ _ _ C) as H.
  now destruct (swallow (abort (RequestInfo.abortController i)) st) as [[[]|e] st'].
Qed.

Lemma try_cancelToken_calls r i tag b st :
  read_info r st = Some i ->
  RequestInfo.cancelToken i = Some (TokenFunction tag b) \/
  RequestInfo.cancelToken i = Some (TokenObject (MemberFn tag b)) ->
  In (CancelTokenCalled tag) (effects (snd (try_cancelToken r st))).
Proof.
  intros R T. unfold try_cancelToken, bind, gets. rewrite R.
  destruct T as [-> | ->]; simpl;
    rewrite snd_swallow; apply emitted_then, external_call.
Qed.

(** [cancel] on a tracked entry calls [abort] on the entry's controller
    if it is not aborted yet, and calls the entry's cancel function or
    [cancel] member. *)
Lemma cancel_invokes_mechanisms requestId r i st :
  JSMap.get requestId (activeRequests st) = Some r ->
  read_info r st = Some i ->
  (forall k,
      read_controller (RequestInfo.abortController i) st = Some k ->
      aborted k = false ->
      In (AbortCalled (RequestInfo.abortController i))
         (effects (exec (cancel requestId) st))) /\
  (forall tag b,
      RequestInfo.cancelToken i = Some (TokenFunction tag b) \/
      RequestInfo.cancelToken i = Some (TokenObject (MemberFn tag b)) ->
      In (CancelTokenCalled tag) (effects (exec (cancel requestId) st))).
Proof.
  intros G R.
  set (sta := with_infos (update r mark_cancelled (infos st)) st).
  assert (Ra : read_info r sta = Some (mark_cancelled i)).
  { unfold read_info in *. simpl. now rewrite nth_error_update_same, R. }
  destruct (total_external_run _ sta (total_try_abort r) (external_try_abort r))
    as (st1 & E1 & O1).
  destruct (total_external_run _ st1
              (total_try_cancelToken r) (external_try_cancelToken r))
    as (st2 & E2 & O2).
  assert (R1 : read_info r st1 = Some (mark_cancelled i)).
  { destruct O1 as (_ & I1 & _). unfold read_info in *. now rewrite I1. }
  assert (Tail : forall e, In e (effects st2) ->
                           In e (effects (exec (cancel requestId) st))).
  { intros e H. unfold exec, cancel. unfold bind at 1. unfold gets at 1.
    rewrite G. unfold bind at 1. unfold modify at 1. fold sta.
    unfold bind at 1. rewrite E1. unfold bind at 1. rewrite E2.
    unfold bind, gets, when, rejectWrapper, activeRequests_delete, emit,
      modify, ret.
    destruct (verbose st2); simpl; auto.
    apply in_or_app. now left. }
  split.
  - intros k C A. apply Tail. apply (In_effects_outside _ _ _ O2).
    pose proof (try_abort_calls r (mark_cancelled i) k sta Ra C A) as H.
    now rewrite E1 in H.
  - intros tag b T. apply Tail.
    pose proof (try_cancelToken_calls r (mark_cancelled i) tag b st1 R1 T) as H.
    now rewrite E2 in H.
Qed.

(** When the call supplier throws, [#_request] throws the same error
    before it reaches [cancel]: the table and the entries are as before. *)
Lemma throwing_supplier_cancels_nothing requestId requestPromise o st :
  supplier_returns requestPromise = false ->
  exists e st',
    _request requestId requestPromise o st = (Throw e, st') /\
    activeRequests st' = activeRequests st /\
    infos st' = infos st.
Proof.
  intros S.
  destruct (_request_phases requestId requestPromise o st) as (c & st1 & E1 & H).
  pose proof (external_choose_controller o st) as O1. rewrite E1 in O1.
  pose proof (external_prepare_call requestPromise o c st1) as O2.
  destruct (outside_trans _ _ _ O1 O2) as (A & I & _).
  destruct requestPromise as [tag [q|e]|url [q|e]|q]; try discriminate;
    simpl in *; eauto.
Qed.

(** ** The properties at sample inputs *)

Lemma supersession_witness :
  exists r2 st5,
    request sample_env "/api/a?page=2" (RPAwaited a_promise) Options.empty
            (run one_pending quiet_manager) = (Normal r2, st5) /\
    info_isCancelled r2 st5 = false /\
    forall later v, wrapper_state 0 (run later st5) <> Some (Fulfilled v).
Proof.
  assert (G : JSMap.get
                (_generateRequestId sample_env "/api/a?page=2"
                   (Options.requestKey Options.empty)
                   (Options.noCancel Options.empty))
                (activeRequests (run one_pending quiet_manager)) = Some 0)
    by (vm_compute; reflexivity).
  destruct (supersession {| mo_verbose := None |} one_pending sample_env
              "/api/a?page=2" (RPAwaited a_promise) Options.empty 0
              eq_refl G eq_refl)
    as (c & p & st1 & st2 & st3 & st4 & st5 & i1 & H).
  destruct H as (_ & _ & _ & _ & _ & _ & _ & _ & _ & H). cbv zeta in H.
  destruct H as (_ & _ & _ & _ & _ & E & C & L).
  exists (length (infos st3)), st5. split; [exact E|]. split; [exact C|].
  intros later. apply (L later).
Defined.

(** C1, as stated, fails when the call supplier of the second request
    throws: the request throws before it reaches [cancel]. The first
    entry, under the same identity, stays in the table, is not marked,
    its controller is not aborted, and its proxy is later fulfilled with
    the result of its own call. *)
Lemma throwing_submit_supersedes_nothing :
  let st := run one_pending quiet_manager in
  let second :=
    request sample_env "/api/a?page=2" (RPFunction 7 (inr (VString "boom")))
            Options.empty in
  let k := {| k_requestId := "request_/api/a"; k_requestInfo := 0 |} in
  JSMap.get "request_/api/a" (activeRequests st) = Some 0 /\
  fst (second st) = Throw (VString "boom") /\
  JSMap.get "request_/api/a" (activeRequests (exec second st)) = Some 0 /\
  info_isCancelled 0 (exec second st) = false /\
  signal_aborted 0 (exec second st) = false /\
  wrapper_state 0 (exec (on_fulfilled k (VString "first")) (exec second st))
  = Some (Fulfilled (VString "first")).
Proof. vm_compute. repeat split. Qed.

Lemma proxy_settled_once_by_current_entry_witness :
  let st := run superseded quiet_manager in
  let k := {| k_requestId := "request_/api/a"; k_requestInfo := 0 |} in
  on_fulfilled k (VString "first") st = (Normal tt, st) /\
  forall later, ~ tracked 0 (run later st).
Proof.
  intros st k.
  assert (C : is_current k st = false) by (vm_compute; reflexivity).
  assert (R : exists i, read_info 0 st = Some i)
    by (vm_compute; eexists; reflexivity).
  assert (T : ~ tracked 0 st).
  { assert (V : map snd (activeRequests st) = [1]) by (vm_compute; reflexivity).
    unfold tracked. rewrite V. intros [H|[]]. discriminate. }
  destruct R as [i R].
  destruct (proxy_settled_once_by_current_entry {| mo_verbose := None |} superseded)
    as (_ & Hstale & Hfrozen).
  split.
  - exact (proj1 (Hstale k (VString "first") C)).
  - intros later. exact (proj1 (proj2 (Hfrozen 0 i later R T))).
Defined.

Lemma suppressed_requests_independent_witness :
  suppression_independent quiet_manager sample_env other_env
    "/api/lazy" "/api/lazy" (RPAwaited a_promise) (RPAwaited a_promise)
    suppressed suppressed.
Proof.
  apply suppressed_requests_independent; try reflexivity.
  left. simpl. discriminate.
Defined.

Lemma cancel_twice_witness :
  let st := run one_pending quiet_manager in
  cancel "request_/api/none" st = (Normal false, st) /\
  exists st1,
    cancel "request_/api/a" st = (Normal true, st1) /\
    cancel "request_/api/a" st1 = (Normal false, st1).
Proof.
  intros st.
  assert (G0 : JSMap.get "request_/api/none" (activeRequests st) = None)
    by (vm_compute; reflexivity).
  assert (G1 : JSMap.get "request_/api/a" (activeRequests st) = Some 0)
    by (vm_compute; reflexivity).
  split.
  - exact (proj1 (cancel_twice st "request_/api/none") G0).
  - destruct (proj2 (cancel_twice st "request_/api/a") 0 G1)
      as (st1 & E & _ & _ & E').
    exists st1. split; assumption.
Defined.

Lemma cancelAll_cancels_every_entry_witness :
  let st := run two_pending quiet_manager in
  exists st' ef,
    cancelAll st = (Normal 2, st') /\
    getActiveCount st' = 0 /\
    effects st' = (effects st ++ ef)%list /\
    info_isCancelled 0 st' = true /\
    info_isCancelled 1 st' = true /\
    In (AbortCalled 0) ef /\
    In (AbortCalled 1) ef /\
    signal_aborted 0 st' = true /\
    signal_aborted 1 st' = true.
Proof.
  intros st.
  assert (K : JSMap.keys (activeRequests st) = ["request_/api/a"; "request_/api/b"])
    by (vm_compute; reflexivity).
  assert (ND : NoDup (JSMap.keys (activeRequests st))).
  { rewrite K. constructor; [|constructor; [intros []|constructor]].
    intros [H|[]]. discriminate. }
  assert (N : getActiveCount st = 2) by (vm_compute; reflexivity).
  assert (Ga : JSMap.get "request_/api/a" (activeRequests st) = Some 0)
    by (vm_compute; reflexivity).
  assert (Gb : JSMap.get "request_/api/b" (activeRequests st) = Some 1)
    by (vm_compute; reflexivity).
  assert (Ra : exists i, read_info 0 st = Some i /\ RequestInfo.abortController i = 0)
    by (vm_compute; eexists; split; reflexivity).
  assert (Rb : exists i, read_info 1 st = Some i /\ RequestInfo.abortController i = 1)
    by (vm_compute; eexists; split; reflexivity).
  assert (Ca : read_controller 0 st =
               Some {| aborted := false; impl := NativeAbort; listeners := [] |})
    by (vm_compute; reflexivity).
  assert (Cb : read_controller 1 st =
               Some {| aborted := false; impl := NativeAbort; listeners := [] |})
    by (vm_compute; reflexivity).
  destruct Ra as (ia & Ra & Aa). destruct Rb as (ib & Rb & Ab).
  destruct (cancelAll_cancels_every_entry st 2 ND N) as (st' & ef & E & Z & _ & F & C).
  destruct (C "request_/api/a" 0 ia Ga Ra) as (Ma & (Ha & Sa & _) & _).
  destruct (C "request_/api/b" 1 ib Gb Rb) as (Mb & (Hb & Sb & _) & _).
  rewrite Aa in Ha, Sa. rewrite Ab in Hb, Sb.
  exists st', ef. repeat split; eauto.
Defined.

Lemma request_without_controller_uses_fresh_one_witness :
  let st := run one_pending quiet_manager in
  exists r st' i,
    _request "request_/api/b" (RPFunction 1 (inl a_promise)) Options.empty st
    = (Normal r, st') /\
    read_info r st' = Some i /\
    RequestInfo.abortController i = 1 /\
    0 <> 1.
Proof.
  intros st.
  assert (L : length (controllers st) = 1) by (vm_compute; reflexivity).
  assert (O : read_controller 0 st <> None) by (vm_compute; discriminate).
  destruct (request_without_controller_uses_fresh_one "request_/api/b"
              (RPFunction 1 (inl a_promise)) Options.empty st eq_refl)
    as (st1 & _ & _ & _ & _ & Hold & _ & _ & Hentry).
  destruct (Hentry eq_refl) as (r & st' & i & E & R & A).
  rewrite L in *.
  exists r, st', i. split; [exact E|]. split; [exact R|]. split; [exact A|].
  exact (proj1 (Hold 0 O)).
Defined.

(** * Further properties *)

(** ** The cleaned URL *)

Lemma string_app_assoc (a b c : string) : ((a ++ b) ++ c = a ++ (b ++ c))%string.
Proof. induction a as [|x a IH]; simpl; [reflexivity|now rewrite IH]. Qed.

Lemma string_app_nil_r (a : string) : (a ++ "" = a)%string.
Proof. induction a as [|x a IH]; simpl; [reflexivity|now rewrite IH]. Qed.

Lemma first_piece_char c piece s :
  JSString.at_index 0 (JSString.split_from (char c) 0 piece s)
  = (piece ++ before_char c s)%string.
Proof.
  revert piece. induction s as [|b s IH]; intros piece; simpl.
  - now rewrite string_app_nil_r.
  - destruct (Ascii.eqb c b); simpl.
    + now rewrite string_app_nil_r.
    + rewrite IH, string_app_assoc. reflexivity.
Qed.

Lemma includes_char_cons c b s :
  JSString.includes (char c) (String b s)
  = (Ascii.eqb c b || JSString.includes (char c) s)%bool.
Proof. simpl. now rewrite andb_true_r. Qed.

Lemma before_char_absent c s :
  JSString.includes (char c) s = false -> before_char c s = s.
Proof.
  induction s as [|b s IH]; [reflexivity|].
  rewrite includes_char_cons. intros H. apply orb_false_iff in H.
  destruct H as [E H]. simpl. rewrite E, (IH H). reflexivity.
Qed.

Lemma before_char_clean c s :
  JSString.includes (char c) (before_char c s) = false.
Proof.
  induction s as [|b s IH]; [reflexivity|]. simpl.
  destruct (Ascii.eqb c b) eqn:E; [reflexivity|].
  rewrite includes_char_cons, E, IH. reflexivity.
Qed.

Lemma before_char_keeps_absent c d s :
  JSString.includes (char c) s = false ->
  JSString.includes (char c) (before_char d s) = false.
Proof.
  induction s as [|b s IH]; [reflexivity|].
  rewrite includes_char_cons. intros H. apply orb_false_iff in H.
  destruct H as [E H]. simpl. destruct (Ascii.eqb d b); [reflexivity|].
  rewrite includes_char_cons, E, (IH H). reflexivity.
Qed.

(** Splitting at a character and taking the first piece is
    [before_char], whether the character occurs or not. *)
Lemma strip_from_char c s :
  (if JSString.includes (char c) s
   then JSString.at_index 0 (JSString.split (char c) s)
   else s) = before_char c s.
Proof.
  destruct (JSString.includes (char c) s) eqn:E.
  - unfold JSString.split. now rewrite first_piece_char.
  - now rewrite before_char_absent.
Qed.

(** The three steps of the cleaning, the last two as [before_char]. *)
Lemma clean_url_steps url :
  clean_url url =
  before_char "#"
    (before_char "?"
       (if JSString.includes "://" url
        then JSString.at_index 1 (JSString.split "://" url)
        else url)).
Proof.
  unfold clean_url. cbv zeta.
  rewrite (strip_from_char "?"), (strip_from_char "#"). reflexivity.
Qed.

(** X1. Whatever the URL, the cleaned URL holds no question mark and no
    hash sign: a URL-derived identity never carries a query string or a
    fragment. *)
Theorem clean_url_has_no_query_or_fragment url :
  JSString.includes "?" (clean_url url) = false /\
  JSString.includes "#" (clean_url url) = false.
Proof.
  rewrite clean_url_steps. split.
  - apply (before_char_keeps_absent "?" "#"), (before_char_clean "?").
  - apply (before_char_clean "#").
Qed.

Lemma before_char_app_other c base s :
  JSString.includes (char c) base = false ->
  before_char c (base ++ s) = (base ++ before_char c s)%string.
Proof.
  induction base as [|b base IH]; [reflexivity|].
  rewrite includes_char_cons. intros H. apply orb_false_iff in H.
  destruct H as [E H]. simpl. rewrite E, (IH H). reflexivity.
Qed.

Lemma before_char_app c base tail :
  JSString.includes (char c) base = false ->
  before_char c (base ++ String c tail) = base.
Proof.
  intros H. rewrite (before_char_app_other c base _ H). simpl.
  now rewrite Ascii.eqb_refl, string_app_nil_r.
Qed.

(** X2. A URL without "://" whose first question mark or hash sign comes
    after [base] is cleaned to [base]: what follows the first of them
    does not reach the identity. *)
Theorem clean_url_drops_query_and_fragment base d tail :
  d = "?"%char \/ d = "#"%char ->
  JSString.includes "?" base = false ->
  JSString.includes "#" base = false ->
  JSString.includes "://" (base ++ String d tail) = false ->
  clean_url (base ++ String d tail) = base.
Proof.
  intros D Q F S. rewrite clean_url_steps, S. destruct D as [-> | ->].
  - rewrite (before_char_app "?" base tail Q). now apply before_char_absent.
  - rewrite (before_char_app_other "?" base _ Q). simpl.
    now apply (before_char_app "#").
Qed.

Lemma split_no_match sep s : forall piece,
  JSString.includes sep s = false ->
  JSString.split_from sep 0 piece s = [(piece ++ s)%string].
Proof.
  induction s as [|c s IH]; intros piece H.
  - simpl. now rewrite string_app_nil_r.
  - change (JSString.includes sep (String c s))
      with (JSString.startsWith sep (String c s) || JSString.includes sep s)%bool in H.
    apply orb_false_iff in H. destruct H as [H1 H2].
    change (JSString.split_from sep 0 piece (String c s))
      with (if JSString.startsWith sep (String c s)
            then piece :: JSString.split_from sep (String.length sep - 1) "" s
            else JSString.split_from sep 0 (piece ++ String c "") s).
    rewrite H1, (IH _ H2), string_app_assoc. reflexivity.
Qed.

Lemma split_scheme_scan a : forall piece rest,
  JSString.includes ":" a = false ->
  JSString.split_from "://" 0 piece (a ++ rest)
  = JSString.split_from "://" 0 (piece ++ a) rest.
Proof.
  induction a as [|x a IH]; intros piece rest H.
  - simpl. now rewrite string_app_nil_r.
  - pose proof (includes_char_cons ":" x a) as E0. unfold char in E0.
    rewrite E0 in H. clear E0. apply orb_false_iff in H.
    destruct H as [E H].
    change (JSString.split_from "://" 0 piece (String x a ++ rest))
      with (if JSString.startsWith "://" (String x (a ++ rest))
            then piece :: JSString.split_from "://" (String.length "://" - 1) ""
                            (a ++ rest)
            else JSString.split_from "://" 0 (piece ++ String x "") (a ++ rest)).
    change (JSString.startsWith "://" (String x (a ++ rest)))
      with (Ascii.eqb ":" x && JSString.startsWith "//" (a ++ rest))%bool.
    rewrite E. simpl.
    rewrite (IH _ _ H), string_app_assoc. reflexivity.
Qed.

Lemma includes_scheme a b :
  JSString.includes "://" (a ++ "://" ++ b) = true.
Proof.
  induction a as [|x a IH]; [reflexivity|].
  change (JSString.includes "://" (String x a ++ "://" ++ b))
    with (JSString.startsWith "://" (String x (a ++ "://" ++ b))
          || JSString.includes "://" (a ++ "://" ++ b))%bool.
  rewrite IH. apply orb_true_r.
Qed.

(** X3. What stands before the first "://" is dropped, be it a scheme
    or a path with a query string: with no colon in [a] and no "://" in
    [b], the URL [a://b] is cleaned as [b] is. *)
Theorem clean_url_keeps_what_follows_scheme a b :
  JSString.includes ":" a = false ->
  JSString.includes "://" b = false ->
  clean_url (a ++ "://" ++ b) = clean_url b.
Proof.
  intros A B. rewrite !clean_url_steps, includes_scheme, B.
  unfold JSString.split. rewrite (split_scheme_scan a "" _ A). simpl.
  rewrite (split_no_match "://" b "" B). reflexivity.
Qed.

Lemma clean_url_drops_query_and_fragment_witness :
  clean_url "h/api/x?y=1#z" = "h/api/x" /\ clean_url "h/api/x#z?y=1" = "h/api/x".
Proof.
  split.
  - apply (clean_url_drops_query_and_fragment "h/api/x" "?" "y=1#z");
      [now left|reflexivity..].
  - apply (clean_url_drops_query_and_fragment "h/api/x" "#" "z?y=1");
      [now right|reflexivity..].
Defined.

Lemma clean_url_keeps_what_follows_scheme_witness :
  clean_url "https://h/api/x" = clean_url "h/api/x" /\
  clean_url "/login?next=http://h/api/x" = clean_url "h/api/x".
Proof.
  split.
  - apply (clean_url_keeps_what_follows_scheme "https" "h/api/x"); reflexivity.
  - apply (clean_url_keeps_what_follows_scheme "/login?next=http" "h/api/x");
      reflexivity.
Defined.

(** ** The prepared options *)

Lemma object_get_set_other key k v obj :
  k <> key -> object_get k (object_set key v obj) = object_get k obj.
Proof.
  intros Hne. induction obj as [|[k0 x] obj IH]; simpl.
  - destruct (String.eqb k key) eqn:E; [|reflexivity].
    apply String.eqb_eq in E. congruence.
  - destruct (String.eqb key k0) eqn:E; simpl.
    + apply String.eqb_eq in E. subst k0.
      destruct (String.eqb k key) eqn:E'; [|reflexivity].
      apply String.eqb_eq in E'. congruence.
    + now rewrite IH.
Qed.

Lemma object_get_snoc k (obj : js_object) key v :
  object_get k (obj ++ [(key, v)])%list =
  match object_get k obj with
  | Some x => Some x
  | None => if String.eqb k key then Some v else None
  end.
Proof.
  induction obj as [|[k0 x] obj IH]; simpl; [reflexivity|].
  destruct (String.eqb k k0); [reflexivity|exact IH].
Qed.

Lemma is_custom_In k :
  existsb (String.eqb k) customOptions = true <-> In k customOptions.
Proof.
  rewrite existsb_exists. split.
  - intros (x & Hx & E). apply String.eqb_eq in E. now subst.
  - intros H. exists k. split; [exact H|apply String.eqb_refl].
Qed.

Lemma object_get_assign_other key k v obj :
  k <> key -> object_get k (object_assign key v obj) = object_get k obj.
Proof.
  intros Hne. unfold object_assign.
  destruct (String.eqb key "__proto__"); [reflexivity|].
  now apply object_get_set_other.
Qed.

Lemma object_get_assign key v obj :
  key <> "__proto__" -> object_get key (object_assign key v obj) = Some v.
Proof.
  intros Hne. unfold object_assign.
  destruct (String.eqb key "__proto__") eqn:E.
  - apply String.eqb_eq in E. contradiction.
  - apply object_get_set.
Qed.

(** The loop of [#_prepareFetchOptions] over [rest], from the object
    [acc]: a private key and "__proto__" are as in [acc]; another key has
    the value of its last occurrence in [rest], if any. *)
Lemma copy_options_get k rest : forall acc,
  object_get k
    (fold_left
       (fun fetchOptions kv =>
          if existsb (String.eqb (fst kv)) customOptions then fetchOptions
          else object_assign (fst kv) (snd kv) fetchOptions)
       rest acc) =
  if existsb (String.eqb k) customOptions || String.eqb k "__proto__"
  then object_get k acc
  else match object_get k (rev rest) with
       | Some x => Some x
       | None => object_get k acc
       end.
Proof.
  induction rest as [|[key v] rest IH]; intros acc.
  - now destruct (existsb (String.eqb k) customOptions || String.eqb k "__proto__").
  - cbn [fold_left rev fst snd]. rewrite IH, object_get_snoc.
    assert (Other : k <> key ->
              object_get k
                (if existsb (String.eqb key) customOptions then acc
                 else object_assign key v acc) = object_get k acc).
    { intros Hne. destruct (existsb (String.eqb key) customOptions);
        [reflexivity|now apply object_get_assign_other]. }
    destruct (String.eqb k key) eqn:E.
    + apply String.eqb_eq in E. subst key.
      destruct (existsb (String.eqb k) customOptions) eqn:Ck; simpl; [reflexivity|].
      destruct (String.eqb k "__proto__") eqn:Ep.
      * apply String.eqb_eq in Ep. subst k. reflexivity.
      * destruct (object_get k (rev rest)); [reflexivity|].
        apply object_get_assign. intros ->. discriminate.
    + assert (Hne : k <> key)
        by (intros ->; rewrite String.eqb_refl in E; discriminate).
      rewrite (Other Hne).
      destruct (existsb (String.eqb k) customOptions || String.eqb k "__proto__");
        [reflexivity|].
      now destruct (object_get k (rev rest)).
Qed.

(** X4. The own properties of the options handed to the transport: none
    of the four private keys, no "__proto__"; [signal] is the one given,
    whatever the caller put under that key; every other key is forwarded
    with the value of its last occurrence. *)
Theorem prepared_options_forwarding o signal k :
  (In k customOptions ->
   object_get k (_prepareFetchOptions o signal []) = None) /\
  (k = "__proto__" ->
   object_get k (_prepareFetchOptions o signal []) = None) /\
  (k = "signal" ->
   object_get k (_prepareFetchOptions o signal []) = Some (PSignal signal)) /\
  (~ In k customOptions -> k <> "signal" -> k <> "__proto__" ->
   object_get k (_prepareFetchOptions o signal [])
   = object_get k (rev (Options.rest o))).
Proof.
  unfold _prepareFetchOptions. split; [|split; [|split]].
  - intros H. assert (k <> "signal").
    { intros ->. simpl in H. intuition discriminate. }
    rewrite object_get_assign_other, copy_options_get by assumption.
    apply is_custom_In in H. now rewrite H.
  - intros ->. rewrite object_get_assign_other, copy_options_get by discriminate.
    reflexivity.
  - intros ->. now apply object_get_assign.
  - intros H Hs Hp.
    rewrite object_get_assign_other, copy_options_get by assumption.
    destruct (existsb (String.eqb k) customOptions) eqn:E.
    + apply is_custom_In in E. contradiction.
    + destruct (String.eqb k "__proto__") eqn:Ep.
      * apply String.eqb_eq in Ep. contradiction.
      * simpl. now destruct (object_get k (rev (Options.rest o))).
Qed.

Lemma prepared_options_forwarding_witness :
  let o := {| Options.abortController := None; Options.cancelToken := None;
              Options.requestKey := KeyAbsent; Options.noCancel := false;
              Options.rest := [("method", PValue (VString "POST"));
                               ("signal", PSignal 7);
                               ("__proto__", PValue (VObject 9));
                               ("noCancel", PValue (VNumber 1))] |} in
  object_get "noCancel" (_prepareFetchOptions o 3 []) = None /\
  object_get "__proto__" (_prepareFetchOptions o 3 []) = None /\
  object_get "signal" (_prepareFetchOptions o 3 []) = Some (PSignal 3) /\
  object_get "method" (_prepareFetchOptions o 3 []) = Some (PValue (VString "POST")).
Proof.
  intros o. split; [|split; [|split]].
  - apply (proj1 (prepared_options_forwarding o 3 "noCancel")).
    simpl. tauto.
  - apply (proj1 (proj2 (prepared_options_forwarding o 3 "__proto__"))).
    reflexivity.
  - apply (proj1 (proj2 (proj2 (prepared_options_forwarding o 3 "signal")))).
    reflexivity.
  - rewrite (proj2 (proj2 (proj2 (prepared_options_forwarding o 3 "method")))).
    + reflexivity.
    + simpl. intuition discriminate.
    + discriminate.
    + discriminate.
Defined.

(** ** Tracked entries *)

Lemma get_injective m : forall k k' v,
  NoDup (map snd m) ->
  JSMap.get k m = Some v -> JSMap.get k' m = Some v -> k = k'.
Proof.
  induction m as [|[k0 v0] m IH]; intros k k' v ND; simpl; [discriminate|].
  inversion ND as [|? ? Hnin ND']; subst.
  destruct (String.eqb k k0) eqn:E, (String.eqb k' k0) eqn:E'.
  - apply String.eqb_eq in E, E'. congruence.
  - intros [= ->] H. exfalso. apply Hnin. exact (JSMapFacts.get_value _ _ _ H).
  - intros H [= ->]. exfalso. apply Hnin. exact (JSMapFacts.get_value _ _ _ H).
  - now apply IH.
Qed.

Lemma delete_length m : forall k v,
  NoDup (JSMap.keys m) -> JSMap.get k m = Some v ->
  S (length (JSMap.delete k m)) = length m.
Proof.
  unfold JSMap.keys, JSMap.delete.
  induction m as [|[k0 v0] m IH]; intros k v ND; simpl; [discriminate|].
  inversion ND as [|? ? Hnin ND']; subst.
  destruct (String.eqb k k0) eqn:E; simpl.
  - intros _. f_equal. apply String.eqb_eq in E. subst k0.
    clear IH ND ND'. induction m as [|[k1 v1] m IH]; simpl; [reflexivity|].
    simpl in Hnin. destruct (String.eqb k k1) eqn:E1.
    + apply String.eqb_eq in E1. subst. tauto.
    + simpl. f_equal. apply IH. tauto.
  - intros H. f_equal. exact (IH _ _ ND' H).
Qed.

Lemma tracked_entry managerOptions evs requestId r :
  let st := run evs (new_RequestManager managerOptions) in
  JSMap.get requestId (activeRequests st) = Some r ->
  exists i,
    read_info r st = Some i /\
    RequestInfo.wrapperPromise i = Pending /\
    RequestInfo.isCancelled i = false.
Proof.
  intros st G.
  destruct (wf_tracked _ (WF_run managerOptions evs) r
              (JSMapFacts.get_value _ _ _ G)) as (_ & _ & P & N).
  fold st in P, N. unfold wrapper_state, info_isCancelled in *.
  destruct (read_info r st) as [i|]; [|discriminate].
  simpl in P. injection P as P. eauto.
Qed.

(** X5. In every state the manager can reach, an entry of the table has
    a pending proxy, is not marked cancelled and its resolvers were never
    called, and one entry stands under one identity only. *)
Theorem tracked_entries_are_pending managerOptions evs :
  let st := run evs (new_RequestManager managerOptions) in
  (forall requestId r,
      JSMap.get requestId (activeRequests st) = Some r ->
      wrapper_state r st = Some Pending /\
      info_isCancelled r st = false /\
      settle_calls r (effects st) = 0) /\
  (forall requestId requestId' r,
      JSMap.get requestId (activeRequests st) = Some r ->
      JSMap.get requestId' (activeRequests st) = Some r ->
      requestId = requestId') /\
  getActiveCount st <= length (infos st).
Proof.
  intros st. pose proof (WF_run managerOptions evs) as W. fold st in W.
  split; [|split].
  - intros requestId r G.
    destruct (wf_tracked _ W r (JSMapFacts.get_value _ _ _ G)) as (_ & C & P & N).
    auto.
  - intros requestId requestId' r G G'.
    exact (get_injective _ _ _ _ (wf_values _ W) G G').
  - unfold getActiveCount, JSMap.size.
    rewrite <- (length_map snd).
    replace (length (infos st)) with (length (seq 0 (length (infos st))))
      by apply length_seq.
    apply NoDup_incl_length; [exact (wf_values _ W)|].
    intros r T. apply in_seq. pose proof (tracked_in_range _ _ W T). lia.
Qed.


(** X7. Cancelling is final. After [cancel] of a tracked identity the
    proxy is pending, or rejected with the cancellation message when the
    manager is verbose, and whatever happens later (the call ending, new
    requests under the same identity) it stays so. *)
Theorem cancelled_proxy_never_settles managerOptions evs requestId r later :
  let st := run evs (new_RequestManager managerOptions) in
  JSMap.get requestId (activeRequests st) = Some r ->
  wrapper_state r (run later (exec (cancel requestId) st)) =
    Some (if verbose st then Rejected (cancel_message requestId) else Pending) /\
  info_isCancelled r (run later (exec (cancel requestId) st)) = true /\
  ~ tracked r (run later (exec (cancel requestId) st)).
Proof.
  intros st G.
  destruct (tracked_entry managerOptions evs requestId r G) as (i & R & P & N).
  fold st in R.
  pose proof (WF_run managerOptions evs) as W. fold st in W.
  destruct (cancel_present _ _ _ G) as (st' & ef & E & A & I & _).
  unfold exec. rewrite E. simpl.
  assert (F : frozen r (cancel_mark (verbose st) requestId i)
                (settle_calls r (effects st')) st').
  { repeat split.
    - unfold read_info in *. now rewrite I, nth_error_update_same, R.
    - unfold tracked. rewrite A.
      exact (JSMapFacts.delete_removes_value _ _ _ (wf_values _ W) G). }
  destruct (frozen_run r _ _ _ later F) as (R' & T' & _).
  unfold wrapper_state, info_isCancelled. rewrite R'. simpl.
  unfold cancel_mark. destruct (verbose st); simpl; rewrite ?P; auto.
Qed.

Lemma tracked_entries_are_pending_witness :
  let st := run two_pending quiet_manager in
  wrapper_state 1 st = Some Pending /\ info_isCancelled 1 st = false.
Proof.
  intros st.
  assert (G : JSMap.get "request_/api/b" (activeRequests st) = Some 1)
    by (vm_compute; reflexivity).
  destruct (proj1 (tracked_entries_are_pending {| mo_verbose := None |} two_pending)
              "request_/api/b" 1 G) as (P & N & _).
  split; assumption.
Defined.


Lemma cancelled_proxy_never_settles_witness :
  let st := run one_pending quiet_manager in
  let k := {| k_requestId := "request_/api/a"; k_requestInfo := 0 |} in
  wrapper_state 0 (run [Turn_fulfilled k (VString "late")]
                       (exec (cancel "request_/api/a") st)) = Some Pending.
Proof.
  intros st k.
  assert (G : JSMap.get "request_/api/a" (activeRequests st) = Some 0)
    by (vm_compute; reflexivity).
  exact (proj1 (cancelled_proxy_never_settles {| mo_verbose := None |} one_pending
                  "request_/api/a" 0 [Turn_fulfilled k (VString "late")] G)).
Defined.

(** ** The controller slot and abort listeners *)

(** X8. The controller slot is stable: after one query, further queries
    of [getAbortController] and [getSignal] return the same controller
    and change nothing; the query never touches the table, the entries
    or the trace. *)
Theorem controller_slot_is_stable st :
  exists c st1,
    getAbortController st = (Normal c, st1) /\
    getAbortController st1 = (Normal c, st1) /\
    getSignal st1 = (Normal c, st1) /\
    abortController st1 = Some c /\
    signal_aborted c st1 = false /\
    activeRequests st1 = activeRequests st /\
    infos st1 = infos st /\
    effects st1 = effects st.
Proof.
  assert (F : forall st0,
             let n := length (controllers st0) in
             let st1 := with_abortController (Some n)
                          (with_world
                             (controllers st0 ++
                              [{| aborted := false; impl := NativeAbort;
                                  listeners := [] |}])
                             (effects st0) st0) in
             abortController st1 = Some n /\ signal_aborted n st1 = false).
  { intros st0 n st1. split; [reflexivity|].
    unfold signal_aborted, read_controller. simpl.
    now rewrite nth_error_app2, Nat.sub_diag by lia. }
  unfold getSignal, getAbortController, bind, gets.
  destruct (abortController st) as [c|] eqn:S.
  - destruct (signal_aborted c st) eqn:A.
    + destruct (F st) as (S1 & A1). simpl.
      eexists _, _. split; [reflexivity|]. rewrite S1, A1. repeat split; auto.
    + exists c, st. rewrite S, A. repeat split; auto.
  - destruct (F st) as (S1 & A1). simpl.
    eexists _, _. split; [reflexivity|]. rewrite S1, A1. repeat split; auto.
Qed.

(** X9. Once the controller of the slot is aborted, the next query makes
    a new, unaborted controller and leaves the aborted one as it is:
    query, abort, query gives two different controllers. *)
Theorem aborted_slot_controller_is_replaced st c k :
  abortController st = Some c ->
  read_controller c st = Some k ->
  impl k = NativeAbort ->
  let st1 := step (User_abort c) st in
  exists c' st2,
    getAbortController st1 = (Normal c', st2) /\
    c' <> c /\
    signal_aborted c st1 = true /\
    signal_aborted c st2 = true /\
    signal_aborted c' st2 = false /\
    abortController st2 = Some c'.
Proof.
  intros S R I st1.
  assert (L : c < length (controllers st)).
  { apply nth_error_Some. unfold read_controller in R. congruence. }
  assert (H : abortController st1 = Some c /\ signal_aborted c st1 = true /\
              length (controllers st1) = length (controllers st)).
  { subst st1. simpl. unfold exec. rewrite snd_swallow.
    destruct (aborted k) eqn:A.
    - unfold abort, bind, gets, emit, modify. rewrite R. simpl. rewrite I, A.
      simpl. repeat split; auto.
      unfold signal_aborted, read_controller in *. simpl. now rewrite R.
    - destruct (native_abort c k st R I A) as (ef & E & _). rewrite E. simpl.
      repeat split; auto.
      + now apply signal_aborted_after_update.
      + apply update_length. }
  destruct H as (S1 & A1 & L1).
  exists (length (controllers st1)). eexists. split; [|split; [|split; [|split; [|split]]]].
  - unfold getAbortController, bind, gets. rewrite S1, A1. reflexivity.
  - lia.
  - exact A1.
  - unfold signal_aborted, read_controller in *. simpl.
    rewrite nth_error_app1 by lia. exact A1.
  - unfold signal_aborted, read_controller. simpl.
    now rewrite nth_error_app2, Nat.sub_diag by lia.
  - reflexivity.
Qed.

(** X10. [addAbortListener] without a signal does nothing. With the
    signal of a platform controller that is not aborted, aborting the
    controller calls the linked method, and completes normally even when
    the method throws; the table and the entries are not touched. *)
Theorem linked_abort_method_is_called st c k tag b m :
  addAbortListener m None st = (Normal tt, st) /\
  (read_controller c st = Some k ->
   impl k = NativeAbort ->
   aborted k = false ->
   let st1 := exec (addAbortListener (AbortFn tag b) (Some c)) st in
   exists st2 ef,
     abort c st1 = (Normal tt, st2) /\
     effects st2 = (effects st ++ ef)%list /\
     In (AbortMethodCalled tag) ef /\
     signal_aborted c st2 = true /\
     activeRequests st2 = activeRequests st /\
     infos st2 = infos st).
Proof.
  split; [reflexivity|]. intros R I A st1.
  assert (L : c < length (controllers st)).
  { apply nth_error_Some. unfold read_controller in R. congruence. }
  assert (R1 : read_controller c st1
               = Some (add_listener (LinkedAbort (AbortFn tag b)) k)).
  { unfold read_controller in *. subst st1. simpl.
    now rewrite nth_error_update_same, R. }
  destruct (native_abort c _ st1 R1 I A) as (ef & E & _ & H).
  eexists _, ef. split; [exact E|]. simpl. repeat split; auto.
  - apply (H tag b). simpl. apply in_or_app. right. now left.
  - unfold signal_aborted, read_controller. simpl.
    rewrite nth_error_update_same, nth_error_update_same.
    unfold read_controller in R. now rewrite R.
Qed.

Lemma aborted_slot_controller_is_replaced_witness :
  let st := exec getAbortController quiet_manager in
  exists st2,
    getAbortController (step (User_abort 0) st) = (Normal 1, st2) /\
    signal_aborted 1 st2 = false.
Proof.
  intros st.
  destruct (aborted_slot_controller_is_replaced st 0
              {| aborted := false; impl := NativeAbort; listeners := [] |}
              eq_refl eq_refl eq_refl) as (c' & st2 & E & _ & _ & _ & A & _).
  assert (E' : getAbortController (step (User_abort 0) st) = (Normal 1, st2)).
  { rewrite E. f_equal. f_equal.
    assert (V : fst (getAbortController (step (User_abort 0) st)) = Normal 1)
      by (vm_compute; reflexivity).
    rewrite E in V. simpl in V. now injection V. }
  exists st2. split; [exact E'|].
  rewrite E in E'. injection E' as ->. exact A.
Defined.

Lemma linked_abort_method_is_called_witness :
  let st := exec getAbortController quiet_manager in
  let st1 := exec (addAbortListener (AbortFn 5 (Throws (VString "boom"))) (Some 0)) st in
  exists st2, abort 0 st1 = (Normal tt, st2) /\
              In (AbortMethodCalled 5) (effects st2).
Proof.
  intros st st1.
  destruct (proj2 (linked_abort_method_is_called st 0
                     {| aborted := false; impl := NativeAbort; listeners := [] |}
                     5 (Throws (VString "boom")) NotCallable)
              eq_refl eq_refl eq_refl) as (st2 & ef & E & F & H & _).
  exists st2. split; [exact E|]. rewrite F. apply in_or_app. now right.
Defined.

(** ** The signal given to the transport, and thenables that throw *)

Lemma In_effects_move e st st' : move st st' -> In e (effects st) -> In e (effects st').
Proof.
  intros M H.
  destruct M as [A I [ef [E Q]]|requestId r v ef G A I E Q|requestId r p x G S A I E
                |requestId A I E|requestId i P C A I E|A I E];
    rewrite E; auto; apply in_or_app; now left.
Qed.

Lemma In_effects_moves e st st' : moves st st' -> In e (effects st) -> In e (effects st').
Proof.
  intros M. induction M as [st|st1 st2 st3 M IH M']; [auto|].
  intros H. exact (In_effects_move e _ _ M' (IH H)).
Qed.

Lemma choose_supplied_controller o c0 st :
  Options.abortController o = Some c0 ->
  exists st1, choose_controller o st = (Normal c0, st1).
Proof. intros H. unfold choose_controller. rewrite H. eexists. reflexivity. Qed.

(** X11. The signal handed to a call supplier or to the global [fetch]
    is the signal of the controller stored in the entry: the one of the
    options when they carry one. If the entry is still tracked, [cancel]
    calls [abort] on that controller unless it is aborted already. *)
Theorem transport_signal_is_entry_controller env url requestPromise o st :
  supplier_returns requestPromise = true ->
  let requestId :=
    _generateRequestId env url (Options.requestKey o) (Options.noCancel o) in
  exists c r st' i,
    request env url requestPromise o st = (Normal r, st') /\
    read_info r st' = Some i /\
    RequestInfo.abortController i = c /\
    (forall c0, Options.abortController o = Some c0 -> c = c0) /\
    object_get "signal" (_prepareFetchOptions o c []) = Some (PSignal c) /\
    match requestPromise with
    | RPFunction tag _ =>
        In (SupplierCalled tag (_prepareFetchOptions o c [])) (effects st')
    | RPString u _ =>
        In (FetchCalled u (_prepareFetchOptions o c [])) (effects st')
    | RPAwaited _ => True
    end /\
    (forall k,
        JSMap.get requestId (activeRequests st') = Some r ->
        read_controller c st' = Some k ->
        aborted k = false ->
        In (AbortCalled c) (effects (exec (cancel requestId) st'))).
Proof.
  intros S requestId. unfold request. fold requestId.
  destruct (_request_phases requestId requestPromise o st) as (c & st1 & E1 & H).
  destruct (_request_entry requestId requestPromise o st c st1 E1 S)
    as (r & st' & i & E & R & A & _).
  exists c, r, st', i. split; [exact E|]. split; [exact R|]. split; [exact A|].
  split.
  { intros c0 H0. destruct (choose_supplied_controller o c0 st H0) as (st1' & E1').
    rewrite E1 in E1'. now injection E1'. }
  split; [apply prepared_signal|]. split.
  - destruct (prepare_call requestPromise o c st1) as [[p|e] st2] eqn:E2.
    + cbv zeta in H. destruct H as (st4 & st5 & E4 & E5 & E').
      rewrite E in E'. injection E' as _ <-.
      assert (M : moves st2 st').
      { eapply moves_trans; [|eapply moves_trans].
        - pose proof (moving_when (negb (Options.noCancel o))
                        (cancel requestId ;; ret tt)
                        (moving_bind _ _ (moving_cancel requestId)
                           (fun _ => moving_ret tt)) st2) as M.
          exact M.
        - assert (E3 : snd (when (negb (Options.noCancel o))
                                 (cancel requestId ;; ret tt) st2)
                       = if Options.noCancel o then st2
                         else exec (cancel requestId) st2).
          { destruct (Options.noCancel o); simpl; [reflexivity|].
            unfold bind, exec. now destruct (cancel requestId st2) as [[b|x] s]. }
          rewrite E3.
          pose proof (moving_register requestId p o c
                        (if Options.noCancel o then st2
                         else exec (cancel requestId) st2)) as M.
          rewrite E4 in M. exact M.
        - match type of E5 with attach ?k _ _ = _ =>
            pose proof (moving_attach k p st4) as M
          end.
          rewrite E5 in M. exact M. }
      destruct requestPromise as [tag [q|x]|u [q|x]|q]; try discriminate; auto;
        apply (In_effects_moves _ _ _ M);
        simpl in E2; unfold bind, emit, modify, ret in E2;
        injection E2 as _ <-; simpl; apply in_or_app; right; now left.
    + rewrite E in H. discriminate.
  - intros k G C Ab.
    destruct (cancel_invokes_mechanisms requestId r i st' G R) as (Hc & _).
    rewrite A in Hc. exact (Hc k C Ab).
Qed.

(** X12. A thenable whose [then] throws, or whose chained [catch]
    throws: the proxy is rejected with the thrown error before the
    request returns, and the identity is not tracked afterwards. *)
Theorem throwing_then_rejects_at_once env url t e o st :
  t = ThenThrows e \/ t = ThenReturns (CatchThrows e) ->
  let requestId :=
    _generateRequestId env url (Options.requestKey o) (Options.noCancel o) in
  exists r st',
    request env url (RPAwaited (Thenable t)) o st = (Normal r, st') /\
    wrapper_state r st' = Some (Rejected (Raised e)) /\
    info_isCancelled r st' = false /\
    isActive requestId st' = false.
Proof.
  intros T requestId. unfold request. fold requestId.
  destruct (_request_phases requestId (RPAwaited (Thenable t)) o st)
    as (c & st1 & E1 & H).
  simpl in H. unfold ret in H.
  set (st3 := if Options.noCancel o then st1 else exec (cancel requestId) st1) in *.
  destruct H as (st4 & st5 & E4 & E5 & E).
  destruct (register_spec requestId (Thenable t) o c st3) as (st4' & E4' & A4 & I4 & _).
  rewrite E4 in E4'. injection E4' as <-.
  set (k := {| k_requestId := requestId; k_requestInfo := length (infos st3) |}) in *.
  assert (X : exists st4x,
             st5 = exec (deliver k (Fails e)) st4x /\
             activeRequests st4x = activeRequests st4 /\
             infos st4x = infos st4).
  { destruct T as [-> | ->]; simpl in E5; unfold try_catch, bind in E5; simpl in E5.
    - exists st4. unfold exec. simpl.
      destruct (onError k e st4) as [res s]. injection E5 as _ <-. auto.
    - eexists (with_world (controllers st4) (effects st4 ++ [ThenAttached k]) st4).
      unfold exec. simpl.
      match type of E5 with ?x = _ => destruct x as [res s] end.
      injection E5 as _ <-. auto. }
  destruct X as (st4x & -> & Ax & Ix).
  assert (C : is_current k st4x = true).
  { unfold is_current. simpl. rewrite Ax, A4, JSMapFacts.get_set_same.
    apply Nat.eqb_refl. }
  assert (R : read_info (k_requestInfo k) st4x
              = Some {| RequestInfo.promise := Thenable t;
                        RequestInfo.abortController := c;
                        RequestInfo.cancelToken := Options.cancelToken o;
                        RequestInfo.wrapperPromise := Pending;
                        RequestInfo.isCancelled := false;
                        RequestInfo.verbose := verbose st3 |}).
  { unfold read_info. simpl. rewrite Ix, I4, nth_error_app2, Nat.sub_diag by lia.
    reflexivity. }
  destruct (deliver_current k (Fails e) st4x _ C R eq_refl) as (A & I).
  exists (length (infos st3)), (exec (deliver k (Fails e)) st4x).
  split; [exact E|]. unfold read_info in R.
  cbn [k_requestInfo k_requestId k] in A, I, R.
  split; [|split].
  - unfold wrapper_state, read_info. now rewrite I, nth_error_update_same, R.
  - unfold info_isCancelled, read_info. now rewrite I, nth_error_update_same, R.
  - unfold isActive, JSMap.has. now rewrite A, JSMapFacts.get_delete_same.
Qed.

Lemma transport_signal_is_entry_controller_witness :
  exists r st' i,
    request sample_env "/api/a" (RPString "/api/a" (inl a_promise))
            Options.empty quiet_manager = (Normal r, st') /\
    read_info r st' = Some i /\
    In (FetchCalled "/api/a"
          (_prepareFetchOptions Options.empty (RequestInfo.abortController i) []))
       (effects st').
Proof.
  destruct (transport_signal_is_entry_controller sample_env "/api/a"
              (RPString "/api/a" (inl a_promise)) Options.empty quiet_manager
              eq_refl) as (c & r & st' & i & E & R & A & _ & _ & H & _).
  exists r, st', i. rewrite A. auto.
Defined.

Lemma throwing_then_rejects_at_once_witness :
  exists r st',
    request sample_env "/api/a" (RPAwaited (Thenable (ThenThrows (VString "bad"))))
            Options.empty quiet_manager = (Normal r, st') /\
    wrapper_state r st' = Some (Rejected (Raised (VString "bad"))).
Proof.
  destruct (throwing_then_rejects_at_once sample_env "/api/a"
              (ThenThrows (VString "bad")) (VString "bad") Options.empty
              quiet_manager (or_introl eq_refl)) as (r & st' & E & W & _).
  exists r, st'. auto.
Defined.

(** ** How a request changes the table *)

Lemma set_length k v m :
  length (JSMap.set k v m) = if JSMap.has k m then length m else S (length m).
Proof.
  unfold JSMap.has. induction m as [|[k0 v0] m IH]; simpl; [reflexivity|].
  destruct (String.eqb k k0); simpl; [reflexivity|].
  rewrite IH. now destruct (JSMap.get k m).
Qed.

Lemma prepare_call_yields requestPromise p o c st :
  yields requestPromise = Some p ->
  exists st', prepare_call requestPromise o c st = (Normal p, st') /\
              outside st st'.
Proof.
  intros H. pose proof (external_prepare_call requestPromise o c st) as O.
  destruct requestPromise as [tag [q|e]|url [q|e]|q]; try discriminate;
    injection H as ->; (eexists; split; [reflexivity|exact O]).
Qed.

Lemma attach_stays_tracked k p st :
  stays_tracked p = true ->
  exists st', attach k p st = (Normal tt, st') /\ outside st st'.
Proof.
  intros H.
  destruct p as [[[| |e]|e]|v]; try discriminate;
    (eexists; split; [reflexivity|]); repeat split; simpl.
  - exists [ThenAttached k; CatchAttached k].
    split; [now rewrite <- app_assoc|intros r; reflexivity].
  - exists [ThenAttached k]. split; [reflexivity|intros r; reflexivity].
  - exists [TimeoutSet k v]. split; [reflexivity|intros r; reflexivity].
Qed.

(** X13. A request whose call stays pending leaves its identity tracked
    with a pending proxy, and the table grows by one entry exactly when
    the identity was not tracked before: an identity never holds two
    entries. *)
Theorem request_tracks_one_entry_per_identity
  managerOptions evs env url requestPromise p o :
  let st := run evs (new_RequestManager managerOptions) in
  let requestId :=
    _generateRequestId env url (Options.requestKey o) (Options.noCancel o) in
  yields requestPromise = Some p ->
  stays_tracked p = true ->
  exists r st',
    request env url requestPromise o st = (Normal r, st') /\
    JSMap.get requestId (activeRequests st') = Some r /\
    isActive requestId st' = true /\
    wrapper_state r st' = Some Pending /\
    getActiveCount st' =
      if isActive requestId st then getActiveCount st else S (getActiveCount st).
Proof.
  intros st requestId Y T. unfold request. fold requestId.
  pose proof (WF_run managerOptions evs) as W. fold st in W.
  destruct (_request_phases requestId requestPromise o st) as (c & st1 & E1 & H).
  pose proof (external_choose_controller o st) as O1. rewrite E1 in O1.
  destruct (prepare_call_yields requestPromise p o c st1 Y) as (st2 & E2 & O2).
  rewrite E2 in H. cbv zeta in H.
  destruct (outside_trans _ _ _ O1 O2) as (A2 & I2 & _). simpl in A2, I2.
  set (st3 := if Options.noCancel o then st2 else exec (cancel requestId) st2) in *.
  destruct H as (st4 & st5 & E4 & E5 & E).
  destruct (register_spec requestId p o c st3) as (st4' & E4' & A4 & I4 & _).
  rewrite E4 in E4'. injection E4' as <-.
  destruct (attach_stays_tracked
              {| k_requestId := requestId; k_requestInfo := length (infos st3) |}
              p st4 T) as (st5' & E5' & A5 & I5 & _).
  rewrite E5 in E5'. injection E5' as <-.
  assert (L3 : length (JSMap.set requestId (length (infos st3)) (activeRequests st3))
               = if JSMap.has requestId (activeRequests st)
                 then length (activeRequests st)
                 else S (length (activeRequests st))).
  { rewrite set_length. subst st3. destruct (Options.noCancel o).
    - now rewrite A2.
    - unfold exec, JSMap.has.
      destruct (JSMap.get requestId (activeRequests st)) as [r0|] eqn:G.
      + assert (G2 : JSMap.get requestId (activeRequests st2) = Some r0)
          by now rewrite A2.
        destruct (cancel_present _ _ _ G2) as (s & ef & Ec & Ac & _).
        rewrite Ec. simpl. rewrite Ac, JSMapFacts.get_delete_same, A2.
        exact (delete_length _ _ _ (wf_keys _ W) G).
      + assert (G2 : JSMap.get requestId (activeRequests st2) = None)
          by now rewrite A2.
        rewrite (cancel_absent _ _ G2). simpl. now rewrite G2, A2. }
  exists (length (infos st3)), st5. split; [exact E|].
  assert (G5 : JSMap.get requestId (activeRequests st5) = Some (length (infos st3))).
  { rewrite A5, A4. apply JSMapFacts.get_set_same. }
  split; [exact G5|]. split; [unfold isActive, JSMap.has; now rewrite G5|].
  split.
  - unfold wrapper_state, read_info.
    now rewrite I5, I4, nth_error_app2, Nat.sub_diag by lia.
  - unfold getActiveCount, JSMap.size, isActive. now rewrite A5, A4.
Qed.

Lemma request_tracks_one_entry_per_identity_witness :
  exists r st',
    request sample_env "/api/a?again" (RPAwaited (Plain (VObject 9))) Options.empty
            (run one_pending quiet_manager) = (Normal r, st') /\
    getActiveCount st' = 1.
Proof.
  destruct (request_tracks_one_entry_per_identity {| mo_verbose := None |}
              one_pending sample_env "/api/a?again"
              (RPAwaited (Plain (VObject 9))) (Plain (VObject 9)) Options.empty
              eq_refl eq_refl) as (r & st' & E & _ & _ & _ & C).
  exists r, st'. split; [exact E|]. rewrite C. vm_compute. reflexivity.
Defined.

(** ** What a suppressed request leaves alone *)

Lemma attach_spec k p st :
  info_isCancelled (k_requestInfo k) st = false ->
  controllers (snd (attach k p st)) = controllers st /\
  (forall r, r <> k_requestInfo k ->
             read_info r (snd (attach k p st)) = read_info r st) /\
  exists ef,
    effects (snd (attach k p st)) = (effects st ++ ef)%list /\
    forallb (fun e => negb (is_cancellation e)) ef = true.
Proof.
  intros N.
  assert (X : forall e ef0,
             let st0 := with_world (controllers st) (effects st ++ ef0) st in
             forallb (fun e => negb (is_cancellation e)) ef0 = true ->
             controllers (snd (onError k e st0)) = controllers st /\
             (forall r, r <> k_requestInfo k ->
                        read_info r (snd (onError k e st0)) = read_info r st) /\
             exists ef,
               effects (snd (onError k e st0)) = (effects st ++ ef)%list /\
               forallb (fun e => negb (is_cancellation e)) ef = true).
  { intros e ef0 st0 F. unfold onError, bind, gets.
    destruct (is_current k st0); simpl.
    - unfold info_isCancelled, read_info in *. simpl. rewrite N. simpl.
      split; [reflexivity|]. split.
      + intros r Hne. apply nth_error_update_other. congruence.
      + exists (ef0 ++ [RejectCalled (k_requestInfo k) (Raised e)])%list.
        split; [now rewrite app_assoc|].
        rewrite forallb_app, F. reflexivity.
    - split; [reflexivity|]. split; [reflexivity|]. now exists ef0. }
  destruct p as [[[| |e]|e]|v]; simpl; unfold try_catch, bind; simpl.
  - split; [reflexivity|]. split; [reflexivity|].
    exists [ThenAttached k; CatchAttached k]. now rewrite <- app_assoc.
  - split; [reflexivity|]. split; [reflexivity|]. now exists [ThenAttached k].
  - exact (X e [ThenAttached k] eq_refl).
  - pose proof (X e [] eq_refl) as H. simpl in H.
    now rewrite with_world_same in H.
  - split; [reflexivity|]. split; [reflexivity|]. now exists [TimeoutSet k v].
Qed.

(** X14. A suppressed request cancels nothing: the entries and the
    controllers that exist are the same afterwards, and what it adds to
    the trace holds no call of [abort], of an abort method or listener,
    of a cancel token, and no cancellation error. *)
Theorem suppressed_request_cancels_nothing env url requestPromise o st :
  Options.noCancel o = true ->
  let st' := exec (request env url requestPromise o) st in
  (forall r i, read_info r st = Some i -> read_info r st' = Some i) /\
  (forall c k, read_controller c st = Some k -> read_controller c st' = Some k) /\
  exists ef,
    effects st' = (effects st ++ ef)%list /\
    forallb (fun e => negb (is_cancellation e)) ef = true.
Proof.
  intros NC st'. subst st'. unfold request, exec.
  set (requestId := _generateRequestId env url (Options.requestKey o)
                      (Options.noCancel o)).
  destruct (_request_phases requestId requestPromise o st) as (c & st1 & E1 & H).
  destruct (choose_controller_spec o st)
    as (c' & st1' & fresh & E1' & A1 & I1 & F1 & _ & C1).
  rewrite E1 in E1'. injection E1' as <- <-.
  destruct (prepare_call_spec requestPromise o c st1) as (ef2 & E2 & Q2).
  assert (Keep : forall cc k, read_controller cc st = Some k ->
                              nth_error (controllers st1) cc = Some k).
  { intros cc k R. rewrite C1. unfold read_controller in R.
    rewrite nth_error_app1; [exact R|]. apply nth_error_Some. congruence. }
  destruct (prepare_call requestPromise o c st1) as [[p|e] st2].
  - cbv zeta in H. rewrite NC in H. destruct H as (st4 & st5 & E4 & E5 & E).
    rewrite E. simpl in E2 |- *. subst st2.
    destruct (register_spec requestId p o c
                (with_world (controllers st1) (effects st1 ++ ef2) st1))
      as (st4' & E4' & _ & I4 & F4 & _ & C4).
    rewrite E4 in E4'. injection E4' as <-. simpl in I4, F4, C4, E5.
    set (k := {| k_requestId := requestId;
                 k_requestInfo := length (infos st1) |}) in *.
    assert (N : info_isCancelled (k_requestInfo k) st4 = false).
    { unfold info_isCancelled, read_info. simpl.
      now rewrite I4, nth_error_app2, Nat.sub_diag by lia. }
    destruct (attach_spec k p st4 N) as (C5 & R5 & ef5 & F5 & Q5).
    rewrite E5 in C5, R5, F5. simpl in C5, R5, F5.
    split; [|split].
    + intros r i R. assert (L : r < length (infos st)).
      { apply nth_error_Some. unfold read_info in R. congruence. }
      assert (L1 : length (infos st1) = length (infos st)) by now rewrite I1.
      rewrite R5 by (simpl; lia). unfold read_info in *.
      rewrite I4, nth_error_app1 by lia. now rewrite I1.
    + intros cc kk R. unfold read_controller. rewrite C5, C4. now apply Keep.
    + exists (ef2 ++ ef5)%list. split.
      * now rewrite F5, F4, F1, app_assoc.
      * now rewrite forallb_app, Q2, Q5.
  - rewrite H. simpl in E2 |- *. subst st2. split; [|split].
    + intros r i R. unfold read_info in *. simpl. now rewrite I1.
    + intros cc kk R. unfold read_controller. simpl. now apply Keep.
    + exists ef2. simpl. now rewrite F1.
Qed.

Lemma suppressed_request_cancels_nothing_witness :
  let st := run one_pending quiet_manager in
  let st' := exec (request sample_env "/api/a" (RPAwaited a_promise) suppressed) st in
  info_isCancelled 0 st' = false.
Proof.
  intros st st'.
  assert (R : exists i, read_info 0 st = Some i /\ RequestInfo.isCancelled i = false)
    by (vm_compute; eexists; split; reflexivity).
  destruct R as (i & R & N).
  pose proof (proj1 (suppressed_request_cancels_nothing sample_env "/api/a"
                       (RPAwaited a_promise) suppressed st eq_refl) 0 i R) as H.
  unfold info_isCancelled. fold st' in H. now rewrite H.
Defined.

(** ** What [cancel] does to the controller *)

(** [cancel] on an entry whose platform controller is not aborted yet. *)
Lemma cancel_live_controller requestId r i k st :
  JSMap.get requestId (activeRequests st) = Some r ->
  read_info r st = Some i ->
  read_controller (RequestInfo.abortController i) st = Some k ->
  impl k = NativeAbort ->
  aborted k = false ->
  exists st' ef,
    cancel requestId st = (Normal true, st') /\
    effects st' = (effects st ++ ef)%list /\
    signal_aborted (RequestInfo.abortController i) st' = true /\
    In (AbortCalled (RequestInfo.abortController i)) ef /\
    (forall tag b, In (LinkedAbort (AbortFn tag b)) (listeners k) ->
                   In (AbortMethodCalled tag) ef) /\
    (forall tag b,
        RequestInfo.cancelToken i = Some (TokenFunction tag b) \/
        RequestInfo.cancelToken i = Some (TokenObject (MemberFn tag b)) ->
        In (CancelTokenCalled tag) ef).
Proof.
  intros G R C I A.
  set (c := RequestInfo.abortController i) in *.
  set (sta := with_infos (update r mark_cancelled (infos st)) st).
  assert (Ra : read_info r sta = Some (mark_cancelled i)).
  { unfold read_info in *. simpl. now rewrite nth_error_update_same, R. }
  assert (L : c < length (controllers st)).
  { apply nth_error_Some. unfold read_controller in C. congruence. }
  destruct (native_abort c k sta C I A) as (ef1 & E1 & H1 & H1').
  assert (Ta : try_abort r sta
               = (Normal tt,
                  with_world (update c set_aborted (controllers st))
                    (effects st ++ ef1) sta)).
  { unfold try_abort, bind, gets. rewrite Ra. simpl. fold c.
    unfold signal_aborted. change (read_controller c sta) with (read_controller c st).
    rewrite C, A. simpl. unfold swallow, try_catch. now rewrite E1. }
  destruct (try_cancelToken_run r
              (with_world (update c set_aborted (controllers st))
                 (effects st ++ ef1) sta)) as (ef2 & E2 & H2).
  simpl in E2.
  unfold cancel. unfold bind at 1. unfold gets at 1. rewrite G.
  unfold bind at 1. unfold modify at 1. fold sta.
  unfold bind at 1. rewrite Ta. unfold bind at 1. rewrite E2.
  unfold bind, gets, when, rejectWrapper, activeRequests_delete, emit, modify, ret.
  cbn [verbose with_world with_infos controllers effects infos activeRequests].
  change (verbose sta) with (verbose st).
  assert (Hc : forall tail : list effect,
             In (AbortCalled c) (ef1 ++ ef2 ++ tail) /\
             (forall tag b, In (LinkedAbort (AbortFn tag b)) (listeners k) ->
                            In (AbortMethodCalled tag) (ef1 ++ ef2 ++ tail)) /\
             (forall tag b,
                 RequestInfo.cancelToken i = Some (TokenFunction tag b) \/
                 RequestInfo.cancelToken i = Some (TokenObject (MemberFn tag b)) ->
                 In (CancelTokenCalled tag) (ef1 ++ ef2 ++ tail))).
  { intros tail. split; [apply in_or_app; now left|]. split.
    - intros tag b Hin. apply in_or_app. left. eauto.
    - intros tag b T. apply in_or_app. right. apply in_or_app. left.
      apply (H2 (mark_cancelled i) tag b); [exact Ra|exact T]. }
  destruct (verbose st); unfold bind; simpl.
  - eexists. exists (ef1 ++ ef2 ++ [RejectCalled r (cancel_message requestId)])%list.
    split; [reflexivity|]. simpl.
    split; [now rewrite <- !app_assoc|].
    split; [now apply signal_aborted_after_update|]. apply Hc.
  - eexists. exists (ef1 ++ ef2 ++ [])%list.
    split; [reflexivity|]. simpl.
    split; [now rewrite app_nil_r, <- app_assoc|].
    split; [now apply signal_aborted_after_update|]. apply Hc.
Qed.

(** X15. [cancel] of a tracked entry whose controller is a platform
    controller not aborted yet: the controller is aborted afterwards,
    and what [cancel] added to the trace holds the call of [abort], of
    every abort method linked to the signal, and of the entry's cancel
    function or [cancel] member. *)
Theorem cancel_aborts_controller requestId r i k st :
  JSMap.get requestId (activeRequests st) = Some r ->
  read_info r st = Some i ->
  read_controller (RequestInfo.abortController i) st = Some k ->
  impl k = NativeAbort ->
  aborted k = false ->
  exists st' ef,
    cancel requestId st = (Normal true, st') /\
    effects st' = (effects st ++ ef)%list /\
    signal_aborted (RequestInfo.abortController i) st' = true /\
    In (AbortCalled (RequestInfo.abortController i)) ef /\
    (forall tag b, In (LinkedAbort (AbortFn tag b)) (listeners k) ->
                   In (AbortMethodCalled tag) ef) /\
    (forall tag b,
        RequestInfo.cancelToken i = Some (TokenFunction tag b) \/
        RequestInfo.cancelToken i = Some (TokenObject (MemberFn tag b)) ->
        In (CancelTokenCalled tag) ef).
Proof. exact (cancel_live_controller requestId r i k st). Qed.

Lemma cancel_aborts_controller_witness :
  let st := run one_pending quiet_manager in
  exists st', cancel "request_/api/a" st = (Normal true, st') /\
              signal_aborted 0 st' = true.
Proof.
  intros st.
  assert (G : JSMap.get "request_/api/a" (activeRequests st) = Some 0)
    by (vm_compute; reflexivity).
  assert (R : read_info 0 st =
              Some {| RequestInfo.promise := a_promise;
                      RequestInfo.abortController := 0;
                      RequestInfo.cancelToken := None;
                      RequestInfo.wrapperPromise := Pending;
                      RequestInfo.isCancelled := false;
                      RequestInfo.verbose := false |})
    by (vm_compute; reflexivity).
  assert (C : read_controller 0 st =
              Some {| aborted := false; impl := NativeAbort; listeners := [] |})
    by (vm_compute; reflexivity).
  destruct (cancel_aborts_controller "request_/api/a" 0 _ _ st G R C eq_refl eq_refl)
    as (st' & ef & E & _ & S & _).
  exists st'. split; [exact E|exact S].
Defined.

(** ** [ajax] and [axios] *)

(** A request whose call stays pending, made on a free identity or
    suppressed: the entry it leaves in the table. *)
Lemma _request_registers requestId requestPromise p o st :
  yields requestPromise = Some p ->
  stays_tracked p = true ->
  Options.noCancel o = true \/ JSMap.get requestId (activeRequests st) = None ->
  exists c st1 fresh r st' i,
    choose_controller o st = (Normal c, st1) /\
    controllers st1 = (controllers st ++ fresh)%list /\
    _request requestId requestPromise o st = (Normal r, st') /\
    JSMap.get requestId (activeRequests st') = Some r /\
    read_info r st' = Some i /\
    RequestInfo.abortController i = c /\
    RequestInfo.cancelToken i = Options.cancelToken o /\
    controllers st' = controllers st1.
Proof.
  intros Y T F.
  destruct (_request_phases requestId requestPromise o st) as (c & st1 & E1 & H).
  destruct (choose_controller_spec o st)
    as (c' & st1' & fresh & E1' & A1 & I1 & F1 & _ & C1).
  rewrite E1 in E1'. injection E1' as <- <-.
  destruct (prepare_call_yields requestPromise p o c st1 Y) as (st2 & E2 & O2).
  destruct (prepare_call_spec requestPromise o c st1) as (ef2 & S2 & _).
  rewrite E2 in H, S2. cbv zeta in H. simpl in S2.
  assert (E3 : (if Options.noCancel o then st2 else exec (cancel requestId) st2) = st2).
  { destruct (Options.noCancel o); [reflexivity|].
    destruct F as [F|F]; [discriminate|].
    unfold exec. rewrite cancel_absent; [reflexivity|].
    rewrite S2. simpl. now rewrite A1. }
  rewrite E3 in H. destruct H as (st4 & st5 & E4 & E5 & E).
  destruct (register_spec requestId p o c st2) as (st4' & E4' & A4 & I4 & _ & _ & C4).
  rewrite E4 in E4'. injection E4' as <-.
  set (k := {| k_requestId := requestId; k_requestInfo := length (infos st2) |}) in *.
  assert (N : info_isCancelled (k_requestInfo k) st4 = false).
  { unfold info_isCancelled, read_info. simpl.
    now rewrite I4, nth_error_app2, Nat.sub_diag by lia. }
  destruct (attach_spec k p st4 N) as (C5 & _).
  destruct (attach_stays_tracked k p st4 T) as (st5' & E5' & A5 & I5 & _).
  rewrite E5 in E5', C5. injection E5' as <-. simpl in C5.
  exists c, st1, fresh, (length (infos st2)), st5. eexists.
  split; [exact E1|]. split; [exact C1|]. split; [exact E|].
  split; [rewrite A5, A4; apply JSMapFacts.get_set_same|].
  split; [unfold read_info;
          rewrite I5, I4, nth_error_app2, Nat.sub_diag by lia; reflexivity|].
  split; [reflexivity|]. split; [reflexivity|].
  rewrite C5, C4, S2. reflexivity.
Qed.

(** X16. [ajax] throws only when [ajaxFunction] is not a function, and
    then changes nothing. With a function it returns: the proxy, or a
    rejected promise. Null options give a rejected promise; an
    [ajaxFunction] that throws gives a promise rejected with its error,
    and the table, the entries and the trace are as before: nothing was
    cancelled. *)
Theorem ajax_reports_failures_as_rejections env tag result url options st :
  ajax env AjaxNotFunction url options st = (Throw not_a_function_error, st) /\
  (exists res st',
      ajax env (AjaxFunction tag result) url options st = (Normal res, st')) /\
  (options = None ->
   exists st',
     ajax env (AjaxFunction tag result) url options st
     = (Normal (RejectedPromise TypeError), st') /\
     activeRequests st' = activeRequests st /\
     infos st' = infos st /\
     effects st' = effects st) /\
  (forall e, result = inr e -> options <> None ->
   exists st',
     ajax env (AjaxFunction tag result) url options st
     = (Normal (RejectedPromise e), st') /\
     activeRequests st' = activeRequests st /\
     infos st' = infos st /\
     effects st' = effects st).
Proof.
  split; [reflexivity|]. split; [|split].
  - apply total_normal. unfold ajax. apply total_try_catch.
    intros e. apply total_ret.
  - intros ->. eexists. split; [reflexivity|]. auto.
  - intros e -> Ho. destruct options as [o|]; [|congruence].
    unfold ajax, try_catch. unfold bind at 1. unfold _clearAbortController, modify.
    unfold bind at 1.
    destruct (Options.abortController o) as [c|].
    + eexists. split; [reflexivity|]. auto.
    + pose proof (external_getAbortController (with_abortController None st))
        as (A & I & _ & ef & F & Q).
      destruct (total_normal _ (with_abortController None st)
                  total_getAbortController) as (c & s & E).
      rewrite E in *. simpl in A, I, F. unfold bind. simpl.
      eexists. split; [reflexivity|]. simpl.
      assert (F0 : effects s = effects st).
      { clear - E. unfold getAbortController, bind, gets in E. simpl in E.
        injection E as _ <-. reflexivity. }
      auto.
Qed.

(** X17. A request made by [ajax] on a free identity, without a
    controller in its options, whose request object has a callable
    [abort] (its own, or that of its [xhr]) and stays pending: the entry
    is tracked, and [cancel] of the identity calls that abort method. *)
Theorem ajax_cancel_calls_abort env tag req url o st m_tag b p :
  Options.abortController o = None ->
  abort_method_of req = AbortFn m_tag b ->
  yields (call_of req) = Some p ->
  stays_tracked p = true ->
  let requestId :=
    _generateRequestId env url (Options.requestKey o) (Options.noCancel o) in
  JSMap.get requestId (activeRequests st) = None ->
  exists r st',
    ajax env (AjaxFunction tag (inl req)) url (Some o) st = (Normal (Proxy r), st') /\
    JSMap.get requestId (activeRequests st') = Some r /\
    exists st'' ef,
      cancel requestId st' = (Normal true, st'') /\
      effects st'' = (effects st' ++ ef)%list /\
      In (AbortMethodCalled m_tag) ef /\
      isActive requestId st'' = false.
Proof.
  intros Ho Hm Y T requestId G.
  set (c := length (controllers st)).
  set (l := LinkedAbort (AbortFn m_tag b)).
  set (s1 := with_world
               (update c (add_listener l)
                  (controllers st ++
                   [{| aborted := false; impl := NativeAbort; listeners := [] |}]))
               (effects st)
               (with_abortController (Some c) st)).
  assert (E0 : ajax env (AjaxFunction tag (inl req)) url (Some o) st
               = try_catch
                   (r <- _request requestId (call_of req) (with_controller c o) ;;
                    ret (Proxy r))
                   (fun error => ret (RejectedPromise error)) s1).
  { unfold ajax, try_catch. unfold bind at 1. unfold _clearAbortController, modify.
    rewrite Ho. unfold bind at 1. unfold getAbortController, bind, gets. simpl.
    rewrite Hm. reflexivity. }
  destruct (_request_registers requestId (call_of req) p (with_controller c o) s1 Y T
              (or_intror G))
    as (c' & st1 & fresh & r & st' & i & E1 & C1 & E & G' & R & A & _ & C').
  destruct (choose_supplied_controller (with_controller c o) c s1 eq_refl)
    as (st1' & E1').
  rewrite E1 in E1'. injection E1' as -> _.
  assert (K : read_controller c st'
              = Some {| aborted := false; impl := NativeAbort; listeners := [l] |}).
  { unfold read_controller. rewrite C', C1. simpl.
    rewrite nth_error_app1 by (rewrite update_length, length_app; simpl; lia).
    rewrite nth_error_update_same, nth_error_app2, Nat.sub_diag by (subst c; lia).
    reflexivity. }
  exists r, st'. split; [|split; [exact G'|]].
  { rewrite E0. unfold try_catch, bind. now rewrite E. }
  rewrite <- A in K.
  destruct (cancel_live_controller requestId r i _ st' G' R K eq_refl eq_refl)
    as (st'' & ef & Ec & F & _ & _ & Hl & _).
  exists st'', ef. split; [exact Ec|]. split; [exact F|]. split.
  - apply (Hl m_tag b). now left.
  - destruct (cancel_present _ _ _ G') as (s & ef' & Es & Act & _).
    rewrite Ec in Es. injection Es as <-.
    unfold isActive, JSMap.has. now rewrite Act, JSMapFacts.get_delete_same.
Qed.

Lemma cancel_calls_token requestId r i tag b st :
  JSMap.get requestId (activeRequests st) = Some r ->
  read_info r st = Some i ->
  RequestInfo.cancelToken i = Some (TokenFunction tag b) \/
  RequestInfo.cancelToken i = Some (TokenObject (MemberFn tag b)) ->
  exists st' ef,
    cancel requestId st = (Normal true, st') /\
    effects st' = (effects st ++ ef)%list /\
    In (CancelTokenCalled tag) ef.
Proof.
  intros G R T.
  set (sta := with_infos (update r mark_cancelled (infos st)) st).
  destruct (total_external_run _ sta (total_try_abort r) (external_try_abort r))
    as (st1 & E1 & (_ & I1 & V1 & ef1 & F1 & _)).
  assert (R1 : read_info r st1 = Some (mark_cancelled i)).
  { unfold read_info in *. rewrite I1. simpl.
    now rewrite nth_error_update_same, R. }
  destruct (try_cancelToken_run r st1) as (ef2 & E2 & H2).
  unfold cancel. unfold bind at 1. unfold gets at 1. rewrite G.
  unfold bind at 1. unfold modify at 1. fold sta.
  unfold bind at 1. rewrite E1. unfold bind at 1. rewrite E2.
  unfold bind, gets, when, rejectWrapper, activeRequests_delete, emit, modify, ret.
  cbn [verbose with_world].
  assert (Hin : forall tail, In (CancelTokenCalled tag) (ef1 ++ ef2 ++ tail)).
  { intros tail. apply in_or_app. right. apply in_or_app. left.
    exact (H2 _ tag b R1 T). }
  simpl in F1.
  destruct (verbose st1); simpl.
  - eexists. exists (ef1 ++ ef2 ++ [RejectCalled r (cancel_message requestId)])%list.
    split; [reflexivity|]. simpl. rewrite F1. split; [now rewrite <- !app_assoc|].
    apply Hin.
  - eexists. exists (ef1 ++ ef2 ++ [])%list.
    split; [reflexivity|]. simpl. rewrite F1.
    split; [now rewrite app_nil_r, <- app_assoc|]. apply Hin.
Qed.

(** X18. [axios]: when [get] throws, [axios] throws the same error and
    the state is untouched. When [get] returns a call that stays pending,
    on a free identity and with options that carry no cancel token, the
    entry is tracked and [cancel] of the identity calls the [cancel] of
    the token source. *)
Theorem axios_cancel_calls_source env url options lib st :
  let requestOptions :=
    match options with Some o => o | None => Options.empty end in
  let requestId :=
    _generateRequestId env url (Options.requestKey requestOptions)
                       (Options.noCancel requestOptions) in
  (forall e, get_result lib = inr e ->
             axios env url options lib st = (Throw e, st)) /\
  (forall p tag b,
      get_result lib = inl p ->
      stays_tracked p = true ->
      source_cancel lib = MemberFn tag b ->
      Options.cancelToken requestOptions = None ->
      JSMap.get requestId (activeRequests st) = None ->
      exists r st',
        axios env url options lib st = (Normal r, st') /\
        JSMap.get requestId (activeRequests st') = Some r /\
        exists st'' ef,
          cancel requestId st' = (Normal true, st'') /\
          effects st'' = (effects st' ++ ef)%list /\
          In (CancelTokenCalled tag) ef).
Proof.
  intros requestOptions requestId. split.
  - intros e H. unfold axios, bind. now rewrite H.
  - intros p tag b Hg T Hs Ht G.
    destruct (_request_registers requestId (RPAwaited p) p
                (with_source (TokenObject (source_cancel lib)) requestOptions)
                st eq_refl T (or_intror G))
      as (c & st1 & fresh & r & st' & i & _ & _ & E & G' & R & _ & Tok & _).
    exists r, st'. split; [|split; [exact G'|]].
    { unfold axios, bind. rewrite Hg. exact E. }
    simpl in Tok. rewrite Ht, Hs in Tok.
    destruct (cancel_calls_token requestId r i tag b st' G' R (or_intror Tok))
      as (st'' & ef & Ec & F & H).
    now exists st'', ef.
Qed.

Lemma ajax_reports_failures_as_rejections_witness :
  exists st',
    ajax sample_env (AjaxFunction 1 (inr (VString "offline"))) "/api/a"
         (Some Options.empty) (run one_pending quiet_manager)
    = (Normal (RejectedPromise (VString "offline")), st') /\
    activeRequests st' = activeRequests (run one_pending quiet_manager).
Proof.
  destruct (proj2 (proj2 (proj2 (ajax_reports_failures_as_rejections sample_env 1
                                   (inr (VString "offline")) "/api/a"
                                   (Some Options.empty)
                                   (run one_pending quiet_manager))))
              (VString "offline") eq_refl) as (st' & E & A & _).
  - discriminate.
  - exists st'. split; assumption.
Defined.

Lemma ajax_cancel_calls_abort_witness :
  exists r st' st'' ef,
    ajax sample_env
         (AjaxFunction 1
            (inl (ReqObject NotCallable (AbortFn 8 Returns) (RPAwaited a_promise))))
         "/api/a" (Some Options.empty) quiet_manager = (Normal (Proxy r), st') /\
    cancel "request_/api/a" st' = (Normal true, st'') /\
    effects st'' = (effects st' ++ ef)%list /\
    In (AbortMethodCalled 8) ef.
Proof.
  destruct (ajax_cancel_calls_abort sample_env 1
              (ReqObject NotCallable (AbortFn 8 Returns) (RPAwaited a_promise))
              "/api/a" Options.empty quiet_manager 8 Returns a_promise
              eq_refl eq_refl eq_refl eq_refl eq_refl)
    as (r & st' & E & _ & st'' & ef & Ec & F & H & _).
  exists r, st', st'', ef. auto.
Defined.

Lemma axios_cancel_calls_source_witness :
  let lib := {| source_cancel := MemberFn 4 Returns; get_result := inl a_promise |} in
  exists r st' st'' ef,
    axios sample_env "/api/a" None lib quiet_manager = (Normal r, st') /\
    cancel "request_/api/a" st' = (Normal true, st'') /\
    effects st'' = (effects st' ++ ef)%list /\
    In (CancelTokenCalled 4) ef.
Proof.
  intros lib.
  destruct (proj2 (axios_cancel_calls_source sample_env "/api/a" None lib quiet_manager)
              a_promise 4 Returns eq_refl eq_refl eq_refl eq_refl eq_refl)
    as (r & st' & E & _ & st'' & ef & Ec & F & H).
  exists r, st', st'', ef. auto.
Defined.

(** ** What [clear] leaves behind *)

(** X19. After [clear] the proxy of an entry that was tracked stays
    pending whatever happens later: the entry is not marked cancelled,
    its call ending changes nothing, its resolvers are never called. *)
Theorem cleared_proxy_never_settles managerOptions evs requestId r later :
  let st := run evs (new_RequestManager managerOptions) in
  JSMap.get requestId (activeRequests st) = Some r ->
  let st' := run later (exec clear st) in
  wrapper_state r st' = Some Pending /\
  info_isCancelled r st' = false /\
  ~ tracked r st' /\
  settle_calls r (effects st') = 0.
Proof.
  intros st G st'.
  destruct (tracked_entry managerOptions evs requestId r G) as (i & R & P & N).
  fold st in R.
  destruct (wf_tracked _ (WF_run managerOptions evs) r
              (JSMapFacts.get_value _ _ _ G)) as (_ & C & _).
  fold st in C.
  assert (F : frozen r i 0 (exec clear st)).
  { repeat split; auto. }
  destruct (frozen_run r i 0 _ later F) as (R' & T' & C').
  fold st' in R', T', C'. unfold wrapper_state, info_isCancelled.
  rewrite R'. simpl. rewrite P, N. auto.
Qed.

Lemma cleared_proxy_never_settles_witness :
  let st := run one_pending quiet_manager in
  let k := {| k_requestId := "request_/api/a"; k_requestInfo := 0 |} in
  wrapper_state 0 (run [Turn_fulfilled k (VString "late")] (exec clear st))
  = Some Pending.
Proof.
  intros st k.
  assert (G : JSMap.get "request_/api/a" (activeRequests st) = Some 0)
    by (vm_compute; reflexivity).
  exact (proj1 (cleared_proxy_never_settles {| mo_verbose := None |} one_pending
                  "request_/api/a" 0 [Turn_fulfilled k (VString "late")] G)).
Defined.
